(** * Rulebook ingestion and retrieval: a shallow embedding

    The development follows the Python sources of the content pipeline
    (pdf_parser, embedding_service, redis_manager, mcp_server).  Every
    function that a property below talks about is transcribed from its
    source, statement by statement; loops become folds over the list they
    iterate, mutable accumulators become explicit loop states, and
    [try]/[except] blocks become a small exception type.

    Python's [float] arithmetic is taken as an interface ([pyfloat]): the
    retrieval code only adds, multiplies, divides, takes [** 0.5] and
    compares, and the properties proved here never depend on how a
    particular sum is rounded.  Two instances are provided: IEEE binary64
    (the kernel's primitive floats, used to run the code on concrete
    inputs) and the real numbers (exact arithmetic).  The NumPy operations
    of the embedding service ([numpy]) and Python's sort on keys that may
    hold a NaN ([sorts_reversed]) are interfaces in the same way. *)

From Stdlib Require Import ZArith List String Ascii Bool Lia Floats Reals Lra.
From Stdlib Require Import Permutation Sorted.
From stdpp Require Import gmap strings list pretty.

Open Scope Z_scope.

(** ** Python preliminaries *)

(** The exceptions that the modelled code can meet. *)
Inductive pyerr : Type :=
| ZeroDivisionError
| ValueError
| TypeError
| IndexError
| ResponseError.

Inductive exc (A : Type) : Type :=
| Ok (a : A)
| Raise (e : pyerr).

Arguments Ok {A} a.
Arguments Raise {A} e.

Definition exc_bind {A B : Type} (m : exc A) (k : A -> exc B) : exc B :=
  match m with
  | Ok a => k a
  | Raise e => Raise e
  end.

Notation "'let!' x ':=' m 'in' k" := (exc_bind m (fun x => k))
  (at level 10, x name, m at level 100, k at level 200).

(** [try: body except: return d] *)
Definition try_except {A : Type} (body : exc A) (d : A) : A :=
  match body with
  | Ok a => a
  | Raise _ => d
  end.

(** Truthiness of a list ([if l:]) and of a string ([if s:]). *)
Definition truthy {A : Type} (l : list A) : bool :=
  match l with
  | [] => false
  | _ :: _ => true
  end.

Definition str_truthy (s : string) : bool :=
  match s with
  | EmptyString => false
  | String _ _ => true
  end.

(** [l[:n]] for a Python integer [n]: a negative bound counts from the end. *)
Definition slice_to {A : Type} (n : Z) (l : list A) : list A :=
  if n <? 0 then firstn (Z.to_nat (Z.of_nat (length l) + n)) l
  else firstn (Z.to_nat n) l.

(** [l[i:i+n]] for natural [i] and [n]. *)
Definition slice {A : Type} (i n : nat) (l : list A) : list A :=
  firstn n (skipn i l).

(** [range(0, n, step)] for a positive step, as the list of its values. *)
Definition range_step (n step : nat) : list nat :=
  map (fun k => (k * step)%nat) (seq 0 (Nat.div (n + step - 1) step)).

(** *** Strings *)

Definition newline : ascii := Ascii.ascii_of_nat 10.
Definition space : ascii := Ascii.ascii_of_nat 32.
Definition underscore : ascii := Ascii.ascii_of_nat 95.

(** The paragraph separator ["\n\n"]. *)
Definition para_sep : string := String newline (String newline EmptyString).

(** [sep.join(parts)] *)
Fixpoint str_join (sep : string) (parts : list string) : string :=
  match parts with
  | [] => EmptyString
  | [p] => p
  | p :: rest => p +:+ sep +:+ str_join sep rest
  end.

(** [s.split("\n\n")]: cut at every occurrence of two consecutive newlines,
    scanning from the left; the result always has at least one piece. *)
Fixpoint split_go (cur : string) (s : string) : list string :=
  match s with
  | EmptyString => [String.rev cur]
  | String c1 rest1 =>
      match rest1 with
      | String c2 rest2 =>
          if Ascii.eqb c1 newline && Ascii.eqb c2 newline
          then String.rev cur :: split_go EmptyString rest2
          else split_go (String c1 cur) rest1
      | EmptyString => [String.rev (String c1 cur)]
      end
  end.

Definition split_paragraphs (s : string) : list string :=
  split_go EmptyString s.

(** [s.replace(" ", "_")] *)
Fixpoint replace_spaces (s : string) : string :=
  match s with
  | EmptyString => EmptyString
  | String c rest =>
      String (if Ascii.eqb c space then underscore else c) (replace_spaces rest)
  end.

(** [str.isspace] on one character (code points below 256). *)
Definition py_isspace (c : ascii) : bool :=
  let n := Ascii.nat_of_ascii c in
  ((9 <=? n) && (n <=? 13) || (28 <=? n) && (n <=? 32)
   || (n =? 133) || (n =? 160))%nat.

Fixpoint lstrip (s : string) : string :=
  match s with
  | EmptyString => EmptyString
  | String c rest => if py_isspace c then lstrip rest else s
  end.

(** [s.strip()] *)
Definition strip (s : string) : string :=
  String.rev (lstrip (String.rev (lstrip s))).

(** [not text or not text.strip()] *)
Definition is_blank (text : string) : bool :=
  negb (str_truthy text) || negb (str_truthy (strip text)).

(** [str.lower] on one character (code points below 256). *)
Definition lower_char (c : ascii) : ascii :=
  let n := Ascii.nat_of_ascii c in
  if ((65 <=? n) && (n <=? 90)
      || (192 <=? n) && (n <=? 222) && negb (n =? 215))%nat
  then Ascii.ascii_of_nat (n + 32) else c.

Fixpoint lower (s : string) : string :=
  match s with
  | EmptyString => EmptyString
  | String c rest => String (lower_char c) (lower rest)
  end.

(** [needle in hay] *)
Fixpoint str_contains (needle hay : string) : bool :=
  String.prefix needle hay
  || match hay with
     | EmptyString => false
     | String _ rest => str_contains needle rest
     end.

(** ** Floating-point numbers as an interface *)

Record pyfloat : Type := PyFloat {
  num :> Type;
  f_zero : num;                    (* 0.0 *)
  f_half : num;                    (* 0.5 *)
  f_one : num;                     (* 1.0 *)
  f_add : num -> num -> num;       (* a + b *)
  f_mul : num -> num -> num;       (* a * b *)
  f_quot : num -> num -> num;      (* a / b, for a divisor that is not zero *)
  f_sqrt : num -> num;             (* a ** 0.5 *)
  f_eqb : num -> num -> bool;      (* a == b *)
  f_ltb : num -> num -> bool;      (* a < b *)
  f_leb : num -> num -> bool       (* a <= b *)
}.

Arguments f_zero {_}.
Arguments f_half {_}.
Arguments f_one {_}.
Arguments f_add {_} _ _.
Arguments f_mul {_} _ _.
Arguments f_quot {_} _ _.
Arguments f_sqrt {_} _.
Arguments f_eqb {_} _ _.
Arguments f_ltb {_} _ _.
Arguments f_leb {_} _ _.

(** [a >= b] and [a > b] *)
Definition f_geb {F : pyfloat} (a b : F) : bool := f_leb b a.
Definition f_gtb {F : pyfloat} (a b : F) : bool := f_ltb b a.

(** [a / b] on Python floats raises when the divisor equals zero. *)
Definition py_div {F : pyfloat} (a b : F) : exc F :=
  if f_eqb b f_zero then Raise ZeroDivisionError else Ok (f_quot a b).

(** [sum(xs)]: starts from 0 and adds from the left. *)
Definition py_sum {F : pyfloat} (xs : list F) : F :=
  fold_left f_add xs f_zero.

(** IEEE binary64, the representation of a Python float.  The root of
    this instance is the correctly rounded square root, which is also what
    NumPy's [sqrt] computes.  Python's [** 0.5] goes through the C
    library's [pow], whose result may differ from it in the last binary
    place; [binary64_with] below leaves that function open. *)
Definition binary64 : pyfloat :=
  {| num := PrimFloat.float;
     f_zero := PrimFloat.zero;
     f_half := 0.5%float;
     f_one := PrimFloat.one;
     f_add := PrimFloat.add;
     f_mul := PrimFloat.mul;
     f_quot := PrimFloat.div;
     f_sqrt := PrimFloat.sqrt;
     f_eqb := PrimFloat.eqb;
     f_ltb := PrimFloat.ltb;
     f_leb := PrimFloat.leb |}.

(** IEEE binary64 with [pow_half] for [** 0.5]; [binary64] is
    [binary64_with PrimFloat.sqrt]. *)
Definition binary64_with (pow_half : float -> float) : pyfloat :=
  {| num := PrimFloat.float;
     f_zero := PrimFloat.zero;
     f_half := 0.5%float;
     f_one := PrimFloat.one;
     f_add := PrimFloat.add;
     f_mul := PrimFloat.mul;
     f_quot := PrimFloat.div;
     f_sqrt := pow_half;
     f_eqb := PrimFloat.eqb;
     f_ltb := PrimFloat.ltb;
     f_leb := PrimFloat.leb |}.

(** For a finite number [m * 2^e] that is not zero, the number of binary
    digits of [m] plus [e]: the number is at least [2^(d - 1)] and below
    [2^d] for this [d]. *)
Definition magnitude_exponent (x : spec_float) : option Z :=
  match x with
  | S754_finite _ m e => Some (Zpos (digits2_pos m) + e)
  | _ => None
  end.

(** What the facts about magnitudes ask of the function taken for
    [** 0.5]: none of its finite results other than zero is below
    [2^-537], the root of the smallest positive number. *)
Definition roots_not_tiny (pow_half : float -> float) : Prop :=
  forall x d,
    magnitude_exponent (Prim2SF (pow_half x)) = Some d -> -536 <= d.

(** Exact arithmetic on the reals. *)
Definition real : pyfloat :=
  {| num := R;
     f_zero := 0%R;
     f_half := (1 / 2)%R;
     f_one := 1%R;
     f_add := Rplus;
     f_mul := Rmult;
     f_quot := Rdiv;
     f_sqrt := sqrt;
     f_eqb := fun a b => if Req_dec_T a b then true else false;
     f_ltb := fun a b => if Rlt_dec a b then true else false;
     f_leb := fun a b => if Rle_dec a b then true else false |}.

(** The facts about float comparison and magnitudes that some
    properties rely on.  They hold on the reals; on binary64 the first two
    are the IEEE ordering, the third holds because a nonzero square root is
    at least 2^-537, so that a product of two of them does not underflow.
    All three are proved below for both instances, the third for
    [binary64_with] any root without tiny results. *)
Definition lt_excludes_ge (F : pyfloat) : Prop :=
  forall a b : F, f_ltb a b = true -> f_geb a b = false.

Definition eq_excludes_lt (F : pyfloat) : Prop :=
  forall a b : F, f_eqb a b = true -> f_ltb b a = false.

Definition magnitudes_multiply_nonzero (F : pyfloat) : Prop :=
  forall x y : F,
    f_eqb (f_sqrt x) f_zero = false ->
    f_eqb (f_sqrt y) f_zero = false ->
    f_eqb (f_mul (f_sqrt x) (f_sqrt y)) f_zero = false.

(** ** models/data_models.py *)

Record Table : Type := {
  table_title : string;
  headers : list string;
  rows : list (list string);
  table_page : Z
}.

Record Section : Type := {
  sec_title : string;
  sec_content : string;
  page_start : Z;
  page_end : Z;
  level : Z;
  parent_sections : list string
}.

(** The [metadata] dictionary that [create_chunks] attaches to a chunk. *)
Record chunk_metadata : Type := {
  section_level : Z;
  page_range : string;
  chunk_index : nat
}.

Record ContentChunk (F : pyfloat) : Type := {
  chunk_id : string;
  rulebook : string;
  system : string;
  content_type : string;
  chunk_title : string;
  chunk_content : string;
  page_number : Z;
  section_path : list string;
  embedding : list F;
  metadata : chunk_metadata;
  tables : option (list Table)
}.

Arguments chunk_id {F} _.
Arguments rulebook {F} _.
Arguments system {F} _.
Arguments content_type {F} _.
Arguments chunk_title {F} _.
Arguments chunk_content {F} _.
Arguments page_number {F} _.
Arguments section_path {F} _.
Arguments embedding {F} _.
Arguments metadata {F} _.
Arguments tables {F} _.

Record SearchResult (F : pyfloat) : Type := {
  content_chunk : ContentChunk F;
  relevance_score : F;
  match_type : string
}.

Arguments content_chunk {F} _.
Arguments relevance_score {F} _.
Arguments match_type {F} _.

(** ** pdf_parser/pdf_parser.py *)

(** One entry of the outline, as [_extract_toc] builds it: the page is
    [None] when the outline item does not resolve to a page object. *)
Record toc_entry : Type := {
  toc_title : string;
  toc_page : option Z;
  toc_level : Z
}.

Record page_data : Type := {
  page_num : Z;
  page_text : string;
  page_tables : list Table
}.

Record extracted_data : Type := {
  pages : list page_data;
  toc : list toc_entry;
  total_pages : Z
}.

(** [_extract_section_content]: the texts of the pages in
    [start_page..end_page] that are not empty, joined by a newline. *)
Definition _extract_section_content (pages : list page_data)
    (start_page end_page : Z) (section_title : string) : string :=
  let content_lines :=
    flat_map (fun page =>
      if (start_page <=? page_num page) && (page_num page <=? end_page)
      then (if str_truthy (page_text page) then [page_text page] else [])
      else []) pages in
  str_join (String newline EmptyString) content_lines.

(** The end page that [identify_sections] gives to an outline entry, from
    the entries that follow it ([toc[i+1:]]): only the entry right after it
    is looked at.  Subtracting from a page that is [None] is a TypeError. *)
Definition toc_end_page (total : Z) (section_level : Z)
    (later : list toc_entry) : exc Z :=
  match later with
  | next_entry :: _ =>
      if toc_level next_entry <=? section_level
      then match toc_page next_entry with
           | Some p => Ok (p - 1)
           | None => Raise TypeError
           end
      else Ok total
  | [] => Ok total
  end.

(** The loop of [identify_sections] over [enumerate(toc)]; [before] is
    [toc[:i]] and the list recursed on is [toc[i:]].  A start page that is
    [None] makes the page-range comparison of [_extract_section_content]
    raise as soon as there is a page to compare with; without pages the
    content is empty and no section is made. *)
Fixpoint sections_from_toc (pages : list page_data) (total : Z)
    (before : list toc_entry) (rest : list toc_entry) : exc (list Section) :=
  match rest with
  | [] => Ok []
  | entry :: later =>
      let section_title := toc_title entry in
      let section_level := toc_level entry in
      let! end_page := toc_end_page total section_level later in
      match toc_page entry with
      | None =>
          if truthy pages then Raise TypeError
          else sections_from_toc pages total (before ++ [entry]) later
      | Some start_page =>
          let section_content :=
            _extract_section_content pages start_page end_page
              section_title in
          let! more :=
            sections_from_toc pages total (before ++ [entry]) later in
          if str_truthy section_content
          then
            let parent_sections :=
              map toc_title
                  (List.filter (fun e => toc_level e <? section_level)
                     before) in
            Ok ({| sec_title := section_title;
                   sec_content := section_content;
                   page_start := start_page;
                   page_end := end_page;
                   level := section_level;
                   parent_sections := parent_sections |} :: more)
          else Ok more
      end
  end.

(** [identify_sections]; the pattern fallback used without an outline is a
    parameter, its regular expressions play no part below. *)
Definition identify_sections
    (_identify_sections_from_text : list page_data -> list Section)
    (data : extracted_data) : exc (list Section) :=
  if truthy (toc data)
  then sections_from_toc (pages data) (total_pages data) [] (toc data)
  else Ok (_identify_sections_from_text (pages data)).

(** The loop state of [_split_section_into_chunks]. *)
Record split_state : Type := {
  chunks : list string;
  current_chunk : list string;
  current_size : Z
}.

Definition split_step (max_chunk_size : Z) (st : split_state)
    (paragraph : string) : split_state :=
  let para_size := Z.of_nat (String.length paragraph) in
  if (current_size st + para_size >? max_chunk_size)
     && truthy (current_chunk st)
  then {| chunks := chunks st ++ [str_join para_sep (current_chunk st)];
          current_chunk := [paragraph];
          current_size := para_size |}
  else {| chunks := chunks st;
          current_chunk := current_chunk st ++ [paragraph];
          current_size := current_size st + para_size |}.

Definition _split_section_into_chunks (section : Section)
    (max_chunk_size : Z) : list string :=
  let content := sec_content section in
  if Z.of_nat (String.length content) <=? max_chunk_size then [content]
  else
    let paragraphs := split_paragraphs content in
    let st := fold_left (split_step max_chunk_size) paragraphs
                {| chunks := []; current_chunk := []; current_size := 0 |} in
    if truthy (current_chunk st)
    then chunks st ++ [str_join para_sep (current_chunk st)]
    else chunks st.

Definition default_max_chunk_size : Z := 1500.

Definition any_in (words : list string) (s : string) : bool :=
  existsb (fun word => str_contains word s) words.

Definition _determine_content_type (title : string) : string :=
  let title_lower := lower title in
  if any_in ["spell"; "magic"; "cantrip"] title_lower then "spell"
  else if any_in ["monster"; "creature"; "bestiary"] title_lower
  then "monster"
  else if any_in ["item"; "equipment"; "weapon"; "armor"] title_lower
  then "item"
  else if any_in ["rule"; "combat"; "action"; "mechanic"] title_lower
  then "rule"
  else "rule".

(** The id that [create_chunks] formats for piece [i] of a section. *)
Definition make_chunk_id (rulebook_name section_title : string) (i : nat)
  : string :=
  replace_spaces
    (rulebook_name +:+ "_" +:+ section_title +:+ "_" +:+ pretty i).

Definition create_chunks (F : pyfloat) (sections : list Section)
    (rulebook_name system_name : string) : list (ContentChunk F) :=
  flat_map (fun section =>
    let section_chunks :=
      _split_section_into_chunks section default_max_chunk_size in
    imap (fun i chunk_content =>
      {| chunk_id := make_chunk_id rulebook_name (sec_title section) i;
         rulebook := rulebook_name;
         system := system_name;
         content_type := _determine_content_type (sec_title section);
         chunk_title := sec_title section;
         chunk_content := chunk_content;
         page_number := page_start section;
         section_path := parent_sections section ++ [sec_title section];
         embedding := [];
         metadata :=
           {| section_level := level section;
              page_range :=
                pretty (page_start section) +:+ "-"
                  +:+ pretty (page_end section);
              chunk_index := i |};
         tables := None |}) section_chunks) sections.

(** ** embedding_service/embedding_service.py *)

(** The two NumPy operations that [similarity] calls on float vectors.
    NumPy does not fix the order in which it adds the products, so both
    are left open; [np_dot] is only called on vectors of one length. *)
Record numpy (F : pyfloat) : Type := {
  np_dot : list F -> list F -> F;          (* np.dot(vec1, vec2) *)
  np_linalg_norm : list F -> F             (* np.linalg.norm(vec) *)
}.

Arguments np_dot {F} _ _ _.
Arguments np_linalg_norm {F} _ _.

Section EmbeddingService.

Variable F : pyfloat.
Variable np : numpy F.

(** [_get_text_hash]: the MD5 digest of the text, used as cache key. *)
Variable _get_text_hash : string -> string.

(** The external model: [self.model.encode] on one text and on a list of
    texts, with [.tolist()] applied to each row.  Either call may raise. *)
Variable model_encode : string -> exc (list F).
Variable model_encode_batch : list string -> exc (list (list F)).

(** [self.cache_embeddings] *)
Variable cache_embeddings : bool.

(** [generate_embedding], threading [self.cache]. *)
Definition generate_embedding (cache : gmap string (list F)) (text : string)
  : list F * gmap string (list F) :=
  if is_blank text then ([], cache)
  else
    let text_hash := _get_text_hash text in
    match cache !! text_hash with
    | Some cached => (cached, cache)
    | None =>
        match model_encode (strip text) with
        | Ok embedding_list =>
            (embedding_list,
             if cache_embeddings then <[text_hash := embedding_list]> cache
             else cache)
        | Raise _ => ([], cache)
        end
    end.

(** State of the first loop of [batch_embed]; [None] is the placeholder
    of a text that still has to be sent to the model. *)
Record lookup_state : Type := {
  looked_up : list (option (list F));
  uncached_texts : list string;
  uncached_indices : list nat
}.

Definition lookup_step (cache : gmap string (list F)) (st : lookup_state)
    (it : nat * string) : lookup_state :=
  let '(i, text) := it in
  if is_blank text
  then {| looked_up := looked_up st ++ [Some []];
          uncached_texts := uncached_texts st;
          uncached_indices := uncached_indices st |}
  else
    match cache !! _get_text_hash text with
    | Some cached =>
        {| looked_up := looked_up st ++ [Some cached];
           uncached_texts := uncached_texts st;
           uncached_indices := uncached_indices st |}
    | None =>
        {| looked_up := looked_up st ++ [None];
           uncached_texts := uncached_texts st ++ [strip text];
           uncached_indices := uncached_indices st ++ [i] |}
    end.

(** [enumerate(l)] *)
Definition enumerate {A : Type} (l : list A) : list (nat * A) :=
  combine (seq 0 (length l)) l.

Definition lookup_all (cache : gmap string (list F)) (texts : list string)
  : lookup_state :=
  fold_left (lookup_step cache) (enumerate texts)
    {| looked_up := []; uncached_texts := []; uncached_indices := [] |}.

(** State of the second loop: the result list and the cache, both updated
    in place; what was written before an exception stays written. *)
Record embed_state : Type := {
  embeddings : list (option (list F));
  cache_of : gmap string (list F)
}.

(** The loop over [enumerate(batch_embeddings)], from row [j] on. *)
Fixpoint store_batch (batch_indices : list nat) (batch_texts : list string)
    (j : nat) (batch_embeddings : list (list F)) (st : embed_state)
  : embed_state * option pyerr :=
  match batch_embeddings with
  | [] => (st, None)
  | embedding_list :: more =>
      match batch_indices !! j with
      | None => (st, Some IndexError)
      | Some original_index =>
          if (original_index <? length (embeddings st))%nat
          then
            let written :=
              <[original_index := Some embedding_list]> (embeddings st) in
            if cache_embeddings
            then
              match batch_texts !! j with
              | None =>
                  ({| embeddings := written; cache_of := cache_of st |},
                   Some IndexError)
              | Some text =>
                  store_batch batch_indices batch_texts (S j) more
                    {| embeddings := written;
                       cache_of :=
                         <[_get_text_hash text := embedding_list]>
                           (cache_of st) |}
              end
            else
              store_batch batch_indices batch_texts (S j) more
                {| embeddings := written; cache_of := cache_of st |}
          else (st, Some IndexError)
      end
  end.

(** The loop over [range(0, len(uncached_texts), batch_size)]. *)
Fixpoint process_batches (uncached : lookup_state) (batch_size : nat)
    (starts : list nat) (st : embed_state) : embed_state * option pyerr :=
  match starts with
  | [] => (st, None)
  | i :: more =>
      let batch_texts := slice i batch_size (uncached_texts uncached) in
      let batch_indices := slice i batch_size (uncached_indices uncached) in
      match model_encode_batch batch_texts with
      | Raise e => (st, Some e)
      | Ok batch_embeddings =>
          match store_batch batch_indices batch_texts 0 batch_embeddings st with
          | (st', None) => process_batches uncached batch_size more st'
          | (st', Some e) => (st', Some e)
          end
      end
  end.

(** The [except] branch: every placeholder left becomes an empty vector. *)
Definition fill_placeholders (l : list (option (list F)))
  : list (option (list F)) :=
  map (fun emb => match emb with None => Some [] | Some v => Some v end) l.

(** [batch_embed]: the result list (an entry stays [None] only if the
    model returned fewer rows than it was given, or for a negative batch
    size) and the cache afterwards. *)
Definition batch_embed (cache : gmap string (list F)) (texts : list string)
    (batch_size : Z) : list (option (list F)) * gmap string (list F) :=
  if negb (truthy texts) then ([], cache)
  else
    let uncached := lookup_all cache texts in
    let st0 := {| embeddings := looked_up uncached; cache_of := cache |} in
    if truthy (uncached_texts uncached)
    then
      let '(st, raised) :=
        if batch_size =? 0 then (st0, Some ValueError)
        else if batch_size <? 0 then (st0, None)
        else process_batches uncached (Z.to_nat batch_size)
               (range_step (length (uncached_texts uncached))
                           (Z.to_nat batch_size)) st0 in
      match raised with
      | Some _ => (fill_placeholders (embeddings st), cache_of st)
      | None => (embeddings st, cache_of st)
      end
    else (looked_up uncached, cache).

Definition default_batch_size : Z := 32.

(** [similarity]: NumPy arithmetic.  [np.dot] raises ValueError on vectors
    of different lengths; dividing NumPy scalars never raises. *)
Definition similarity_body (embedding1 embedding2 : list F) : exc F :=
  if negb (length embedding1 =? length embedding2)%nat then Raise ValueError
  else
    let dot_product := np_dot np embedding1 embedding2 in
    let norm_vec1 := np_linalg_norm np embedding1 in
    let norm_vec2 := np_linalg_norm np embedding2 in
    if f_eqb norm_vec1 f_zero || f_eqb norm_vec2 f_zero then Ok f_zero
    else Ok (f_quot dot_product (f_mul norm_vec1 norm_vec2)).

Definition similarity (embedding1 embedding2 : list F) : F :=
  if negb (truthy embedding1) || negb (truthy embedding2) then f_zero
  else try_except (similarity_body embedding1 embedding2) f_zero.

End EmbeddingService.

Arguments looked_up {F} _.
Arguments uncached_texts {F} _.
Arguments uncached_indices {F} _.
Arguments embeddings {F} _.
Arguments cache_of {F} _.

(** ** redis_manager/redis_manager.py *)

(** [list.sort(key=key, reverse=True)] on keys that are numbers: a stable
    sort into descending key order that compares keys with [<] only, so
    that elements of equal keys keep the order they had.  Insertion from
    the right end computes it: an element goes in front of the first one
    whose key is not greater than its own.  The searches below sort keys
    that have passed a comparison with a threshold or with zero, which a
    NaN does not. *)
Fixpoint insert_desc {F : pyfloat} {A : Type} (key : A -> F) (x : A)
    (l : list A) : list A :=
  match l with
  | [] => [x]
  | y :: l' =>
      if f_ltb (key x) (key y) then y :: insert_desc key x l'
      else x :: y :: l'
  end.

Definition sort_desc {F : pyfloat} {A : Type} (key : A -> F) (l : list A)
  : list A :=
  fold_right (insert_desc key) [] l.

Section RedisManager.

Variable F : pyfloat.

(** The field mapping that [store_rulebook_content] writes under a chunk
    key; [h_data] stands for the JSON document of the chunk. *)
Record chunk_hash : Type := {
  h_data : ContentChunk F;
  h_rulebook : string;
  h_system : string;
  h_content_type : string;
  h_title : string
}.

(** A key of the store holds a hash or a set.  The store is modelled as
    far as rulebook content goes: the chunk hashes and the three families
    of index sets.  Campaign and personality records live under other
    prefixes, which neither the chunk scan nor an index name can match. *)
Inductive rvalue : Type :=
| RHash (h : chunk_hash)
| RSet (members : gset string).

Abbreviation redis := (gmap string rvalue).

Definition CHUNK_PREFIX : string := "chunk:".

(** The order in which the backend's SCAN yields a set of keys, and the
    order in which Python iterates over a [set] of strings.  Neither is
    specified; where a property needs them to enumerate the set, it says
    so. *)
Variable scan_order : gset string -> list string.
Variable set_order : gset string -> list string.

(** [hset(key, mapping=...)] and [sadd(name, member)]; a command on a key
    of the other type fails and leaves the store as it is. *)
Definition hset (st : redis) (key : string) (h : chunk_hash) : redis :=
  match st !! key with
  | Some (RSet _) => st
  | _ => <[key := RHash h]> st
  end.

Definition sadd (st : redis) (name member : string) : redis :=
  match st !! name with
  | Some (RHash _) => st
  | Some (RSet members) => <[name := RSet ({[member]} ∪ members)]> st
  | None => <[name := RSet {[member]}]> st
  end.

(** [smembers(name)] and [hget(key, "data")] followed by [json.loads]. *)
Definition smembers (st : redis) (name : string) : exc (gset string) :=
  match st !! name with
  | None => Ok ∅
  | Some (RSet members) => Ok members
  | Some (RHash _) => Raise ResponseError
  end.

Definition hget_data (st : redis) (key : string)
  : exc (option (ContentChunk F)) :=
  match st !! key with
  | None => Ok None
  | Some (RHash h) => Ok (Some (h_data h))
  | Some (RSet _) => Raise ResponseError
  end.

(** The keys matched by [scan_iter(match="chunk:*")]. *)
Definition chunk_keys (st : redis) : gset string :=
  filter (fun k => String.prefix CHUNK_PREFIX k = true) (dom st).

(** One chunk of [store_rulebook_content]: the hash, then the three index
    memberships. *)
Definition store_chunk (st : redis) (chunk : ContentChunk F) : redis :=
  let chunk_key := CHUNK_PREFIX +:+ chunk_id chunk in
  let chunk_data :=
    {| chunk_id := chunk_id chunk;
       rulebook := rulebook chunk;
       system := system chunk;
       content_type := content_type chunk;
       chunk_title := chunk_title chunk;
       chunk_content := chunk_content chunk;
       page_number := page_number chunk;
       section_path := section_path chunk;
       embedding := embedding chunk;
       metadata := metadata chunk;
       tables := Some (default [] (tables chunk)) |} in
  let st1 := hset st chunk_key
               {| h_data := chunk_data;
                  h_rulebook := rulebook chunk;
                  h_system := system chunk;
                  h_content_type := content_type chunk;
                  h_title := chunk_title chunk |} in
  let st2 := sadd st1 ("rulebook:" +:+ rulebook chunk) chunk_key in
  let st3 := sadd st2 ("system:" +:+ system chunk) chunk_key in
  sadd st3 ("content_type:" +:+ content_type chunk) chunk_key.

Definition store_rulebook_content (st : redis)
    (content : list (ContentChunk F)) : redis :=
  fold_left store_chunk content st.

(** One iteration of the filter loop of [_get_filtered_chunks]. *)
Definition apply_filter (st : redis) (result_keys : exc (gset string))
    (item : string * string) : exc (gset string) :=
  let '(filter_key, filter_value) := item in
  let! keys := result_keys in
  if String.eqb filter_key "rulebook" then
    let! filtered_keys := smembers st ("rulebook:" +:+ filter_value) in
    Ok (keys ∩ filtered_keys)
  else if String.eqb filter_key "system" then
    let! filtered_keys := smembers st ("system:" +:+ filter_value) in
    Ok (keys ∩ filtered_keys)
  else if String.eqb filter_key "content_type" then
    let! filtered_keys := smembers st ("content_type:" +:+ filter_value) in
    Ok (keys ∩ filtered_keys)
  else Ok keys.

(** [_get_filtered_chunks]; [filters] is [None] or the items of the
    dictionary. *)
Definition _get_filtered_chunks (st : redis)
    (filters : option (list (string * string))) : exc (list string) :=
  match filters with
  | None | Some [] => Ok (scan_order (chunk_keys st))
  | Some items =>
      let! result_keys :=
        fold_left (apply_filter st) items (Ok (chunk_keys st)) in
      Ok (set_order result_keys)
  end.

(** The [try] block of [_cosine_similarity]. *)
Definition cosine_body (vec1 vec2 : list F) : exc F :=
  let dot_product :=
    py_sum (map (fun ab => f_mul (fst ab) (snd ab)) (combine vec1 vec2)) in
  let magnitude1 := f_sqrt (py_sum (map (fun a => f_mul a a) vec1)) in
  let magnitude2 := f_sqrt (py_sum (map (fun b => f_mul b b) vec2)) in
  if f_eqb magnitude1 f_zero || f_eqb magnitude2 f_zero then Ok f_zero
  else py_div dot_product (f_mul magnitude1 magnitude2).

Definition _cosine_similarity (vec1 vec2 : list F) : F :=
  if negb (truthy vec1) || negb (truthy vec2)
     || negb (length vec1 =? length vec2)%nat
  then f_zero
  else try_except (cosine_body vec1 vec2) f_zero.

(** An entry of the [similarities] list of [vector_search]. *)
Definition scored : Type := string * ContentChunk F * F.

Definition scored_key (x : scored) : string := fst (fst x).
Definition scored_chunk (x : scored) : ContentChunk F := snd (fst x).
Definition scored_similarity (x : scored) : F := snd x.

(** The loop of [vector_search] over the candidate keys. *)
Fixpoint score_candidates (st : redis) (query_embedding : list F)
    (similarity_threshold : F) (keys : list string) : exc (list scored) :=
  match keys with
  | [] => Ok []
  | chunk_key :: more =>
      let! chunk_data := hget_data st chunk_key in
      let! rest :=
        score_candidates st query_embedding similarity_threshold more in
      match chunk_data with
      | Some chunk_dict =>
          let chunk_embedding := embedding chunk_dict in
          if truthy chunk_embedding then
            let similarity :=
              _cosine_similarity query_embedding chunk_embedding in
            if f_geb similarity similarity_threshold
            then Ok ((chunk_key, chunk_dict, similarity) :: rest)
            else Ok rest
          else Ok rest
      | None => Ok rest
      end
  end.

(** The [similarities] list of [vector_search] once sorted and cut. *)
Definition ranked_candidates (st : redis) (query_embedding : list F)
    (filters : option (list (string * string))) (max_results : Z)
    (similarity_threshold : F) : exc (list scored) :=
  let! keys := _get_filtered_chunks st filters in
  if negb (truthy keys) then Ok []
  else
    let! similarities :=
      score_candidates st query_embedding similarity_threshold keys in
    Ok (slice_to max_results (sort_desc scored_similarity similarities)).

Definition semantic_result (x : scored) : SearchResult F :=
  {| content_chunk := scored_chunk x;
     relevance_score := scored_similarity x;
     match_type := "semantic" |}.

Definition vector_search (st : redis) (query_embedding : list F)
    (filters : option (list (string * string))) (max_results : Z)
    (similarity_threshold : F) : list (SearchResult F) :=
  try_except
    (let! similarities :=
       ranked_candidates st query_embedding filters max_results
         similarity_threshold in
     Ok (map semantic_result similarities))
    [].

(** The score that [keyword_search] gives to a chunk. *)
Definition keyword_score (query_lower : string) (chunk_dict : ContentChunk F)
  : F :=
  let title_lower := lower (chunk_title chunk_dict) in
  let content_lower := lower (chunk_content chunk_dict) in
  let score := f_zero in
  let score :=
    if str_contains query_lower title_lower then f_add score f_one else score in
  if str_contains query_lower content_lower then f_add score f_half else score.

Fixpoint keyword_candidates (st : redis) (query_lower : string)
    (keys : list string) : exc (list (SearchResult F)) :=
  match keys with
  | [] => Ok []
  | chunk_key :: more =>
      let! chunk_data := hget_data st chunk_key in
      let! rest := keyword_candidates st query_lower more in
      match chunk_data with
      | Some chunk_dict =>
          let score := keyword_score query_lower chunk_dict in
          if f_gtb score f_zero
          then Ok ({| content_chunk := chunk_dict;
                      relevance_score := score;
                      match_type := "keyword" |} :: rest)
          else Ok rest
      | None => Ok rest
      end
  end.

Definition keyword_search (st : redis) (query : string)
    (filters : option (list (string * string))) : list (SearchResult F) :=
  try_except
    (let! keys := _get_filtered_chunks st filters in
     let! results := keyword_candidates st (lower query) keys in
     Ok (sort_desc relevance_score results))
    [].

End RedisManager.

Arguments RHash {F} h.
Arguments RSet {F} members.
Arguments h_data {F} _.
Arguments scored_key {F} x.
Arguments scored_chunk {F} x.
Arguments scored_similarity {F} x.

(** ** mcp_server/mcp_server.py *)

Section McpServer.

Variable F : pyfloat.
Variable _get_text_hash : string -> string.
Variable model_encode : string -> exc (list F).
Variable cache_embeddings : bool.
Variable scan_order : gset string -> list string.
Variable set_order : gset string -> list string.

(** [config.search] *)
Record SearchConfig : Type := {
  default_max_results : Z;
  similarity_threshold : F;
  enable_keyword_fallback : bool
}.

(** The arguments of a [search_rulebook] call; [None] is a missing key. *)
Record search_arguments : Type := {
  arg_query : option string;
  arg_rulebook : option string;
  arg_content_type : option string;
  arg_max_results : option Z
}.

(** The calls that the handler makes to the store, in order. *)
Inductive store_call : Type :=
| VectorSearchCall
| KeywordSearchCall.

Record search_outcome : Type := {
  calls : list store_call;
  vector_results : list (SearchResult F);
  keyword_results : list (SearchResult F);
  all_results : list (SearchResult F)
}.

(** [_handle_search_rulebook] up to the point where [all_results] is
    formatted into text; [None] is the "Query parameter is required"
    answer. *)
Definition _handle_search_rulebook (config : SearchConfig)
    (st : gmap string (rvalue F)) (cache : gmap string (list F))
    (arguments : search_arguments) : option search_outcome :=
  let query := default EmptyString (arg_query arguments) in
  let content_type := default "any"%string (arg_content_type arguments) in
  let max_results :=
    default (default_max_results config) (arg_max_results arguments) in
  if negb (str_truthy query) then None
  else
    let filters :=
      match arg_rulebook arguments with
      | Some rulebook =>
          if str_truthy rulebook then [("rulebook"%string, rulebook)] else []
      | None => []
      end in
    let filters :=
      if negb (String.eqb content_type "any")
      then filters ++ [("content_type"%string, content_type)]
      else filters in
    let query_embedding :=
      fst (generate_embedding F _get_text_hash model_encode cache_embeddings
             cache query) in
    let '(calls1, vector_results) :=
      if truthy query_embedding
      then ([VectorSearchCall],
            vector_search F scan_order set_order st query_embedding
              (Some filters) max_results (similarity_threshold config))
      else ([], []) in
    let '(calls2, keyword_results) :=
      if enable_keyword_fallback config && negb (truthy vector_results)
      then (calls1 ++ [KeywordSearchCall],
            slice_to max_results
              (keyword_search F scan_order set_order st query (Some filters)))
      else (calls1, []) in
    Some {| calls := calls2;
            vector_results := vector_results;
            keyword_results := keyword_results;
            all_results := vector_results ++ keyword_results |}.

End McpServer.

Arguments calls {F} _.
Arguments vector_results {F} _.
Arguments keyword_results {F} _.
Arguments all_results {F} _.

(** ** Reference definitions and example inputs *)

(** The end page as the specification words it: the start page of the
    first later outline entry whose level is at most the entry's own,
    minus one, or the last page of the document when there is none.
    [None] when that entry has no page. *)
Fixpoint spec_end_page (total : Z) (section_level : Z)
    (later : list toc_entry) : option Z :=
  match later with
  | [] => Some total
  | e :: more =>
      if toc_level e <=? section_level
      then option_map (fun p => p - 1) (toc_page e)
      else spec_end_page total section_level more
  end.

(** Dot product, magnitude and cosine similarity of two vectors. *)
Definition dot {F : pyfloat} (v1 v2 : list F) : F :=
  py_sum (map (fun ab => f_mul (fst ab) (snd ab)) (combine v1 v2)).

Definition magnitude {F : pyfloat} (v : list F) : F :=
  f_sqrt (py_sum (map (fun a => f_mul a a) v)).

Definition cosine {F : pyfloat} (v1 v2 : list F) : F :=
  f_quot (dot v1 v2) (f_mul (magnitude v1) (magnitude v2)).

(** NumPy adding from left to right: one of the orders it may take, and
    on the reals the only result. *)
Definition numpy_sequential (F : pyfloat) : numpy F :=
  {| np_dot := dot; np_linalg_norm := magnitude |}.

(** [n] copies of a character. *)
Fixpoint repeat_char (c : ascii) (n : nat) : string :=
  match n with
  | O => EmptyString
  | S n' => String c (repeat_char c n')
  end.

Definition section_of (title body : string) : Section :=
  {| sec_title := title;
     sec_content := body;
     page_start := 1;
     page_end := 1;
     level := 0;
     parent_sections := [] |}.

(** Two paragraphs of 750 characters and a third of one character. *)
Definition two_long_paragraphs : Section :=
  section_of "Combat"
    (repeat_char "a" 750 +:+ para_sep +:+ repeat_char "b" 750
       +:+ para_sep +:+ "c").

(** The normalisation of whitespace as the specification words it for
    chunk ids: no whitespace character is left in the id. *)
Definition whitespace_normalized (id : string) : Prop :=
  forall ch, In ch (list_ascii_of_string id) -> py_isspace ch = false.

(** A section whose title holds a tab between its two words. *)
Definition tab : ascii := Ascii.ascii_of_nat 9.

Definition tabbed_section : Section :=
  section_of ("Magic" +:+ String tab "Items") "Wands and rings.".

(** The number of pieces that [create_chunks] cuts a section into. *)
Definition piece_count (section : Section) : nat :=
  length (_split_section_into_chunks section default_max_chunk_size).

(** An outline with a chapter, a subsection of it, and a second chapter,
    over a document of ten pages. *)
Definition nested_toc : list toc_entry :=
  [ {| toc_title := "Combat"; toc_page := Some 1; toc_level := 0 |};
    {| toc_title := "Attack Rolls"; toc_page := Some 2; toc_level := 1 |};
    {| toc_title := "Magic"; toc_page := Some 5; toc_level := 0 |} ].

Definition ten_pages : list page_data :=
  map (fun n => {| page_num := Z.of_nat n;
                   page_text := "page " +:+ pretty n;
                   page_tables := [] |}) (seq 1 10).

Definition nested_document : extracted_data :=
  {| pages := ten_pages; toc := nested_toc; total_pages := 10 |}.

(** [x] occurs before [y] in [l]. *)
Definition before {A : Type} (x y : A) (l : list A) : Prop :=
  exists l1 l2 l3, l = l1 ++ x :: l2 ++ y :: l3.

(** An enumeration order lists exactly the elements of the set. *)
Definition enumerates (order : gset string -> list string) : Prop :=
  forall (X : gset string) (k : string), In k (order X) <-> k ∈ X.

(** What [store_rulebook_content] maintains: hashes live under the chunk
    prefix, sets do not, and every member of a set is the key of a stored
    chunk. *)
Record store_inv {F : pyfloat} (st : gmap string (rvalue F)) : Prop := {
  inv_hash : forall k h,
    st !! k = Some (RHash h) -> String.prefix CHUNK_PREFIX k = true;
  inv_set : forall k s,
    st !! k = Some (RSet s) -> String.prefix CHUNK_PREFIX k = false;
  inv_members : forall name s m,
    st !! name = Some (RSet s) -> m ∈ s -> exists h, st !! m = Some (RHash h)
}.

(** The index set of a dimension ("rulebook", "system", "content_type")
    and a value: the members of the set named [dimension:value]. *)
Definition index_members {F : pyfloat} (st : gmap string (rvalue F))
    (dimension value : string) : gset string :=
  match st !! (dimension +:+ ":" +:+ value) with
  | Some (RSet members) => members
  | _ => ∅
  end.

Definition dimensions : list string := ["rulebook"; "system"; "content_type"].

(** The second half of the ranking rule as the specification words it:
    of two results with equal scores, the one listed first has the
    smaller chunk id. *)
Definition ties_ascending_by_id {F : pyfloat} (results : list (SearchResult F))
  : Prop :=
  forall r1 r2,
    before r1 r2 results ->
    f_eqb (relevance_score r1) (relevance_score r2) = true ->
    String.leb (chunk_id (content_chunk r1)) (chunk_id (content_chunk r2))
      = true.

(** An enumeration order that yields the keys of [first] first, in that
    order, and then the remaining ones. *)
Definition keys_first (first : list string) (X : gset string) : list string :=
  List.filter (fun k => bool_decide (k ∈ X)) first
  ++ List.filter (fun k => negb (bool_decide (k ∈ first))) (elements X).

(** A chunk as ingestion would store it, with a given vector. *)
Definition example_chunk (id book sys title body : string)
    (vector : list binary64) : ContentChunk binary64 :=
  {| chunk_id := id;
     rulebook := book;
     system := sys;
     content_type := "rule";
     chunk_title := title;
     chunk_content := body;
     page_number := 1;
     section_path := [title];
     embedding := vector;
     metadata :=
       {| section_level := 0; page_range := "1-1"; chunk_index := 0 |};
     tables := None |}.

(** Two chunks with the same vector. *)
Definition tie_store : gmap string (rvalue binary64) :=
  store_rulebook_content binary64 ∅
    [ example_chunk "a" "Book" "S1" "Alpha" "first" [1%float; 0%float];
      example_chunk "b" "Book" "S1" "Beta" "second" [1%float; 0%float] ].

(** The store of the filter example: A and B in document X, C in Y;
    A and C in system S1, B in S2.  B's vector has three components. *)
Definition abc_store : gmap string (rvalue binary64) :=
  store_rulebook_content binary64 ∅
    [ example_chunk "A" "X" "S1" "Fireball" "a spell" [1%float; 0%float];
      example_chunk "B" "X" "S2" "Dragon" "a monster"
        [1%float; 0%float; 0%float];
      example_chunk "C" "Y" "S1" "Sword" "an item" [0%float; 1%float] ].

(** The default similarity threshold 0.7, as the binary64 number that
    Python reads it as. *)
Definition default_similarity_threshold : binary64 :=
  0x1.6666666666666p-1%float.

Definition unit_query : list binary64 := [1%float; 0%float].

(** The store enumerating "chunk:b" before "chunk:a". *)
Definition b_then_a : gset string -> list string :=
  keys_first ["chunk:b"; "chunk:a"].

(** The activation rule of the keyword fallback as the specification words
    it: keyword search runs only after vector search was attempted and
    came back empty, with the fallback enabled. *)
Definition keyword_only_after_empty_vector_search {F : pyfloat}
    (fallback_enabled : bool) (outcome : search_outcome F) : Prop :=
  In KeywordSearchCall (calls outcome) ->
  In VectorSearchCall (calls outcome)
  /\ vector_results outcome = []
  /\ fallback_enabled = true.

(** A configuration with the default values, and a model that embeds
    every text as the unit vector. *)
Definition default_search_config : SearchConfig binary64 :=
  {| default_max_results := 5;
     similarity_threshold := default_similarity_threshold;
     enable_keyword_fallback := true |}.

Definition unit_model (text : string) : exc (list binary64) := Ok unit_query.

Definition query_arguments (query : string) : search_arguments :=
  {| arg_query := Some query;
     arg_rulebook := None;
     arg_content_type := None;
     arg_max_results := None |}.

(** The handler on the example store, with an empty embedding cache. *)
Definition example_search (query : string) : option (search_outcome binary64) :=
  _handle_search_rulebook binary64 (fun text => text) unit_model true
    elements elements default_search_config abc_store ∅
    (query_arguments query).

(** A model that embeds each text on its own: [enc text] is the vector,
    or [None] when the text makes the model fail.  Its batch call fails
    as soon as one text of the batch does. *)
Definition encode_all {F : pyfloat} (enc : string -> option (list F))
    (batch : list string) : exc (list (list F)) :=
  match mapM enc batch with
  | Some vectors => Ok vectors
  | None => Raise ValueError
  end.

(** A text that [batch_embed] has to send to the model: not blank and not
    in the cache. *)
Definition is_pending {F : pyfloat} (_get_text_hash : string -> string)
    (cache : gmap string (list F)) (text : string) : bool :=
  negb (is_blank text)
  && match cache !! _get_text_hash text with
     | None => true
     | Some _ => false
     end.

(** The entry that the first loop of [batch_embed] writes for a text:
    an empty vector for a blank text, the cached vector if there is one,
    and the placeholder [None] otherwise. *)
Definition cached_slot {F : pyfloat} (_get_text_hash : string -> string)
    (cache : gmap string (list F)) (text : string) : option (list F) :=
  if is_blank text then Some [] else cache !! _get_text_hash text.

(** The pending texts of a call, with their positions in the input. *)
Definition pending_items {F : pyfloat} (_get_text_hash : string -> string)
    (cache : gmap string (list F)) (texts : list string)
  : list (nat * string) :=
  List.filter (fun it => is_pending _get_text_hash cache (snd it))
    (enumerate texts).

(** The model succeeds on batch number [k] of the texts sent to it. *)
Definition batch_ok {F : pyfloat} (enc : string -> option (list F))
    (sent : list string) (batch_size : nat) (k : nat) : Prop :=
  forall t, In t (slice (k * batch_size) batch_size sent) -> enc t <> None.

(** The result list of [batch_embed] once the batches before number [k]
    are written: [initial] is the list after the cache lookups, and the
    pending texts sit at [pending_indices]. *)
Definition written_before {F : pyfloat} (enc : string -> option (list F))
    (pending_indices : list nat) (pending_texts : list string)
    (batch_size : nat) (initial : list (option (list F)))
    (k : nat) (E : list (option (list F))) : Prop :=
  length E = length initial
  /\ (forall p i t,
        pending_indices !! p = Some i -> pending_texts !! p = Some t ->
        ((p < k * batch_size)%nat -> enc t <> None /\ E !! i = Some (enc t))
        /\ ((k * batch_size <= p)%nat -> E !! i = Some None))
  /\ (forall i, ~ In i pending_indices -> E !! i = initial !! i).

(** Per-item isolation as the specification words it: whatever happens
    to the other texts, a pending text gets its own embedding when the
    model can embed it, and an empty vector when it cannot. *)
Definition per_item_isolation {F : pyfloat} (_get_text_hash : string -> string)
    (enc : string -> option (list F)) (cache : gmap string (list F))
    (texts : list string) (out : list (option (list F))) : Prop :=
  length out = length texts
  /\ forall i text,
       texts !! i = Some text ->
       is_pending _get_text_hash cache text = true ->
       out !! i = Some (Some (default [] (enc (strip text)))).

(** A model that fails on the text "bad" and embeds every other text as
    the unit vector. *)
Definition picky_model (text : string) : option (list binary64) :=
  if String.eqb text "bad" then None else Some unit_query.

(** The paragraphs of the chunks, for stating what the splitting loop
    guarantees: the same loop as [split_step], keeping each chunk as the
    list of its paragraphs. *)
Record group_state : Type := {
  groups : list (list string);
  open_group : list string
}.

Definition paragraphs_length (g : list string) : Z :=
  fold_right (fun p acc => Z.of_nat (String.length p) + acc) 0 g.

Definition group_step (max_chunk_size : Z) (gs : group_state)
    (paragraph : string) : group_state :=
  if (paragraphs_length (open_group gs) + Z.of_nat (String.length paragraph)
      >? max_chunk_size)
     && truthy (open_group gs)
  then {| groups := groups gs ++ [open_group gs]; open_group := [paragraph] |}
  else {| groups := groups gs; open_group := open_group gs ++ [paragraph] |}.

Definition split_groups (max_chunk_size : Z) (paragraphs : list string)
  : list (list string) :=
  let gs := fold_left (group_step max_chunk_size) paragraphs
              {| groups := []; open_group := [] |} in
  if truthy (open_group gs) then groups gs ++ [open_group gs] else groups gs.

(** ** Further functions of the sources

    The functions below complete the picture around the ones above: the
    rest of the embedding service, the fallback for documents without
    an outline, table processing, the statistics and the campaign data
    of the store.  Each comes with the definitions that its properties
    are stated with. *)

(** *** [find_most_similar] and [cleanup_cache] *)



(** [l[k:]] for a Python integer [k]: a negative bound counts from the
    end. *)
Definition slice_from {A : Type} (k : Z) (l : list A) : list A :=
  if k <? 0 then skipn (Z.to_nat (Z.of_nat (length l) + k)) l
  else skipn (Z.to_nat k) l.

(** [cleanup_cache]; the cache dictionary is given by its items in
    insertion order, which is the order [list(self.cache.items())] yields.
    [-max_size//2] is the floor of [(-max_size) / 2]. *)
Definition cleanup_cache {F : pyfloat} (cache_items : list (string * list F))
    (max_size : Z) : list (string * list F) :=
  if Z.of_nat (length cache_items) >? max_size
  then slice_from ((- max_size) / 2) cache_items
  else cache_items.

Definition default_cache_max_size : Z := 10000.

(** *** Orders on numbers and on results *)

(** What a best-first ranking relies on.  A value that compares as at or
    above another, or as strictly above another, is a number (it equals
    itself, which a NaN does not); [<] is asymmetric; and on numbers "not
    less than" is transitive.  All four hold on binary64 and on the
    reals. *)
Record orders_numbers (F : pyfloat) : Prop := {
  ge_is_number : forall a b : F, f_geb a b = true -> f_eqb a a = true;
  gt_is_number : forall a b : F, f_gtb a b = true -> f_eqb a a = true;
  lt_asymmetric : forall a b : F, f_ltb a b = true -> f_ltb b a = false;
  not_lt_transitive : forall a b c : F,
    f_eqb a a = true -> f_eqb b b = true -> f_eqb c c = true ->
    f_ltb a b = false -> f_ltb b c = false -> f_ltb a c = false
}.

(** The scores of a result list from first to last never increase. *)
Definition best_first {F : pyfloat} (results : list (SearchResult F)) : Prop :=
  StronglySorted (fun a b : F => f_ltb a b = false)
    (map relevance_score results).

(** Case analysis on every comparison of exponents and mantissas in
    sight. *)
Ltac compare_cases :=
  repeat match goal with
  | H : context [Pos.compare_cont Eq ?a ?b] |- _ =>
      change (Pos.compare_cont Eq a b) with (Pos.compare a b) in H
  | |- context [Pos.compare_cont Eq ?a ?b] =>
      change (Pos.compare_cont Eq a b) with (Pos.compare a b)
  end;
  repeat match goal with
  | H : context [Z.compare ?a ?b] |- _ =>
      destruct (Z.compare_spec a b)
  | |- context [Z.compare ?a ?b] =>
      destruct (Z.compare_spec a b)
  | H : context [Pos.compare ?a ?b] |- _ =>
      destruct (Pos.compare_spec a b)
  | |- context [Pos.compare ?a ?b] =>
      destruct (Pos.compare_spec a b)
  end.

(** *** What storing adds *)

(** A store holds at least what another one holds: a key of a chunk is
    still the key of a chunk, and a set is still a set, with at least the
    same members. *)
Definition store_extends {F : pyfloat} (st st' : gmap string (rvalue F))
  : Prop :=
  forall k,
    match st !! k with
    | Some (RHash _) => exists h', st' !! k = Some (RHash h')
    | Some (RSet members) =>
        exists members', st' !! k = Some (RSet members')
                         /\ members ⊆ members'
    | None => True
    end.

(** A chunk as [store_rulebook_content] serialises it: a chunk without
    tables is written with the empty list of tables. *)
Definition stored_form {F : pyfloat} (chunk : ContentChunk F)
  : ContentChunk F :=
  {| chunk_id := chunk_id chunk;
     rulebook := rulebook chunk;
     system := system chunk;
     content_type := content_type chunk;
     chunk_title := chunk_title chunk;
     chunk_content := chunk_content chunk;
     page_number := page_number chunk;
     section_path := section_path chunk;
     embedding := embedding chunk;
     metadata := metadata chunk;
     tables := Some (default [] (tables chunk)) |}.

(** The filters that a chunk passes: each one names one of the three
    indexed fields with the chunk's own value. *)
Definition matches_filters {F : pyfloat} (chunk : ContentChunk F)
    (items : list (string * string)) : Prop :=
  forall d v, In (d, v) items ->
    (d = "rulebook"%string /\ v = rulebook chunk)
    \/ (d = "system"%string /\ v = system chunk)
    \/ (d = "content_type"%string /\ v = content_type chunk).

(** The three scores that [keyword_search] can give to a match are
    greater than 0, as they are on binary64: 1.0, 1.5 and 0.5. *)
Definition keyword_scores_positive (F : pyfloat) : Prop :=
  f_gtb (f_add (f_zero : F) f_one) f_zero = true
  /\ f_gtb (f_add (f_add (f_zero : F) f_one) f_half) f_zero = true
  /\ f_gtb (f_add (f_zero : F) f_half) f_zero = true.

(** The filters that [_get_filtered_chunks] acts on. *)
Definition known_filter (item : string * string) : bool :=
  String.eqb (fst item) "rulebook" || String.eqb (fst item) "system"
  || String.eqb (fst item) "content_type".

(** *** Writes to the embedding cache *)

(** How a call may change the embedding cache: a key either keeps what it
    had, or is, with caching on, the hash of one of the texts sent to the
    model and holds a vector afterwards. *)
Definition cache_written_at {F : pyfloat} (cache_embeddings : bool)
    (_get_text_hash : string -> string) (sent : list string)
    (cache cache' : gmap string (list F)) : Prop :=
  forall k,
    cache' !! k = cache !! k
    \/ (cache_embeddings = true
        /\ (exists text, In text sent /\ k = _get_text_hash text)
        /\ is_Some (cache' !! k)).


(** *** [_identify_sections_from_text] *)

(** [text.split("\n")] *)
Fixpoint split_lines_go (cur : string) (s : string) : list string :=
  match s with
  | EmptyString => [String.rev cur]
  | String c rest =>
      if Ascii.eqb c newline
      then String.rev cur :: split_lines_go EmptyString rest
      else split_lines_go (String c cur) rest
  end.

Definition split_lines (s : string) : list string :=
  split_lines_go EmptyString s.

(** The character classes [\d] and [A-Z] (code points below 256); [\s] is
    [py_isspace]. *)
Definition is_digit (c : ascii) : bool :=
  let n := Ascii.nat_of_ascii c in ((48 <=? n) && (n <=? 57))%nat.

Definition is_upper (c : ascii) : bool :=
  let n := Ascii.nat_of_ascii c in ((65 <=? n) && (n <=? 90))%nat.

(** What is left of [s] after the literal [p], after [\s+] and after
    [\d+]; [None] when [s] does not start that way.  The two classes are
    greedy, and giving characters back never helps the patterns below,
    since the next thing they ask for is outside the class. *)
Fixpoint after_literal (p s : string) : option string :=
  match p with
  | EmptyString => Some s
  | String a p' =>
      match s with
      | String b s' => if Ascii.eqb a b then after_literal p' s' else None
      | EmptyString => None
      end
  end.

Definition after_spaces (s : string) : option string :=
  match s with
  | String c _ => if py_isspace c then Some (lstrip s) else None
  | EmptyString => None
  end.

Fixpoint skip_digits (s : string) : string :=
  match s with
  | String c rest => if is_digit c then skip_digits rest else s
  | EmptyString => EmptyString
  end.

Definition after_digits (s : string) : option string :=
  match s with
  | String c _ => if is_digit c then Some (skip_digits s) else None
  | EmptyString => None
  end.

Definition starts_with (class : ascii -> bool) (s : string) : bool :=
  match s with
  | String c _ => class c
  | EmptyString => false
  end.

(** [^(Chapter\s+\d+[\.\:]?\s*.*?)$], and the same with [CHAPTER]: on a
    line (a string without newline) whatever follows the digits matches. *)
Definition chapter_heading (word line : string) : bool :=
  match after_literal word line with
  | Some rest =>
      match after_spaces rest with
      | Some rest' => starts_with is_digit rest'
      | None => false
      end
  | None => false
  end.

(** [^([A-Z][A-Z\s]{3,}?)$] *)
Definition caps_heading (line : string) : bool :=
  match line with
  | String c rest =>
      is_upper c && (3 <=? String.length rest)%nat
      && forallb (fun c' => is_upper c' || py_isspace c')
           (list_ascii_of_string rest)
  | EmptyString => false
  end.

(** [^(\d+\.\s+[A-Z].*?)$] *)
Definition numbered_heading (line : string) : bool :=
  match after_digits line with
  | Some (String dot rest) =>
      Ascii.eqb dot "."
      && match after_spaces rest with
         | Some rest' => starts_with is_upper rest'
         | None => false
         end
  | _ => false
  end.

(** [any(re.match(pattern, line) for pattern in heading_patterns)] *)
Definition is_heading (line : string) : bool :=
  chapter_heading "Chapter" line || chapter_heading "CHAPTER" line
  || caps_heading line || numbered_heading line.

(** The loop state of [_identify_sections_from_text]. *)
Record text_state : Type := {
  found_sections : list Section;
  current_section : option Section;
  current_content : list string
}.

(** [if current_section and current_content:] followed by the two
    statements that save the section. *)
Definition save_section (st : text_state) : list Section :=
  match current_section st with
  | Some section =>
      if truthy (current_content st)
      then found_sections st
           ++ [ {| sec_title := sec_title section;
                   sec_content :=
                     str_join (String newline EmptyString)
                       (current_content st);
                   page_start := page_start section;
                   page_end := page_end section;
                   level := level section;
                   parent_sections := parent_sections section |} ]
      else found_sections st
  | None => found_sections st
  end.

(** The body of the loop over the lines of a page. *)
Definition line_step (page_number : Z) (st : text_state) (line : string)
  : text_state :=
  let line := strip line in
  if negb (str_truthy line) then st
  else if is_heading line
  then {| found_sections := save_section st;
          current_section :=
            Some {| sec_title := line;
                    sec_content := EmptyString;
                    page_start := page_number;
                    page_end := page_number;
                    level := 1;
                    parent_sections := [] |};
          current_content := [] |}
  else
    match current_section st with
    | Some section =>
        {| found_sections := found_sections st;
           current_section :=
             Some {| sec_title := sec_title section;
                     sec_content := sec_content section;
                     page_start := page_start section;
                     page_end := page_number;
                     level := level section;
                     parent_sections := parent_sections section |};
           current_content := current_content st ++ [line] |}
    | None => st
    end.

Definition page_step (st : text_state) (page : page_data) : text_state :=
  fold_left (line_step (page_num page)) (split_lines (page_text page)) st.

Definition _identify_sections_from_text (pages : list page_data)
  : list Section :=
  save_section
    (fold_left page_step pages
       {| found_sections := []; current_section := None;
          current_content := [] |}).

(** The lines that the loop looks at: the stripped lines of the pages
    that are not empty, each with the number of its page. *)
Definition text_lines (pages : list page_data) : list (Z * string) :=
  flat_map (fun page =>
    flat_map (fun line =>
      if str_truthy (strip line) then [(page_num page, strip line)] else [])
      (split_lines (page_text page))) pages.

(** A short document without outline: a preamble, two headings in a row
    and one paragraph. *)
Definition plain_pages : list page_data :=
  [ {| page_num := 1;
       page_text := "A game of dice" +:+ String newline "CHAPTER 1: Basics";
       page_tables := [] |};
    {| page_num := 2;
       page_text := "COMBAT" +:+ String newline "  Roll a die.  "
                      +:+ String newline "Add your bonus.";
       page_tables := [] |} ].

(** The raw lines of the pages in reading order, each with the number
    of its page. *)
Definition numbered_lines (pages : list page_data) : list (Z * string) :=
  flat_map (fun page =>
    map (fun line => (page_num page, line)) (split_lines (page_text page)))
    pages.

(** A heading line of the document with the lines that follow it up to
    the next heading; every line comes with the number of its page. *)
Record text_block : Type := {
  block_heading : Z * string;
  block_body : list (Z * string)
}.

Definition block_lines (block : text_block) : list (Z * string) :=
  block_heading block :: block_body block.

(** The section that a block stands for: none when no line follows the
    heading; otherwise it starts on the page of the heading and ends on
    the page of the last line. *)
Definition block_sections (block : text_block) : list Section :=
  if truthy (block_body block)
  then [ {| sec_title := snd (block_heading block);
            sec_content :=
              str_join (String newline EmptyString)
                (map snd (block_body block));
            page_start := fst (block_heading block);
            page_end :=
              fst (List.last (block_body block) (block_heading block));
            level := 1;
            parent_sections := [] |} ]
  else [].

(** [lines] cut at its headings: the lines before the first heading, then
    one block for each heading line.  A list of lines is cut in one way
    only. *)
Definition cut_at_headings (lines preamble : list (Z * string))
    (blocks : list text_block) : Prop :=
  lines = preamble ++ flat_map block_lines blocks
  /\ Forall (fun nl => is_heading (snd nl) = false) preamble
  /\ Forall (fun block =>
       is_heading (snd (block_heading block)) = true
       /\ Forall (fun nl => is_heading (snd nl) = false) (block_body block))
      blocks.

(** What a raw line of page [n] adds to the lines that the loop looks
    at. *)
Definition stripped_line (n : Z) (line : string) : list (Z * string) :=
  if str_truthy (strip line) then [(n, strip line)] else [].

(** The invariant of the loop of [_identify_sections_from_text], for the
    lines seen so far: the last block is the section in progress. *)
Definition text_state_inv (lines : list (Z * string)) (st : text_state)
  : Prop :=
  match current_section st with
  | Some section =>
      exists preamble blocks heading body,
        cut_at_headings lines preamble
          (blocks ++ [ {| block_heading := heading; block_body := body |} ])
        /\ found_sections st = flat_map block_sections blocks
        /\ current_content st = map snd body
        /\ section = {| sec_title := snd heading;
                        sec_content := EmptyString;
                        page_start := fst heading;
                        page_end := fst (List.last body heading);
                        level := 1;
                        parent_sections := [] |}
  | None =>
      found_sections st = []
      /\ Forall (fun nl => is_heading (snd nl) = false) lines
  end.

(** The page range of the section in progress lies below a page number,
    and so do the page ranges of the sections found. *)
Definition pages_in_order (bound : Z) (st : text_state) : Prop :=
  Forall (fun section => page_start section <= page_end section)
    (found_sections st)
  /\ match current_section st with
     | Some section =>
         page_start section <= page_end section
         /\ page_end section <= bound
     | None => True
     end.


(** *** [_process_tables] *)

(** [cell or default] and [cell and cell.strip()] on a cell of an
    extracted table, which is a string or [None]. *)
Definition cell_or (cell : option string) (default_text : string) : string :=
  match cell with
  | Some text => if str_truthy text then text else default_text
  | None => default_text
  end.

Definition cell_has_text (cell : option string) : bool :=
  match cell with
  | Some text => negb (is_blank text)
  | None => false
  end.

(** The body of the loop of [_process_tables] for the table at index [i]:
    the table it appends, with the [table_index] of its metadata, or
    nothing. *)
Definition process_table (page_number : Z) (i : nat)
    (table : list (list (option string))) : list (nat * Table) :=
  if negb (truthy table) || (length table <? 2)%nat then []
  else
    match table with
    | [] => []
    | header_row :: data_rows =>
        let headers :=
          imap (fun j cell =>
                  cell_or cell ("Column " +:+ pretty (j + 1)%nat))
               header_row in
        let rows :=
          map (map (fun cell => cell_or cell EmptyString))
              (List.filter (existsb cell_has_text) data_rows) in
        if truthy rows
        then [ (i, {| table_title :=
                        "Table " +:+ pretty (i + 1)%nat +:+ " (Page "
                          +:+ pretty page_number +:+ ")";
                      headers := headers;
                      rows := rows;
                      table_page := page_number |}) ]
        else []
    end.

Definition _process_tables (tables : list (list (list (option string))))
    (page_number : Z) : list (nat * Table) :=
  flat_map (fun it => process_table page_number (fst it) (snd it))
    (enumerate tables).


(** *** [get_rulebook_stats] *)

Section RulebookStats.

Variable F : pyfloat.
Variable scan_order : gset string -> list string.

(** The [stats] dictionary. *)
Record rulebook_stats : Type := {
  total_chunks : nat;
  stat_rulebooks : gmap string nat;
  stat_systems : gmap string nat;
  stat_content_types : gmap string nat
}.

(** [hgetall(key)]: the fields of a hash, the empty dictionary ([None])
    for a key that does not exist, an error for a key that holds a set. *)
Definition hgetall (st : gmap string (rvalue F)) (key : string)
  : exc (option (chunk_hash F)) :=
  match st !! key with
  | None => Ok None
  | Some (RHash h) => Ok (Some h)
  | Some (RSet _) => Raise ResponseError
  end.

(** [counts[value] = counts.get(value, 0) + 1] *)
Definition count_one (counts : gmap string nat) (value : string)
  : gmap string nat :=
  <[value := (default 0 (counts !! value) + 1)%nat]> counts.

Definition stats_step (st : gmap string (rvalue F))
    (acc : exc rulebook_stats) (key : string) : exc rulebook_stats :=
  let! stats := acc in
  let! data := hgetall st key in
  match data with
  | Some h =>
      Ok {| total_chunks := total_chunks stats;
            stat_rulebooks :=
              count_one (stat_rulebooks stats) (h_rulebook F h);
            stat_systems := count_one (stat_systems stats) (h_system F h);
            stat_content_types :=
              count_one (stat_content_types stats) (h_content_type F h) |}
  | None => Ok stats
  end.

(** [get_rulebook_stats]; [None] is the empty dictionary that the
    [except] branch returns. *)
Definition get_rulebook_stats (st : gmap string (rvalue F))
  : option rulebook_stats :=
  let chunk_keys := scan_order (chunk_keys F st) in
  match fold_left (stats_step st) chunk_keys
          (Ok {| total_chunks := length chunk_keys;
                 stat_rulebooks := ∅;
                 stat_systems := ∅;
                 stat_content_types := ∅ |}) with
  | Ok stats => Some stats
  | Raise _ => None
  end.

End RulebookStats.

(** The number of keys of a list under which a chunk is stored whose
    field has a given value. *)
Definition chunks_with {F : pyfloat} (st : gmap string (rvalue F))
    (field : chunk_hash F -> string) (value : string) (keys : list string)
  : nat :=
  length (List.filter (fun key =>
            match st !! key with
            | Some (RHash h) => String.eqb (field h) value
            | _ => false
            end) keys).

(** A count as the statistics report it: a value that was never counted
    has no entry. *)
Definition reported (n : nat) : option nat :=
  match n with
  | O => None
  | S _ => Some n
  end.


(** *** Campaign data *)

Section CampaignData.

(** The dictionaries that callers pass as [data] and that are kept as
    [content].  Only what the code reads of them is fixed: the entries
    "name" (a string) and "tags" (a list of strings), when present, and
    [dict.update].  [json.loads] gives back what [json.dumps] was given. *)
Variable dict : Type.
Variable dict_name : dict -> option string.
Variable dict_tags : dict -> option (list string).
Variable dict_update : dict -> dict -> dict.

(** [datetime.now().isoformat()] *)
Variable timestamp : Type.

(** The order in which Python iterates over the set that [smembers]
    returns. *)
Variable set_order : gset string -> list string.

(** The fields of the hash of a campaign record; [version] is written as
    a number and read back as its decimal string. *)
Record campaign_hash : Type := {
  c_id : string;
  c_campaign_id : string;
  c_data_type : string;
  c_name : string;
  c_content : dict;
  c_created_at : timestamp;
  c_updated_at : timestamp;
  c_version : Z;
  c_tags : list string
}.

(** The part of the store that campaign data lives in: the record hashes
    under "campaign:" and the index sets under "campaign_index:" and
    "campaign_type:", none of which is a name of the rulebook part. *)
Inductive cvalue : Type :=
| CHash (h : campaign_hash)
| CSet (members : gset string).

Abbreviation campaign_store := (gmap string cvalue).

Definition CAMPAIGN_PREFIX : string := "campaign:".

Definition campaign_index (campaign_id : string) : string :=
  "campaign_index:" +:+ campaign_id.

Definition campaign_type_index (campaign_id data_type : string) : string :=
  "campaign_type:" +:+ campaign_id +:+ ":" +:+ data_type.

(** The store commands; a command on a key of the other type fails and
    changes nothing. *)
Definition c_hset (st : campaign_store) (key : string) (h : campaign_hash)
  : exc campaign_store :=
  match st !! key with
  | Some (CSet _) => Raise ResponseError
  | _ => Ok (<[key := CHash h]> st)
  end.

Definition c_sadd (st : campaign_store) (name member : string)
  : exc campaign_store :=
  match st !! name with
  | Some (CHash _) => Raise ResponseError
  | Some (CSet members) => Ok (<[name := CSet ({[member]} ∪ members)]> st)
  | None => Ok (<[name := CSet {[member]}]> st)
  end.

(** [srem]: a set that becomes empty is removed. *)
Definition c_srem (st : campaign_store) (name member : string)
  : exc campaign_store :=
  match st !! name with
  | Some (CHash _) => Raise ResponseError
  | Some (CSet members) =>
      let members' := members ∖ {[member]} in
      if decide (members' = ∅) then Ok (delete name st)
      else Ok (<[name := CSet members']> st)
  | None => Ok st
  end.

Definition c_smembers (st : campaign_store) (name : string)
  : exc (gset string) :=
  match st !! name with
  | None => Ok ∅
  | Some (CSet members) => Ok members
  | Some (CHash _) => Raise ResponseError
  end.

(** [hgetall(key)] and [hget(key, field)]: the empty dictionary, or
    [None], for a key that does not exist. *)
Definition c_hgetall (st : campaign_store) (key : string)
  : exc (option campaign_hash) :=
  match st !! key with
  | None => Ok None
  | Some (CHash h) => Ok (Some h)
  | Some (CSet _) => Raise ResponseError
  end.

(** [store_campaign_data]; [data_id] is the fresh [uuid4], and the two
    timestamps are the two readings of the clock.  The store is returned
    as it is when an exception is raised again. *)
Definition store_campaign_data (st : campaign_store)
    (campaign_id data_type : string) (data : dict) (data_id : string)
    (created_at updated_at : timestamp) : campaign_store * exc string :=
  let campaign_key :=
    CAMPAIGN_PREFIX +:+ campaign_id +:+ ":" +:+ data_type +:+ ":"
      +:+ data_id in
  let campaign_dict :=
    {| c_id := data_id;
       c_campaign_id := campaign_id;
       c_data_type := data_type;
       c_name := default EmptyString (dict_name data);
       c_content := data;
       c_created_at := created_at;
       c_updated_at := updated_at;
       c_version := 1;
       c_tags := default [] (dict_tags data) |} in
  match c_hset st campaign_key campaign_dict with
  | Raise e => (st, Raise e)
  | Ok st1 =>
      match c_sadd st1 (campaign_index campaign_id) campaign_key with
      | Raise e => (st1, Raise e)
      | Ok st2 =>
          match c_sadd st2 (campaign_type_index campaign_id data_type)
                  campaign_key with
          | Raise e => (st2, Raise e)
          | Ok st3 => (st3, Ok data_id)
          end
      end
  end.

(** The loop of [get_campaign_data] over the keys. *)
Fixpoint collect_campaign_data (st : campaign_store) (keys : list string)
  : exc (list campaign_hash) :=
  match keys with
  | [] => Ok []
  | key :: more =>
      let! data := c_hgetall st key in
      let! rest := collect_campaign_data st more in
      match data with
      | Some h => Ok (h :: rest)
      | None => Ok rest
      end
  end.

Definition get_campaign_data (st : campaign_store) (campaign_id : string)
    (data_type : option string) : list campaign_hash :=
  try_except
    (let! campaign_keys :=
       match data_type with
       | Some data_type =>
           if str_truthy data_type
           then c_smembers st (campaign_type_index campaign_id data_type)
           else c_smembers st (campaign_index campaign_id)
       | None => c_smembers st (campaign_index campaign_id)
       end in
     collect_campaign_data st (set_order campaign_keys))
    [].

(** The search loop of [update_campaign_data] and [delete_campaign_data]:
    the first key whose hash has the id. *)
Fixpoint find_campaign_key (st : campaign_store) (data_id : string)
    (keys : list string) : exc (option string) :=
  match keys with
  | [] => Ok None
  | key :: more =>
      let! data := c_hgetall st key in
      match data with
      | Some h =>
          if String.eqb (c_id h) data_id then Ok (Some key)
          else find_campaign_key st data_id more
      | None => find_campaign_key st data_id more
      end
  end.

(** The [updates] dictionary: its entries "name", "content" and "tags",
    when present. *)
Record campaign_updates : Type := {
  up_name : option string;
  up_content : option dict;
  up_tags : option (list string)
}.

Definition updated_record (h : campaign_hash) (updates : campaign_updates)
    (now : timestamp) : campaign_hash :=
  {| c_id := c_id h;
     c_campaign_id := c_campaign_id h;
     c_data_type := c_data_type h;
     c_name := default (c_name h) (up_name updates);
     c_content :=
       match up_content updates with
       | Some content => dict_update (c_content h) content
       | None => c_content h
       end;
     c_created_at := c_created_at h;
     c_updated_at := now;
     c_version := c_version h + 1;
     c_tags := default (c_tags h) (up_tags updates) |}.

Definition update_campaign_data (st : campaign_store)
    (campaign_id data_id : string) (updates : campaign_updates)
    (now : timestamp) : campaign_store * bool :=
  match
    (let! campaign_keys := c_smembers st (campaign_index campaign_id) in
     find_campaign_key st data_id (set_order campaign_keys))
  with
  | Raise _ => (st, false)
  | Ok None => (st, false)
  | Ok (Some target_key) =>
      if negb (str_truthy target_key) then (st, false)
      else
        match c_hgetall st target_key with
        | Raise _ => (st, false)
        | Ok None => (st, false)
        | Ok (Some current_data) =>
            match c_hset st target_key
                    (updated_record current_data updates now) with
            | Raise _ => (st, false)
            | Ok st' => (st', true)
            end
        end
  end.

Definition delete_campaign_data (st : campaign_store)
    (campaign_id data_id : string) : campaign_store * bool :=
  match
    (let! campaign_keys := c_smembers st (campaign_index campaign_id) in
     find_campaign_key st data_id (set_order campaign_keys))
  with
  | Raise _ => (st, false)
  | Ok None => (st, false)
  | Ok (Some key) =>
      match c_srem st (campaign_index campaign_id) key with
      | Raise _ => (st, false)
      | Ok st1 =>
          match c_hgetall st1 key with
          | Raise _ => (st1, false)
          | Ok data =>
              let data_type :=
                match data with
                | Some h => c_data_type h
                | None => EmptyString
                end in
              match
                (if str_truthy data_type
                 then c_srem st1 (campaign_type_index campaign_id data_type)
                        key
                 else Ok st1)
              with
              | Raise _ => (st1, false)
              | Ok st2 => (delete key st2, true)
              end
          end
      end
  end.

End CampaignData.

Arguments CHash {dict timestamp} h.
Arguments c_hset {dict timestamp} st key h.
Arguments c_sadd {dict timestamp} st name member.
Arguments c_srem {dict timestamp} st name member.
Arguments c_smembers {dict timestamp} st name.
Arguments c_hgetall {dict timestamp} st key.
Arguments collect_campaign_data {dict timestamp} st keys.
Arguments find_campaign_key {dict timestamp} st data_id keys.
Arguments CSet {dict timestamp} members.
Arguments c_id {dict timestamp} _.
Arguments c_campaign_id {dict timestamp} _.
Arguments c_data_type {dict timestamp} _.
Arguments c_name {dict timestamp} _.
Arguments c_content {dict timestamp} _.
Arguments c_created_at {dict timestamp} _.
Arguments c_updated_at {dict timestamp} _.
Arguments c_version {dict timestamp} _.
Arguments c_tags {dict timestamp} _.
Arguments up_name {dict} _.
Arguments up_content {dict} _.
Arguments up_tags {dict} _.

(** What the campaign functions maintain: record hashes live under the
    campaign prefix, index sets do not, and the members of an index set
    are names under the prefix. *)
Record campaign_inv {dict timestamp : Type}
    (st : gmap string (cvalue dict timestamp)) : Prop := {
  cinv_hash : forall k h,
    st !! k = Some (CHash h) -> String.prefix CAMPAIGN_PREFIX k = true;
  cinv_set : forall k s,
    st !! k = Some (CSet s) -> String.prefix CAMPAIGN_PREFIX k = false;
  cinv_members : forall name s m,
    st !! name = Some (CSet s) -> m ∈ s ->
    String.prefix CAMPAIGN_PREFIX m = true
}.

(** The members of an index set of the campaign store. *)
Definition campaign_members {dict timestamp : Type}
    (st : gmap string (cvalue dict timestamp)) (name : string)
  : gset string :=
  match st !! name with
  | Some (CSet members) => members
  | _ => ∅
  end.

(** A record of a campaign with a given id: a member of the campaign's
    index whose hash carries the id. *)
Definition campaign_record {dict timestamp : Type}
    (st : gmap string (cvalue dict timestamp)) (campaign_id data_id : string)
    (key : string) (h : campaign_hash dict timestamp) : Prop :=
  key ∈ campaign_members st (campaign_index campaign_id)
  /\ st !! key = Some (CHash h)
  /\ c_id h = data_id.

(** A small instance for examples: dictionaries as association lists of
    strings, of which a later entry with the same key is overridden by
    an update, and timestamps as numbers. *)
Definition assoc_dict : Type := list (string * string).

Definition assoc_name (d : assoc_dict) : option string :=
  option_map snd (List.find (fun kv => String.eqb (fst kv) "name") d).

Definition assoc_update (d u : assoc_dict) : assoc_dict :=
  u ++ List.filter
         (fun kv => negb (existsb (String.eqb (fst kv)) (map fst u))) d.

(** The store after one character sheet was created in campaign "c1". *)
Definition example_campaign_store : gmap string (cvalue assoc_dict nat) :=
  fst (store_campaign_data assoc_dict assoc_name (fun _ => None) nat ∅
         "c1" "character" [("name", "Bob"); ("class", "bard")] "id-1"
         10%nat 11%nat).


(** *** [cleanup_old_data] *)

Section CleanupOldData.

Variable dict : Type.
Variable timestamp : Type.

(** Whether a stored update time lies before the cutoff:
    [datetime.fromisoformat(updated_at).timestamp() < cutoff_date], and
    [None] for a value that is empty or that [fromisoformat] rejects. *)
Variable before_cutoff : timestamp -> option bool.

(** The order in which the scan of the keys under "campaign:" yields
    them. *)
Variable scan_order : gset string -> list string.

(** The keys matched by [scan_iter(match="campaign:*")]. *)
Definition campaign_keys (st : gmap string (cvalue dict timestamp))
  : gset string :=
  filter (fun k => String.prefix CAMPAIGN_PREFIX k = true) (dom st).

(** The body of the loop, on the store and [deleted_count]. *)
Definition cleanup_step
    (acc : exc (gmap string (cvalue dict timestamp) * nat)) (key : string)
  : exc (gmap string (cvalue dict timestamp) * nat) :=
  let! state := acc in
  let '(st, deleted_count) := state in
  let! data := c_hgetall st key in
  match data with
  | Some h =>
      match before_cutoff (c_updated_at h) with
      | Some true => Ok (delete key st, S deleted_count)
      | _ => Ok (st, deleted_count)
      end
  | None => Ok (st, deleted_count)
  end.

(** The loop stops at the first exception and keeps what it deleted. *)
Fixpoint cleanup_loop (st : gmap string (cvalue dict timestamp))
    (deleted_count : nat) (keys : list string)
  : gmap string (cvalue dict timestamp) * exc nat :=
  match keys with
  | [] => (st, Ok deleted_count)
  | key :: more =>
      match cleanup_step (Ok (st, deleted_count)) key with
      | Ok (st', deleted_count') => cleanup_loop st' deleted_count' more
      | Raise e => (st, Raise e)
      end
  end.

(** [cleanup_old_data]: the store afterwards and the number returned,
    which is 0 when an exception was caught. *)
Definition cleanup_old_data (st : gmap string (cvalue dict timestamp))
  : gmap string (cvalue dict timestamp) * nat :=
  let '(st', deleted_count) :=
    cleanup_loop st 0 (scan_order (campaign_keys st)) in
  (st', try_except deleted_count 0%nat).

(** A key holds a record whose update time lies before the cutoff. *)
Definition expired (st : gmap string (cvalue dict timestamp)) (key : string)
  : bool :=
  match st !! key with
  | Some (CHash h) =>
      match before_cutoff (c_updated_at h) with
      | Some true => true
      | _ => false
      end
  | _ => false
  end.

End CleanupOldData.

(** ** The comparison facts on the two number instances *)

Lemma SFcompare_swap (x y : spec_float) :
  SFcompare y x = option_map CompOpp (SFcompare x y).
Proof.
  destruct x as [sx|sx| |sx mx ex], y as [sy|sy| |sy my ey];
    cbn [SFcompare option_map];
    try destruct sx; try destruct sy; try reflexivity.
  all: pose proof (Pos.compare_cont_antisym mx my Eq) as Hm;
    cbn [CompOpp] in Hm; rewrite <- Hm, (Z.compare_antisym ex ey);
    destruct (ex ?= ey); cbn [CompOpp option_map]; try reflexivity.
Qed.

Lemma binary64_lt_excludes_ge : lt_excludes_ge binary64.
Proof.
  intros a b. unfold f_geb. cbn [f_ltb f_leb binary64].
  rewrite FloatAxioms.ltb_spec, FloatAxioms.leb_spec. unfold SFltb, SFleb.
  rewrite (SFcompare_swap (Prim2SF a) (Prim2SF b)).
  destruct (SFcompare (Prim2SF a) (Prim2SF b)) as [[]|];
    cbn [option_map CompOpp]; congruence.
Qed.

Lemma binary64_eq_excludes_lt : eq_excludes_lt binary64.
Proof.
  intros a b. cbn [f_ltb f_eqb binary64].
  rewrite FloatAxioms.eqb_spec, FloatAxioms.ltb_spec. unfold SFltb, SFeqb.
  rewrite (SFcompare_swap (Prim2SF a) (Prim2SF b)).
  destruct (SFcompare (Prim2SF a) (Prim2SF b)) as [[]|];
    cbn [option_map CompOpp]; congruence.
Qed.

Lemma real_lt_excludes_ge : lt_excludes_ge real.
Proof.
  intros a b. unfold f_geb. cbn [f_ltb f_leb real].
  destruct (Rlt_dec a b) as [Hlt|]; [|discriminate].
  intros _. destruct (Rle_dec b a) as [Hle|]; [|reflexivity].
  exfalso. lra.
Qed.

Lemma real_magnitudes_multiply_nonzero : magnitudes_multiply_nonzero real.
Proof.
  intros x y. cbn [f_eqb f_mul f_sqrt f_zero real].
  destruct (Req_dec_T (sqrt x) 0) as [|Hx]; [discriminate|].
  destruct (Req_dec_T (sqrt y) 0) as [|Hy]; [discriminate|].
  intros _ _.
  destruct (Req_dec_T (sqrt x * sqrt y) 0) as [H0|]; [|reflexivity].
  apply Rmult_integral in H0. tauto.
Qed.

(** *** Magnitudes on binary64

    A product of two roots underflows to zero only if a root is zero:
    a root that is not zero is at least [2^-537], and the product of two
    such numbers is at least [2^-1074], the smallest positive number. *)

Lemma digits2_pos_size (m : positive) : digits2_pos m = Pos.size m.
Proof. induction m as [m IH|m IH|]; cbn; now rewrite ?IH. Qed.

Lemma Zdigits2_log2 (m : Z) : 0 < m -> Zdigits2 m = Z.log2 m + 1.
Proof.
  destruct m as [|m|m]; try lia. intros _. cbn [Zdigits2].
  rewrite digits2_pos_size. destruct m as [m|m|]; cbn; lia.
Qed.

Lemma shr_1_m (mrs : shr_record) :
  0 <= shr_m mrs -> shr_m (shr_1 mrs) = Z.shiftr (shr_m mrs) 1.
Proof.
  destruct mrs as [m r s]. cbn [shr_m shr_1].
  destruct m as [|[m|m|]|m]; cbn; try lia; reflexivity.
Qed.

Lemma iter_shr_1_m (p : positive) : forall mrs : shr_record,
  0 <= shr_m mrs ->
  shr_m (SpecFloat.iter_pos shr_1 p mrs) = Z.shiftr (shr_m mrs) (Zpos p).
Proof.
  assert (Hnn : forall m n, 0 <= m -> 0 <= Z.shiftr m n).
  { intros m n Hm. now apply Z.shiftr_nonneg. }
  induction p as [p IH|p IH|]; intros mrs Hm; cbn [SpecFloat.iter_pos].
  - pose proof (shr_1_m mrs Hm) as H1.
    assert (Hm1 : 0 <= shr_m (shr_1 mrs)) by (rewrite H1; now apply Hnn).
    pose proof (IH _ Hm1) as H2.
    assert (Hm2 : 0 <= shr_m (SpecFloat.iter_pos shr_1 p (shr_1 mrs)))
      by (rewrite H2; now apply Hnn).
    rewrite (IH _ Hm2), H2, H1.
    rewrite !Z.shiftr_shiftr by lia. f_equal. lia.
  - pose proof (IH _ Hm) as H1.
    assert (Hm1 : 0 <= shr_m (SpecFloat.iter_pos shr_1 p mrs))
      by (rewrite H1; now apply Hnn).
    rewrite (IH _ Hm1), H1.
    rewrite !Z.shiftr_shiftr by lia. f_equal. lia.
  - now apply shr_1_m.
Qed.

Lemma shr_record_of_loc_m (m : Z) (l : location) :
  shr_m (shr_record_of_loc m l) = m.
Proof. destruct l as [|[]]; reflexivity. Qed.

(** Shifting to the exponent of the format keeps a mantissa positive, and
    keeps the magnitude, when the number is at least [2^-1074]. *)
Lemma shr_fexp_positive (m e : Z) (l : location) :
  0 < m -> -1074 < Zdigits2 m + e ->
  let '(mrs, e') := shr_fexp prec emax m e l in
  0 < shr_m mrs /\ Zdigits2 (shr_m mrs) + e' = Zdigits2 m + e.
Proof.
  intros Hm Hd. unfold shr_fexp, shr.
  destruct (fexp prec emax (Zdigits2 m + e) - e) as [|p|p] eqn:En;
    rewrite ?shr_record_of_loc_m; try (split; [exact Hm|reflexivity]).
  rewrite iter_shr_1_m by (rewrite shr_record_of_loc_m; lia).
  rewrite shr_record_of_loc_m.
  rewrite (Zdigits2_log2 m Hm) in *.
  assert (Hp : Zpos p <= Z.log2 m).
  { unfold fexp, SpecFloat.emin, prec, emax in En. lia. }
  assert (Hpos : 0 < Z.shiftr m (Zpos p)).
  { assert (0 <= Z.shiftr m (Zpos p)) by (apply Z.shiftr_nonneg; lia).
    assert (Z.shiftr m (Zpos p) <> 0)
      by (rewrite Z.shiftr_eq_0_iff; lia).
    lia. }
  split; [exact Hpos|].
  rewrite (Zdigits2_log2 _ Hpos).
  rewrite Z.log2_shiftr by exact Hm. lia.
Qed.

Lemma round_nearest_even_bounds (m : Z) (l : location) :
  m <= round_nearest_even m l <= m + 1.
Proof.
  unfold round_nearest_even. destruct l as [|[]]; try lia.
  destruct (Z.even m); lia.
Qed.

(** Rounding a number of at least [2^-1074] never gives zero. *)
Lemma binary_round_aux_not_zero (s : bool) (m e : Z) (l : location) :
  0 < m -> -1074 < Zdigits2 m + e ->
  SFeqb (binary_round_aux prec emax s m e l) (S754_zero false) = false.
Proof.
  intros Hm Hd. unfold binary_round_aux.
  pose proof (shr_fexp_positive m e l Hm Hd) as H1.
  destruct (shr_fexp prec emax m e l) as [mrs' e'].
  destruct H1 as [Hm' Hd'].
  pose proof (round_nearest_even_bounds (shr_m mrs')
                (loc_of_shr_record mrs')) as Hr.
  set (m1 := round_nearest_even (shr_m mrs') (loc_of_shr_record mrs')) in *.
  assert (Hm1 : 0 < m1) by lia.
  assert (Hd1 : -1074 < Zdigits2 m1 + e').
  { rewrite (Zdigits2_log2 m1 Hm1).
    rewrite (Zdigits2_log2 _ Hm') in Hd'.
    pose proof (Z.log2_le_mono (shr_m mrs') m1 (proj1 Hr)). lia. }
  pose proof (shr_fexp_positive m1 e' loc_Exact Hm1 Hd1) as H2.
  destruct (shr_fexp prec emax m1 e' loc_Exact) as [mrs'' e''].
  destruct H2 as [Hm'' _].
  destruct (shr_m mrs'') as [|m''|m'']; try lia.
  destruct (e'' <=? emax - prec); destruct s; reflexivity.
Qed.




Lemma SF64mul_not_zero (a b : spec_float) (da db : Z) :
  magnitude_exponent a = Some da -> magnitude_exponent b = Some db ->
  -536 <= da -> -536 <= db ->
  SFeqb (SF64mul a b) (S754_zero false) = false.
Proof.
  destruct a as [| | |sa ma ea]; try discriminate.
  destruct b as [| | |sb mb eb]; try discriminate.
  cbn [magnitude_exponent]. intros [= <-] [= <-] Ha Hb.
  unfold SF64mul. cbn [SFmul].
  apply binary_round_aux_not_zero; [lia|].
  rewrite Zdigits2_log2 by lia.
  rewrite !digits2_pos_size in *.
  pose proof (Z.log2_mul_below (Zpos ma) (Zpos mb) ltac:(lia) ltac:(lia)) as H.
  assert (Hs : forall p, Zpos (Pos.size p) = Z.log2 (Zpos p) + 1).
  { intros p. rewrite <- digits2_pos_size.
    apply (Zdigits2_log2 (Zpos p)). lia. }
  rewrite !Hs in *. rewrite Pos2Z.inj_mul. lia.
Qed.

(** The product of two results of a root function without tiny results is
    zero only if one of them is. *)
Lemma product_of_roots_not_zero (pow_half : float -> float) (x y : float) :
  roots_not_tiny pow_half ->
  PrimFloat.eqb (pow_half x) PrimFloat.zero = false ->
  PrimFloat.eqb (pow_half y) PrimFloat.zero = false ->
  PrimFloat.eqb (PrimFloat.mul (pow_half x) (pow_half y)) PrimFloat.zero
  = false.
Proof.
  intros Hroot. rewrite !FloatAxioms.eqb_spec, mul_spec.
  pose proof (Hroot x) as Hx. pose proof (Hroot y) as Hy.
  change (Prim2SF PrimFloat.zero) with (S754_zero false).
  destruct (Prim2SF (pow_half x)) as [sa|sa| |sa ma ea];
    destruct (Prim2SF (pow_half y)) as [sb|sb| |sb mb eb];
    try (intros; reflexivity); try (intros; discriminate);
    try (destruct sa; intros; reflexivity);
    try (destruct sa, sb; intros; reflexivity).
  intros _ _.
  eapply SF64mul_not_zero; try reflexivity.
  - now apply Hx.
  - now apply Hy.
Qed.

Lemma binary64_with_magnitudes_multiply_nonzero (pow_half : float -> float) :
  roots_not_tiny pow_half ->
  magnitudes_multiply_nonzero (binary64_with pow_half).
Proof.
  intros Hroot x y. cbn [f_eqb f_mul f_sqrt f_zero binary64_with].
  now apply product_of_roots_not_zero.
Qed.


(** The comparison facts do not involve the root. *)
Lemma binary64_with_lt_excludes_ge (pow_half : float -> float) :
  lt_excludes_ge (binary64_with pow_half).
Proof. exact binary64_lt_excludes_ge. Qed.

Lemma binary64_with_eq_excludes_lt (pow_half : float -> float) :
  eq_excludes_lt (binary64_with pow_half).
Proof. exact binary64_eq_excludes_lt. Qed.

(** ** Properties of the chunker *)

(** C1 (code evaluated at the failing input).  The section
    [two_long_paragraphs] is longer than the limit of 1500 and is split
    into two chunks; the first chunk is made of two paragraphs and is 1502
    characters long: the running size counts the paragraphs only, not the
    blank line that joins them. *)
Theorem split_chunk_over_limit :
  exists chunk,
    _split_section_into_chunks two_long_paragraphs default_max_chunk_size
      = [chunk; "c"%string]
    /\ length (split_paragraphs chunk) = 2%nat
    /\ Z.of_nat (String.length chunk) = 1502
    /\ Z.of_nat (String.length chunk) > default_max_chunk_size.
Proof.
  eexists. split; [vm_compute; reflexivity|].
  vm_compute. repeat split; reflexivity.
Qed.

(** What the splitting loop does guarantee: the paragraphs of a chunk of
    two or more paragraphs add up to at most the limit; the separators
    that join them come on top. *)

Lemma paragraphs_length_app (g1 g2 : list string) :
  paragraphs_length (g1 ++ g2) = paragraphs_length g1 + paragraphs_length g2.
Proof.
  unfold paragraphs_length. induction g1 as [|p g1 IH]; cbn [app fold_right];
    [reflexivity|]. rewrite IH. lia.
Qed.

Lemma length_append (s1 s2 : string) :
  String.length (s1 +:+ s2) = (String.length s1 + String.length s2)%nat.
Proof.
  induction s1 as [|c s1 IH]; [reflexivity|].
  change (S (String.length (s1 +:+ s2))
          = S (String.length s1 + String.length s2)).
  now rewrite IH.
Qed.

Lemma length_str_join (g : list string) :
  g <> [] ->
  Z.of_nat (String.length (str_join para_sep g))
  = paragraphs_length g + 2 * (Z.of_nat (length g) - 1).
Proof.
  induction g as [|p g IH]; [congruence|]. intros _.
  destruct g as [|p' g].
  - cbn [str_join paragraphs_length fold_right length]. lia.
  - change (str_join para_sep (p :: p' :: g))
      with (p +:+ para_sep +:+ str_join para_sep (p' :: g)).
    rewrite !length_append, !Nat2Z.inj_add, IH by discriminate.
    change (paragraphs_length (p :: p' :: g))
      with (Z.of_nat (String.length p) + paragraphs_length (p' :: g)).
    change (String.length para_sep) with 2%nat.
    cbn [length]. lia.
Qed.

Lemma split_fold_groups (max_chunk_size : Z) (paragraphs : list string) :
  forall (st : split_state) (gs : group_state),
    chunks st = map (str_join para_sep) (groups gs) ->
    current_chunk st = open_group gs ->
    current_size st = paragraphs_length (open_group gs) ->
    let st' := fold_left (split_step max_chunk_size) paragraphs st in
    let gs' := fold_left (group_step max_chunk_size) paragraphs gs in
    chunks st' = map (str_join para_sep) (groups gs')
    /\ current_chunk st' = open_group gs'.
Proof.
  induction paragraphs as [|p ps IH]; intros st gs Hc Ho Hs; cbn [fold_left].
  - now split.
  - apply IH; unfold split_step, group_step; rewrite Hs, Ho;
      destruct ((_ >? _) && _);
      cbn [chunks current_chunk current_size groups open_group].
    + now rewrite Hc, map_app.
    + exact Hc.
    + reflexivity.
    + reflexivity.
    + unfold paragraphs_length. cbn [fold_right]. lia.
    + rewrite paragraphs_length_app. unfold paragraphs_length at 3.
      cbn [fold_right]. lia.
Qed.

Lemma group_fold_bound (max_chunk_size : Z) (paragraphs : list string) :
  forall gs : group_state,
    let bounded g :=
      g <> [] /\ ((2 <= length g)%nat -> paragraphs_length g <= max_chunk_size)
    in
    Forall bounded (groups gs) ->
    ((2 <= length (open_group gs))%nat ->
     paragraphs_length (open_group gs) <= max_chunk_size) ->
    let gs' := fold_left (group_step max_chunk_size) paragraphs gs in
    Forall bounded (groups gs')
    /\ ((2 <= length (open_group gs'))%nat ->
        paragraphs_length (open_group gs') <= max_chunk_size).
Proof.
  induction paragraphs as [|p ps IH]; intros gs bounded Hg Ho;
    cbn [fold_left].
  - now split.
  - apply IH; unfold group_step;
      destruct (Z.gtb_spec (paragraphs_length (open_group gs)
                            + Z.of_nat (String.length p)) max_chunk_size)
        as [Hgt|Hle];
      destruct (open_group gs) as [|q g] eqn:Eopen;
      cbn [andb truthy groups open_group length]; try exact Hg;
      try (cbn [app length]; intros; lia).
    + apply Forall_app. split; [exact Hg|].
      constructor; [|constructor]. split; [discriminate|exact Ho].
    + intros _. rewrite paragraphs_length_app. unfold paragraphs_length at 2.
      cbn [fold_right]. lia.
Qed.

(** X1.  Every chunk of a section that is split is the join of its group
    of paragraphs; the groups are never empty, and a group of two or more
    paragraphs has at most [max_chunk_size] characters in its paragraphs,
    so that the chunk has at most two more per blank line. *)
Lemma split_chunks_paragraph_bound (section : Section) (max_chunk_size : Z) :
  max_chunk_size < Z.of_nat (String.length (sec_content section)) ->
  let gs := split_groups max_chunk_size
              (split_paragraphs (sec_content section)) in
  _split_section_into_chunks section max_chunk_size
  = map (str_join para_sep) gs
  /\ Forall (fun g =>
       g <> []
       /\ ((2 <= length g)%nat ->
           paragraphs_length g <= max_chunk_size
           /\ Z.of_nat (String.length (str_join para_sep g))
              <= max_chunk_size + 2 * (Z.of_nat (length g) - 1))) gs.
Proof.
  intros Hlong. cbv zeta. unfold _split_section_into_chunks, split_groups.
  destruct (Z.leb_spec (Z.of_nat (String.length (sec_content section)))
              max_chunk_size) as [|_]; [lia|].
  set (ps := split_paragraphs (sec_content section)).
  destruct (split_fold_groups max_chunk_size ps
              {| chunks := []; current_chunk := []; current_size := 0 |}
              {| groups := []; open_group := [] |} eq_refl eq_refl eq_refl)
    as [Hc Ho].
  destruct (group_fold_bound max_chunk_size ps
              {| groups := []; open_group := [] |}) as [Hg Hopen].
  { constructor. }
  { cbn. lia. }
  rewrite Ho, Hc.
  set (gs := fold_left (group_step max_chunk_size) ps _) in *.
  assert (Hall : Forall (fun g =>
            g <> [] /\ ((2 <= length g)%nat ->
                        paragraphs_length g <= max_chunk_size))
            (if truthy (open_group gs) then groups gs ++ [open_group gs]
             else groups gs)).
  { destruct (open_group gs) as [|q g] eqn:E; cbn [truthy]; [exact Hg|].
    apply Forall_app. split; [exact Hg|].
    constructor; [|constructor]. split; [discriminate|exact Hopen]. }
  split.
  - destruct (truthy (open_group gs)); [|reflexivity].
    now rewrite map_app.
  - eapply Forall_impl; [exact Hall|].
    intros g [Hne Hb]. split; [exact Hne|]. intros H2.
    split; [now apply Hb|]. rewrite length_str_join by exact Hne.
    specialize (Hb H2). lia.
Qed.

(** ** Properties of outline-driven section identification *)

(** C3 (code evaluated at the failing input).  In [nested_document] the
    chapter "Combat" (level 0, page 1) is followed by its subsection and
    then by the chapter "Magic" (level 0, page 5).  The specification puts
    the end of "Combat" at page 4; the code looks at the subsection only
    and lets "Combat" run to page 10, the end of the document. *)
Theorem outline_end_page_ignores_later_siblings :
  (exists combat attack magic,
      identify_sections (fun _ => []) nested_document
        = Ok [combat; attack; magic]
      /\ sec_title combat = "Combat"%string
      /\ page_end combat = 10)
  /\ spec_end_page 10 0 (tail nested_toc) = Some 4.
Proof.
  split; [|reflexivity].
  do 3 eexists. split; [vm_compute; reflexivity|].
  split; reflexivity.
Qed.

(** Where the outline end page agrees with the specification: when the
    entry right after has a level at most the entry's own, and when no
    later entry has. *)
Lemma toc_end_page_agrees (total section_level : Z) (later : list toc_entry) :
  match later with
  | next_entry :: _ =>
      toc_level next_entry <= section_level
      \/ Forall (fun e => section_level < toc_level e) later
  | [] => True
  end ->
  toc_end_page total section_level later
  = match spec_end_page total section_level later with
    | Some p => Ok p
    | None => Raise TypeError
    end.
Proof.
  destruct later as [|next_entry later]; [reflexivity|].
  intros [Hle|Hall].
  - cbn [toc_end_page spec_end_page].
    destruct (Z.leb_spec (toc_level next_entry) section_level); [|lia].
    now destruct (toc_page next_entry).
  - assert (Hspec : forall l, Forall (fun e => section_level < toc_level e) l ->
              spec_end_page total section_level l = Some total).
    { induction 1 as [|e l He _ IH]; cbn [spec_end_page]; [reflexivity|].
      destruct (Z.leb_spec (toc_level e) section_level); [lia|exact IH]. }
    rewrite (Hspec _ Hall). cbn [toc_end_page].
    inversion Hall as [|e l He _]; subst.
    destruct (Z.leb_spec (toc_level next_entry) section_level);
      [lia|reflexivity].
Qed.

(** ** Properties of chunk identifiers *)

Lemma imap_index_only {A B : Type} (g : nat -> B) (l : list A) :
  imap (fun i _ => g i) l = map g (seq 0 (length l)).
Proof.
  revert g. induction l as [|x l IH]; intros g; [reflexivity|].
  rewrite imap_cons. cbn [length seq map]. f_equal.
  rewrite <- seq_shift, map_map. apply (IH (fun i => g (S i))).
Qed.

Lemma replace_spaces_no_space (s : string) (ch : ascii) :
  In ch (list_ascii_of_string (replace_spaces s)) -> ch <> space.
Proof.
  induction s as [|c s IH]; cbn [replace_spaces list_ascii_of_string In].
  - tauto.
  - intros [Hc|Hin]; [|auto].
    subst ch. destruct (Ascii.eqb_spec c space) as [_|Hne].
    + discriminate.
    + exact Hne.
Qed.

Lemma replace_spaces_keeps (s : string) (ch : ascii) :
  ch <> space -> In ch (list_ascii_of_string s) ->
  In ch (list_ascii_of_string (replace_spaces s)).
Proof.
  intros Hch. induction s as [|c s IH];
    cbn [replace_spaces list_ascii_of_string In]; [tauto|].
  intros [->|Hin]; [|right; now apply IH].
  left. destruct (Ascii.eqb_spec ch space); [contradiction|reflexivity].
Qed.

Lemma list_ascii_app (s1 s2 : string) :
  list_ascii_of_string (s1 +:+ s2)
  = list_ascii_of_string s1 ++ list_ascii_of_string s2.
Proof.
  induction s1 as [|c s1 IH]; [reflexivity|].
  change (String c s1 +:+ s2) with (String c (s1 +:+ s2)).
  cbn [list_ascii_of_string app]. now rewrite IH.
Qed.

Lemma create_chunks_ids (F : pyfloat) (sections : list Section)
    (rulebook_name system_name : string) :
  map chunk_id (create_chunks F sections rulebook_name system_name)
  = flat_map (fun section =>
      map (make_chunk_id rulebook_name (sec_title section))
          (seq 0 (piece_count section))) sections.
Proof.
  unfold create_chunks, piece_count.
  induction sections as [|section sections IH]; [reflexivity|].
  cbn [flat_map]. rewrite map_app, IH. f_equal.
  change (map chunk_id) with (fmap (M := list) (@chunk_id F)).
  rewrite fmap_imap. unfold compose. cbn [chunk_id].
  apply imap_index_only.
Qed.

Lemma create_chunks_titles (F : pyfloat) (sections : list Section)
    (rulebook_name system_name : string) (chunk : ContentChunk F) :
  In chunk (create_chunks F sections rulebook_name system_name) ->
  exists i, chunk_id chunk = make_chunk_id rulebook_name (chunk_title chunk) i.
Proof.
  unfold create_chunks. intros Hin.
  apply in_flat_map in Hin as (section & _ & Hin).
  apply list_elem_of_In, elem_of_lookup_imap in Hin as (i & piece & -> & _).
  now exists i.
Qed.

(** C9 (counterexample).  The title of [tabbed_section] holds a tab, and
    so does the id of its chunk: only spaces are replaced. *)
Lemma chunk_id_keeps_tab :
  ~ Forall (fun chunk : ContentChunk binary64 =>
              whitespace_normalized (chunk_id chunk))
      (create_chunks binary64 [tabbed_section] "Core Rules" "D&D").
Proof.
  intros Hclaim.
  assert (Hchunks : exists chunk,
            create_chunks binary64 [tabbed_section] "Core Rules" "D&D"
            = [chunk]
            /\ chunk_id chunk
               = ("Core_Rules_Magic" +:+ String tab "Items_0")%string).
  { eexists. split; vm_compute; reflexivity. }
  destruct Hchunks as (chunk & E & Hid). rewrite E in Hclaim.
  apply Forall_cons in Hclaim as [Hclaim _].
  specialize (Hclaim tab). rewrite Hid in Hclaim.
  assert (Htab : py_isspace tab = false);
    [apply Hclaim; vm_compute; tauto|discriminate Htab].
Qed.

(** C9 (amended).  The ids that [create_chunks] gives are, section by
    section, [make_chunk_id] of the document name, the title of the
    section and the index of the piece.  They depend on nothing else: sections with the
    same titles and the same numbers of pieces under the same document
    name get the same list of ids, whatever their text, their pages, the
    system label and the number representation are.  In an id every space
    is replaced by an underscore and nothing else is changed: an id holds
    no space, and every other character of the title, whitespace or not,
    is in the id. *)
Theorem chunk_ids_replace_spaces_only (F : pyfloat) (sections : list Section)
    (rulebook_name system_name : string) :
  map chunk_id (create_chunks F sections rulebook_name system_name)
  = flat_map (fun section =>
      map (make_chunk_id rulebook_name (sec_title section))
          (seq 0 (piece_count section))) sections
  /\ (forall (F' : pyfloat) (sections' : list Section)
        (system_name' : string),
        map sec_title sections' = map sec_title sections ->
        map piece_count sections' = map piece_count sections ->
        map chunk_id
          (create_chunks F' sections' rulebook_name system_name')
        = map chunk_id
            (create_chunks F sections rulebook_name system_name))
  /\ (forall chunk,
        In chunk (create_chunks F sections rulebook_name system_name) ->
        (forall ch, In ch (list_ascii_of_string (chunk_id chunk)) ->
                    ch <> space)
        /\ (forall ch, ch <> space ->
              In ch (list_ascii_of_string (chunk_title chunk)) ->
              In ch (list_ascii_of_string (chunk_id chunk)))).
Proof.
  split; [apply create_chunks_ids|]. split.
  - intros F' sections' system_name' Htitles Hcounts.
    rewrite !create_chunks_ids.
    revert sections' Htitles Hcounts.
    induction sections as [|section sections IH];
      intros [|section' sections'] Htitles Hcounts;
      try discriminate; [reflexivity|].
    cbn [map] in Htitles, Hcounts.
    injection Htitles as Htitle Htitles.
    injection Hcounts as Hcount Hcounts.
    cbn [flat_map]. rewrite Htitle, Hcount. f_equal.
    now apply IH.
  - intros chunk Hin.
    destruct (create_chunks_titles F sections rulebook_name system_name
                chunk Hin) as [i Hid].
    rewrite Hid. unfold make_chunk_id. split.
    + intros ch. apply replace_spaces_no_space.
    + intros ch Hch Htitle. apply replace_spaces_keeps; [exact Hch|].
      rewrite !list_ascii_app. apply in_or_app. right.
      apply in_or_app. right. apply in_or_app. now left.
Qed.

(** Two sections with one title and one piece each, of different text and
    on different pages, get the same id. *)
Lemma chunk_ids_replace_spaces_only_witness :
  map chunk_id
    (create_chunks real
       [ {| sec_title := "Magic Items"; sec_content := "Potions.";
            page_start := 7; page_end := 9; level := 1;
            parent_sections := ["Treasure"%string] |} ]
       "Core Rules" "Pathfinder")
  = map chunk_id
      (create_chunks binary64 [section_of "Magic Items" "Wands and rings."]
         "Core Rules" "D&D").
Proof.
  apply (proj1 (proj2 (chunk_ids_replace_spaces_only binary64
           [section_of "Magic Items" "Wands and rings."]
           "Core Rules" "D&D"))).
  - reflexivity.
  - vm_compute. reflexivity.
Defined.

(** The ids of the example: spaces become underscores. *)
Example chunk_id_example :
  map chunk_id
    (create_chunks binary64 [section_of "Magic Items" "Wands and rings."]
       "Core Rules" "D&D")
  = ["Core_Rules_Magic_Items_0"%string].
Proof. vm_compute. reflexivity. Qed.

(** ** Properties of the store *)

Section StoreFacts.

Variable F : pyfloat.
Variable scan_order : gset string -> list string.
Variable set_order : gset string -> list string.

Implicit Types st : gmap string (rvalue F).

Lemma store_inv_empty : store_inv (∅ : gmap string (rvalue F)).
Proof.
  split; intros *; rewrite lookup_empty; discriminate.
Qed.

Lemma insert_hash_inv st key h :
  store_inv st -> String.prefix CHUNK_PREFIX key = true ->
  store_inv (<[key := RHash h]> st).
Proof.
  intros [Hh Hs Hm] Hkey. split.
  - intros k h1. rewrite lookup_insert. case_decide; subst; eauto.
  - intros k s1. rewrite lookup_insert. case_decide; subst;
      [discriminate|eauto].
  - intros name s m. rewrite lookup_insert. case_decide; subst;
      [discriminate|].
    intros Hname Hin. destruct (Hm _ _ _ Hname Hin) as [h1 Hh1].
    rewrite lookup_insert. case_decide; subst; eauto.
Qed.

Lemma hset_inv st key h :
  store_inv st -> String.prefix CHUNK_PREFIX key = true ->
  store_inv (hset F st key h).
Proof.
  intros Hinv Hkey. unfold hset.
  destruct (st !! key) as [[h0|s0]|] eqn:Ekey.
  - now apply insert_hash_inv.
  - apply (inv_set _ Hinv) in Ekey. congruence.
  - now apply insert_hash_inv.
Qed.

Lemma sadd_inv st name member :
  store_inv st -> String.prefix CHUNK_PREFIX name = false ->
  (exists h, st !! member = Some (RHash h)) ->
  store_inv (sadd F st name member).
Proof.
  intros [Hh Hs Hm] Hname [hm Hmember]. unfold sadd.
  assert (Hne : member <> name).
  { intros ->. apply Hh in Hmember. congruence. }
  destruct (st !! name) as [[h0|s0]|] eqn:Ename.
  - split; assumption.
  - split.
    + intros k h1; rewrite lookup_insert; case_decide; subst;
        [discriminate|eauto].
    + intros k s1; rewrite lookup_insert; case_decide; subst; eauto.
    + intros n s m; rewrite lookup_insert; case_decide; subst.
      * intros [= <-] Hin.
        apply elem_of_union in Hin as [Hin|Hin].
        -- apply elem_of_singleton in Hin. subst m.
           exists hm. now rewrite lookup_insert_ne.
        -- destruct (Hm _ _ _ Ename Hin) as [h1 Hh1]. exists h1.
           rewrite lookup_insert_ne; [exact Hh1|].
           intros <-. congruence.
      * intros Hn Hin. destruct (Hm _ _ _ Hn Hin) as [h1 Hh1]. exists h1.
        rewrite lookup_insert_ne; [exact Hh1|].
        intros <-. apply Hh in Hh1. congruence.
  - split.
    + intros k h1; rewrite lookup_insert; case_decide; subst;
        [discriminate|eauto].
    + intros k s1; rewrite lookup_insert; case_decide; subst; eauto.
    + intros n s m; rewrite lookup_insert; case_decide; subst.
      * intros [= <-] Hin. apply elem_of_singleton in Hin. subst m.
        exists hm. now rewrite lookup_insert_ne.
      * intros Hn Hin. destruct (Hm _ _ _ Hn Hin) as [h1 Hh1]. exists h1.
        rewrite lookup_insert_ne; [exact Hh1|].
        intros <-. congruence.
Qed.

Lemma hset_lookup_key st key h :
  store_inv st -> String.prefix CHUNK_PREFIX key = true ->
  hset F st key h !! key = Some (RHash h).
Proof.
  intros Hinv Hkey. unfold hset.
  destruct (st !! key) as [[h0|s0]|] eqn:Ekey.
  - apply lookup_insert_eq.
  - apply (inv_set _ Hinv) in Ekey. congruence.
  - apply lookup_insert_eq.
Qed.

Lemma sadd_keeps_hash st name member key h :
  hset F st key h !! key = Some (RHash h) ->
  sadd F (hset F st key h) name member !! key = Some (RHash h).
Proof.
  intros Hk. unfold sadd.
  destruct (hset F st key h !! name) as [[h0|s0]|] eqn:Ename; [exact Hk| |].
  - rewrite lookup_insert_ne; [exact Hk|]. intros <-. congruence.
  - rewrite lookup_insert_ne; [exact Hk|]. intros <-. congruence.
Qed.

Lemma store_chunk_inv st chunk :
  store_inv st -> store_inv (store_chunk F st chunk).
Proof.
  intros Hinv. unfold store_chunk.
  set (key := CHUNK_PREFIX +:+ chunk_id chunk).
  set (h := {| h_data := _ |}).
  assert (Hkey : String.prefix CHUNK_PREFIX key = true).
  { subst key. cbn. now destruct (chunk_id chunk). }
  pose proof (hset_inv st key h Hinv Hkey) as H1.
  pose proof (hset_lookup_key st key h Hinv Hkey) as Hk1.
  assert (H2 : store_inv (sadd F (hset F st key h)
                            ("rulebook:" +:+ rulebook chunk) key)).
  { apply sadd_inv; [exact H1|reflexivity|eauto]. }
  assert (Hk2 := sadd_keeps_hash st ("rulebook:" +:+ rulebook chunk)
                   key key h Hk1).
  assert (H3 : store_inv
                 (sadd F (sadd F (hset F st key h)
                            ("rulebook:" +:+ rulebook chunk) key)
                    ("system:" +:+ system chunk) key)).
  { apply sadd_inv; [exact H2|reflexivity|eauto]. }
  apply sadd_inv; [exact H3|reflexivity|].
  exists h. unfold sadd at 1.
  destruct (_ !! ("system:" +:+ system chunk)) as [[h0|s0]|] eqn:E;
    [exact Hk2| |]; (rewrite lookup_insert_ne; [exact Hk2|]);
    intros <-; congruence.
Qed.

Lemma store_rulebook_content_inv st content :
  store_inv st -> store_inv (store_rulebook_content F st content).
Proof.
  unfold store_rulebook_content. revert st.
  induction content as [|chunk content IH]; intros st Hinv; [exact Hinv|].
  cbn [fold_left]. apply IH, store_chunk_inv, Hinv.
Qed.

Lemma chunk_keys_spec st k :
  store_inv st ->
  k ∈ chunk_keys F st <-> exists h, st !! k = Some (RHash h).
Proof.
  intros Hinv. unfold chunk_keys. rewrite elem_of_filter, elem_of_dom.
  split.
  - intros [Hp [[h|s] Hk]]; [eauto|].
    apply (inv_set _ Hinv) in Hk. congruence.
  - intros [h Hk]. split; [exact (inv_hash _ Hinv _ _ Hk)|eauto].
Qed.

Lemma smembers_index st d v :
  store_inv st -> In d dimensions ->
  smembers F st (d +:+ ":" +:+ v) = Ok (index_members st d v).
Proof.
  intros Hinv Hd. unfold smembers, index_members.
  destruct (st !! (d +:+ ":" +:+ v)) as [[h|s]|] eqn:E; try reflexivity.
  apply (inv_hash _ Hinv) in E.
  destruct Hd as [<-|[<-|[<-|[]]]]; discriminate E.
Qed.

Lemma apply_filter_index st X d v :
  store_inv st -> In d dimensions ->
  apply_filter F st (Ok X) (d, v) = Ok (X ∩ index_members st d v).
Proof.
  intros Hinv Hd. pose proof (smembers_index st d v Hinv Hd) as Hs.
  destruct Hd as [<-|[<-|[<-|[]]]].
  - change (apply_filter F st (Ok X) ("rulebook"%string, v))
      with (let! filtered_keys := smembers F st ("rulebook" +:+ ":" +:+ v) in
            Ok (X ∩ filtered_keys)).
    now rewrite Hs.
  - change (apply_filter F st (Ok X) ("system"%string, v))
      with (let! filtered_keys := smembers F st ("system" +:+ ":" +:+ v) in
            Ok (X ∩ filtered_keys)).
    now rewrite Hs.
  - change (apply_filter F st (Ok X) ("content_type"%string, v))
      with (let! filtered_keys :=
              smembers F st ("content_type" +:+ ":" +:+ v) in
            Ok (X ∩ filtered_keys)).
    now rewrite Hs.
Qed.

Lemma fold_apply_filter st items X :
  store_inv st ->
  (forall d v, In (d, v) items -> In d dimensions) ->
  exists Y,
    fold_left (apply_filter F st) items (Ok X) = Ok Y
    /\ forall k, k ∈ Y <->
         k ∈ X /\ forall d v, In (d, v) items -> k ∈ index_members st d v.
Proof.
  intros Hinv. revert X.
  induction items as [|[d v] items IH]; intros X Hd.
  - exists X. split; [reflexivity|]. intros k. cbn. tauto.
  - cbn [fold_left]. rewrite apply_filter_index; [|exact Hinv|].
    2: { apply (Hd d v). now left. }
    destruct (IH (X ∩ index_members st d v)) as (Y & HY & Hk).
    { intros d' v' Hin. apply (Hd d' v'). now right. }
    exists Y. split; [exact HY|]. intros k. rewrite Hk, elem_of_intersection.
    split.
    + intros [[HX Hdv] Hrest]. split; [exact HX|].
      intros d' v' [[= <- <-]|Hin]; eauto.
    + intros [HX Hall]. repeat split; [exact HX| |].
      * apply Hall. now left.
      * intros d' v' Hin. apply Hall. now right.
Qed.

(** C7.  On a store kept by [store_rulebook_content], and with filters
    over the dimensions rulebook, system and content_type, the candidate
    keys are, as a set: every stored chunk key when the filter map is
    absent or empty, and otherwise the keys that lie in the index set of
    each supplied dimension, that is the intersection of those sets. *)
Theorem filtered_chunks_intersect_indexes st
    (filters : option (list (string * string))) :
  store_inv st -> enumerates scan_order -> enumerates set_order ->
  (forall d v, In (d, v) (default [] filters) -> In d dimensions) ->
  exists keys,
    _get_filtered_chunks F scan_order set_order st filters = Ok keys
    /\ forall k, In k keys <->
         match default [] filters with
         | [] => exists h, st !! k = Some (RHash h)
         | items => forall d v, In (d, v) items -> k ∈ index_members st d v
         end.
Proof.
  intros Hinv Hscan Hset Hd.
  destruct filters as [[|[d v] items]|]; cbn [default] in *.
  1, 3: eexists; split; [reflexivity|]; intros k;
    rewrite (Hscan _ k); now apply chunk_keys_spec.
  cbn [_get_filtered_chunks].
  destruct (fold_apply_filter st ((d, v) :: items) (chunk_keys F st) Hinv Hd)
    as (Y & HY & Hk).
  rewrite HY. cbn [exc_bind]. eexists; split; [reflexivity|].
  intros k. rewrite (Hset _ k), Hk. split; [tauto|].
  intros Hall. split; [|exact Hall].
  apply chunk_keys_spec; [exact Hinv|].
  assert (Hin : k ∈ index_members st d v) by (apply Hall; now left).
  unfold index_members in Hin.
  destruct (st !! (d +:+ ":" +:+ v)) as [[h|s]|] eqn:E;
    try (now apply not_elem_of_empty in Hin).
  exact (inv_members _ Hinv _ _ _ E Hin).
Qed.

End StoreFacts.

(** ** Properties of the descending stable sort *)

Section SortFacts.

Context {F : pyfloat} {A : Type}.
Variable key : A -> F.

Lemma in_insert_desc (x a : A) (l : list A) :
  In a (insert_desc key x l) <-> a = x \/ In a l.
Proof.
  induction l as [|y l IH]; cbn [insert_desc In].
  - intuition congruence.
  - destruct (f_ltb (key x) (key y)); cbn [In]; [rewrite IH|];
      intuition congruence.
Qed.

Lemma in_sort_desc (a : A) (l : list A) :
  In a (sort_desc key l) <-> In a l.
Proof.
  unfold sort_desc. induction l as [|x l IH]; cbn [fold_right In].
  - tauto.
  - rewrite in_insert_desc, IH. intuition congruence.
Qed.

Lemma length_insert_desc (x : A) (l : list A) :
  length (insert_desc key x l) = S (length l).
Proof.
  induction l as [|y l IH]; cbn [insert_desc length]; [reflexivity|].
  destruct (f_ltb (key x) (key y)); cbn [length]; congruence.
Qed.

Lemma length_sort_desc (l : list A) :
  length (sort_desc key l) = length l.
Proof.
  unfold sort_desc. induction l as [|x l IH]; cbn [fold_right length];
    [reflexivity|].
  now rewrite length_insert_desc, IH.
Qed.

Lemma before_cons (x y z : A) (l : list A) :
  before x y l -> before x y (z :: l).
Proof.
  intros (l1 & l2 & l3 & ->). now exists (z :: l1), l2, l3.
Qed.

Lemma before_head (x y : A) (l : list A) :
  In y l -> before x y (x :: l).
Proof.
  intros Hin. apply in_split in Hin as (l2 & l3 & ->).
  now exists [], l2, l3.
Qed.

Lemma before_cons_inv (x y z : A) (l : list A) :
  before x y (z :: l) -> (z = x /\ In y l) \/ before x y l.
Proof.
  intros ([|z' l1] & l2 & l3 & E); cbn [app] in E; injection E as -> ->.
  - left. split; [reflexivity|]. apply in_or_app. right. now left.
  - right. now exists l1, l2, l3.
Qed.

Lemma before_nil (x y : A) : ~ before x y [].
Proof.
  intros ([|z l1] & l2 & l3 & E); discriminate E.
Qed.

(** Inserting [x] keeps the order of the elements already there; [x]
    itself lands behind an element only if its key is smaller. *)
Lemma insert_desc_before (x a b : A) (l : list A) :
  before a b (insert_desc key x l) ->
  before a b l
  \/ (a = x /\ In b l)
  \/ (b = x /\ In a l /\ f_ltb (key x) (key a) = true).
Proof.
  induction l as [|y l IH]; cbn [insert_desc].
  - intros H. apply before_cons_inv in H as [[_ []]|H].
    now apply before_nil in H.
  - destruct (f_ltb (key x) (key y)) eqn:Exy.
    + intros H. apply before_cons_inv in H as [[-> Hin]|H].
      * apply in_insert_desc in Hin as [->|Hin].
        -- right; right. repeat split; [now left|exact Exy].
        -- left. now apply before_head.
      * destruct (IH H) as [Hb|[[-> Hin]|(-> & Hin & Hlt)]].
        -- left. now apply before_cons.
        -- right; left. split; [reflexivity|now right].
        -- right; right. repeat split; [now right|exact Hlt].
    + intros H. apply before_cons_inv in H as [[-> Hin]|H].
      * right; left. now split.
      * now left.
Qed.

(** Stability: two elements leave the sort in their original order unless
    the later one has a strictly greater key. *)
Lemma sort_desc_before (a b : A) (l : list A) :
  before a b (sort_desc key l) ->
  before a b l \/ (before b a l /\ f_ltb (key b) (key a) = true).
Proof.
  unfold sort_desc. induction l as [|x l IH]; cbn [fold_right].
  - intros H. now apply before_nil in H.
  - intros H.
    apply insert_desc_before in H as [H|[[-> Hin]|(-> & Hin & Hlt)]].
    + destruct (IH H) as [Hb|[Hb Hlt]].
      * left. now apply before_cons.
      * right. split; [now apply before_cons|exact Hlt].
    + left. apply before_head. now apply (in_sort_desc b l).
    + right. split; [|exact Hlt]. apply before_head.
      now apply (in_sort_desc a l).
Qed.

End SortFacts.

Lemma before_firstn {A : Type} (x y : A) (n : nat) (l : list A) :
  before x y (firstn n l) -> before x y l.
Proof.
  intros (l1 & l2 & l3 & E). exists l1, l2, (l3 ++ skipn n l).
  rewrite <- (firstn_skipn n l) at 1. rewrite E.
  now rewrite <- !app_assoc, <- !app_comm_cons, <- app_assoc.
Qed.

Lemma before_slice_to {A : Type} (x y : A) (n : Z) (l : list A) :
  before x y (slice_to n l) -> before x y l.
Proof.
  unfold slice_to. destruct (n <? 0); apply before_firstn.
Qed.

Lemma in_firstn {A : Type} (x : A) (n : nat) (l : list A) :
  In x (firstn n l) -> In x l.
Proof.
  intros H. rewrite <- (firstn_skipn n l). apply in_or_app. now left.
Qed.

Lemma in_slice_to {A : Type} (x : A) (n : Z) (l : list A) :
  In x (slice_to n l) -> In x l.
Proof.
  unfold slice_to. destruct (n <? 0); apply in_firstn.
Qed.

Lemma slice_to_all {A : Type} (n : Z) (l : list A) :
  Z.of_nat (length l) <= n -> slice_to n l = l.
Proof.
  intros Hn. unfold slice_to.
  destruct (n <? 0) eqn:E; [lia|].
  apply firstn_all2. lia.
Qed.

(** ** Properties of vector search *)

Section VectorSearchFacts.

Variable F : pyfloat.
Variable scan_order : gset string -> list string.
Variable set_order : gset string -> list string.

Implicit Types st : gmap string (rvalue F).

Lemma cosine_length_mismatch (vec1 vec2 : list F) :
  length vec1 <> length vec2 -> _cosine_similarity F vec1 vec2 = f_zero.
Proof.
  intros Hne. unfold _cosine_similarity.
  destruct (Nat.eqb_spec (length vec1) (length vec2)) as [E|_];
    [contradiction|].
  cbn [negb]. now rewrite !orb_true_r.
Qed.

(** What the scoring loop keeps, and in which order. *)
Lemma score_candidates_in st q thr keys sims x :
  score_candidates F st q thr keys = Ok sims ->
  In x sims <->
    In (scored_key x) keys
    /\ hget_data F st (scored_key x) = Ok (Some (scored_chunk x))
    /\ truthy (embedding (scored_chunk x)) = true
    /\ scored_similarity x = _cosine_similarity F q (embedding (scored_chunk x))
    /\ f_geb (scored_similarity x) thr = true.
Proof.
  revert sims. induction keys as [|k keys IH]; intros sims;
    cbn [score_candidates].
  - intros [= <-]. cbn [In]. tauto.
  - destruct (hget_data F st k) as [o|e] eqn:Ek; cbn [exc_bind];
      [|discriminate].
    destruct (score_candidates F st q thr keys) as [rest|e] eqn:Er;
      cbn [exc_bind]; [|discriminate].
    specialize (IH rest eq_refl).
    destruct o as [d|].
    2: { intros [= <-]. rewrite IH. cbn [In]. split; [tauto|].
         intros ([<-|Hin] & Hget & Hrest); [congruence|tauto]. }
    destruct (truthy (embedding d)) eqn:Et.
    2: { intros [= <-]. rewrite IH. cbn [In]. split; [tauto|].
         intros ([<-|Hin] & Hget & Htr & Hrest); [|tauto].
         rewrite Ek in Hget. injection Hget as ->. congruence. }
    destruct (f_geb (_cosine_similarity F q (embedding d)) thr) eqn:Eg.
    2: { intros [= <-]. rewrite IH. cbn [In]. split; [tauto|].
         intros ([<-|Hin] & Hget & Htr & Hsim & Hge); [|tauto].
         rewrite Ek in Hget. injection Hget as ->.
         rewrite Hsim in Hge. congruence. }
    intros [= <-]. cbn [In]. rewrite IH. split.
    + intros [<-|H]; [|tauto].
      unfold scored_key, scored_chunk, scored_similarity. cbn [fst snd].
      repeat split; auto.
    + intros ([Hk|Hin] & Hget & Htr & Hsim & Hge); [|tauto].
      left. rewrite <- Hk, Ek in Hget. injection Hget as Hd.
      destruct x as [[xk xd] xs].
      unfold scored_key, scored_chunk, scored_similarity in *.
      cbn [fst snd] in *. now subst.
Qed.

Lemma score_candidates_before st q thr keys sims x y :
  score_candidates F st q thr keys = Ok sims ->
  before x y sims -> before (scored_key x) (scored_key y) keys.
Proof.
  revert sims. induction keys as [|k keys IH]; intros sims;
    cbn [score_candidates].
  - intros [= <-] H. now apply before_nil in H.
  - destruct (hget_data F st k) as [o|e] eqn:Ek; cbn [exc_bind];
      [|discriminate].
    destruct (score_candidates F st q thr keys) as [rest|e] eqn:Er;
      cbn [exc_bind]; [|discriminate].
    specialize (IH rest eq_refl).
    assert (Hrest : before x y rest ->
              before (scored_key x) (scored_key y) (k :: keys))
      by (intros H; apply before_cons; auto).
    destruct o as [d|]; [|intros [= <-]; exact Hrest].
    destruct (truthy (embedding d)); [|intros [= <-]; exact Hrest].
    destruct (f_geb _ thr); [|intros [= <-]; exact Hrest].
    intros [= <-] H. apply before_cons_inv in H as [[<- Hin]|H]; [|auto].
    cbn [scored_key fst]. apply before_head.
    apply (score_candidates_in st q thr keys rest y Er) in Hin. tauto.
Qed.

Lemma score_candidates_ok st q thr keys :
  (forall k, In k keys -> exists h, st !! k = Some (RHash h)) ->
  exists sims, score_candidates F st q thr keys = Ok sims.
Proof.
  induction keys as [|k keys IH]; intros Hk; cbn [score_candidates].
  - eauto.
  - destruct (Hk k (or_introl eq_refl)) as [h Hh].
    unfold hget_data at 1. rewrite Hh. cbn [exc_bind].
    destruct IH as [rest ->]; [intros k' Hin; apply Hk; now right|].
    cbn [exc_bind].
    destruct (truthy (embedding (h_data h))); [|eauto].
    destruct (f_geb _ thr); eauto.
Qed.

Lemma smembers_ok st name :
  store_inv st -> String.prefix CHUNK_PREFIX name = false ->
  exists members, smembers F st name = Ok members.
Proof.
  intros Hinv Hname. unfold smembers.
  destruct (st !! name) as [[h|s]|] eqn:E; eauto.
  apply (inv_hash _ Hinv) in E. congruence.
Qed.

Lemma apply_filter_ok st X item :
  store_inv st ->
  exists Y, apply_filter F st (Ok X) item = Ok Y /\ Y ⊆ X.
Proof.
  intros Hinv. destruct item as [d v]. cbn [apply_filter exc_bind].
  destruct (String.eqb d "rulebook").
  { destruct (smembers_ok st ("rulebook:" +:+ v) Hinv eq_refl) as [m ->].
    cbn [exc_bind]. eexists; split; [reflexivity|].
    apply intersection_subseteq_l. }
  destruct (String.eqb d "system").
  { destruct (smembers_ok st ("system:" +:+ v) Hinv eq_refl) as [m ->].
    cbn [exc_bind]. eexists; split; [reflexivity|].
    apply intersection_subseteq_l. }
  destruct (String.eqb d "content_type").
  { destruct (smembers_ok st ("content_type:" +:+ v) Hinv eq_refl) as [m ->].
    cbn [exc_bind]. eexists; split; [reflexivity|].
    apply intersection_subseteq_l. }
  eexists; split; reflexivity.
Qed.

Lemma fold_apply_filter_ok st items X :
  store_inv st ->
  exists Y, fold_left (apply_filter F st) items (Ok X) = Ok Y /\ Y ⊆ X.
Proof.
  intros Hinv. revert X. induction items as [|item items IH]; intros X.
  - exists X. split; reflexivity.
  - cbn [fold_left].
    destruct (apply_filter_ok st X item Hinv) as (Y & -> & HY).
    destruct (IH Y) as (Y' & -> & HY').
    exists Y'. split; [reflexivity|]. now transitivity Y.
Qed.

(** On a well-kept store the candidate keys are always obtained, and each
    of them is the key of a stored chunk. *)
Lemma get_filtered_chunks_ok st filters :
  store_inv st -> enumerates scan_order -> enumerates set_order ->
  exists keys,
    _get_filtered_chunks F scan_order set_order st filters = Ok keys
    /\ forall k, In k keys -> exists h, st !! k = Some (RHash h).
Proof.
  intros Hinv Hscan Hset.
  destruct filters as [[|item items]|]; cbn [_get_filtered_chunks].
  1, 3: eexists; split; [reflexivity|]; intros k Hk;
    apply Hscan in Hk; now apply (chunk_keys_spec F st k Hinv).
  destruct (fold_apply_filter_ok st (item :: items) (chunk_keys F st) Hinv)
    as (Y & -> & HY).
  cbn [exc_bind]. eexists; split; [reflexivity|].
  intros k Hk. apply Hset in Hk.
  apply (chunk_keys_spec F st k Hinv). now apply HY.
Qed.

(** [vector_search] in terms of the scored candidates. *)
Lemma vector_search_unfold st q filters max_results thr keys sims :
  _get_filtered_chunks F scan_order set_order st filters = Ok keys ->
  score_candidates F st q thr keys = Ok sims ->
  ranked_candidates F scan_order set_order st q filters max_results thr
    = Ok (slice_to max_results (sort_desc scored_similarity sims))
  /\ vector_search F scan_order set_order st q filters max_results thr
     = map (semantic_result F)
         (slice_to max_results (sort_desc scored_similarity sims)).
Proof.
  intros Hkeys Hsims.
  assert (Hr : ranked_candidates F scan_order set_order st q filters
                 max_results thr
               = Ok (slice_to max_results (sort_desc scored_similarity sims))).
  { unfold ranked_candidates. rewrite Hkeys. cbn [exc_bind].
    destruct keys as [|k keys]; cbn [truthy negb].
    - cbn in Hsims. injection Hsims as <-. cbn.
      unfold slice_to. destruct (max_results <? 0); now rewrite firstn_nil.
    - rewrite Hsims. reflexivity. }
  split; [exact Hr|]. unfold vector_search. now rewrite Hr.
Qed.

Lemma vector_search_in st q filters max_results thr r :
  In r (vector_search F scan_order set_order st q filters max_results thr) ->
  exists keys sims x,
    _get_filtered_chunks F scan_order set_order st filters = Ok keys
    /\ score_candidates F st q thr keys = Ok sims
    /\ In x sims /\ r = semantic_result F x.
Proof.
  unfold vector_search, ranked_candidates.
  destruct (_get_filtered_chunks F scan_order set_order st filters)
    as [keys|e] eqn:Hkeys; cbn [exc_bind try_except]; [|intros []].
  destruct (truthy keys); cbn [negb exc_bind try_except]; [|intros []].
  destruct (score_candidates F st q thr keys) as [sims|e] eqn:Hsims;
    cbn [exc_bind try_except]; [|intros []].
  intros Hin. apply in_map_iff in Hin as (x & <- & Hx).
  apply in_slice_to, in_sort_desc in Hx.
  exists keys, sims, x. auto.
Qed.

End VectorSearchFacts.

Lemma enumerates_elements : enumerates elements.
Proof.
  intros X k. rewrite <- list_elem_of_In. apply elem_of_elements.
Qed.

Lemma enumerates_keys_first (first : list string) :
  enumerates (keys_first first).
Proof.
  intros X k. unfold keys_first.
  rewrite in_app_iff, !filter_In, bool_decide_eq_true, negb_true_iff,
    bool_decide_eq_false, <- !list_elem_of_In, elem_of_elements.
  destruct (decide (k ∈ first)); tauto.
Qed.

Section RankingFacts.

Variable F : pyfloat.
Variable scan_order : gset string -> list string.
Variable set_order : gset string -> list string.

Implicit Types st : gmap string (rvalue F).

(** C6.  On a well-kept store the candidate keys [keys] and the list
    [similarities] of kept candidates are always obtained, and the search
    returns the kept candidates sorted and cut to [max_results].  A
    candidate with stored data and a non-empty vector is kept exactly when
    its similarity is at or above the threshold: it is in [similarities]
    when [similarity >= threshold] (equality included), and no entry of
    [similarities], hence no result, carries its key when the similarity
    is strictly below.  Kept candidates are all returned when
    [max_results] does not cut the list. *)
Theorem threshold_keeps_at_or_above st q filters max_results thr :
  lt_excludes_ge F ->
  store_inv st -> enumerates scan_order -> enumerates set_order ->
  exists keys similarities,
    _get_filtered_chunks F scan_order set_order st filters = Ok keys
    /\ score_candidates F st q thr keys = Ok similarities
    /\ vector_search F scan_order set_order st q filters max_results thr
       = map (semantic_result F)
           (slice_to max_results (sort_desc scored_similarity similarities))
    /\ (Z.of_nat (length similarities) <= max_results ->
        forall x, In x similarities ->
          In (semantic_result F x)
             (vector_search F scan_order set_order st q filters max_results
                thr))
    /\ forall k chunk,
         In k keys -> hget_data F st k = Ok (Some chunk) ->
         embedding chunk <> [] ->
         let similarity := _cosine_similarity F q (embedding chunk) in
         (f_geb similarity thr = true -> In (k, chunk, similarity) similarities)
         /\ (f_ltb similarity thr = true ->
             forall x, In x similarities -> scored_key x <> k).
Proof.
  intros Hlaw Hinv Hscan Hset.
  destruct (get_filtered_chunks_ok F scan_order set_order st filters
              Hinv Hscan Hset) as (keys & Hkeys & Hstored).
  destruct (score_candidates_ok F st q thr keys Hstored) as [sims Hsims].
  destruct (vector_search_unfold F scan_order set_order st q filters
              max_results thr keys sims Hkeys Hsims) as [_ Hvs].
  exists keys, sims. split; [exact Hkeys|]. split; [exact Hsims|].
  split; [exact Hvs|]. split.
  - intros Hmax x Hx. rewrite Hvs. apply in_map.
    rewrite slice_to_all by (now rewrite length_sort_desc).
    now apply in_sort_desc.
  - intros k chunk Hk Hget Hvec. cbv zeta. split.
    + intros Hge.
      apply (score_candidates_in F st q thr keys sims _ Hsims).
      unfold scored_key, scored_chunk, scored_similarity. cbn [fst snd].
      repeat split; try assumption.
      destruct (embedding chunk); [contradiction|reflexivity].
    + intros Hlt x Hx <-.
      apply (score_candidates_in F st q thr keys sims _ Hsims) in Hx
        as (_ & Hget' & _ & Hsim & Hge).
      rewrite Hget in Hget'. injection Hget' as ->.
      rewrite Hsim in Hge. apply Hlaw in Hlt. congruence.
Qed.

(** C10.  The store's cosine similarity of two vectors of different
    lengths is 0.0; hence, under a strictly positive threshold, every
    result of a vector search has a stored vector of the query's
    dimension: a chunk whose vector has another length is never
    returned. *)
Theorem dimension_mismatch_never_returned st q filters max_results thr :
  lt_excludes_ge F ->
  f_ltb f_zero thr = true ->
  (forall v, length v <> length q -> _cosine_similarity F q v = f_zero)
  /\ forall r,
       In r (vector_search F scan_order set_order st q filters max_results thr)
       -> length (embedding (content_chunk r)) = length q.
Proof.
  intros Hlaw Hthr. split.
  - intros v Hv. apply cosine_length_mismatch. congruence.
  - intros r Hr.
    apply vector_search_in in Hr as (keys & sims & x & _ & Hsims & Hx & ->).
    apply (score_candidates_in F st q thr keys sims x Hsims) in Hx
      as (_ & _ & _ & Hsim & Hge).
    cbn [semantic_result content_chunk].
    destruct (Nat.eq_dec (length q) (length (embedding (scored_chunk x))))
      as [E|Hne]; [now symmetry|].
    rewrite Hsim, (cosine_length_mismatch F _ _ Hne) in Hge.
    apply Hlaw in Hthr. congruence.
Qed.

(** C2 (amended).  The results of a vector search are the ranked
    candidates, one result each.  Two ranked candidates with equal
    similarity scores stand in the order in which their keys were
    enumerated by the store: the sort is stable and compares scores only,
    and nothing orders ties by chunk id.  The enumeration order is all
    that the results depend on besides the store and the query: any
    enumeration that yields the same list of candidate keys gives the same
    results in the same order. *)
Theorem ties_follow_enumeration st q filters max_results thr keys ranked x y :
  eq_excludes_lt F ->
  _get_filtered_chunks F scan_order set_order st filters = Ok keys ->
  ranked_candidates F scan_order set_order st q filters max_results thr
    = Ok ranked ->
  before x y ranked ->
  f_eqb (scored_similarity x) (scored_similarity y) = true ->
  vector_search F scan_order set_order st q filters max_results thr
    = map (semantic_result F) ranked
  /\ before (scored_key x) (scored_key y) keys
  /\ (forall scan_order' set_order',
        _get_filtered_chunks F scan_order' set_order' st filters = Ok keys ->
        vector_search F scan_order' set_order' st q filters max_results thr
        = vector_search F scan_order set_order st q filters max_results thr).
Proof.
  intros Hlaw Hkeys Hranked Hbefore Heq. split.
  { unfold vector_search. now rewrite Hranked. }
  split.
  2: { intros scan_order' set_order' Hkeys'.
       unfold vector_search, ranked_candidates. now rewrite Hkeys, Hkeys'. }
  unfold ranked_candidates in Hranked. rewrite Hkeys in Hranked.
  cbn [exc_bind] in Hranked.
  destruct (truthy keys); cbn [negb] in Hranked.
  2: { injection Hranked as <-. now apply before_nil in Hbefore. }
  destruct (score_candidates F st q thr keys) as [sims|e] eqn:Hsims;
    cbn [exc_bind] in Hranked; [|discriminate].
  injection Hranked as <-.
  apply before_slice_to, sort_desc_before in Hbefore as [Hb|[_ Hlt]].
  - exact (score_candidates_before F st q thr keys sims x y Hsims Hb).
  - apply Hlaw in Heq. congruence.
Qed.

End RankingFacts.

(** ** The ranking and filtering properties on concrete stores *)

Lemma tie_store_inv : store_inv tie_store.
Proof.
  apply store_rulebook_content_inv, store_inv_empty.
Qed.

Lemma abc_store_inv : store_inv abc_store.
Proof.
  apply store_rulebook_content_inv, store_inv_empty.
Qed.

(** The filter example: {document: X, system: S1} selects exactly A. *)
Example filter_example :
  _get_filtered_chunks binary64 elements elements abc_store
    (Some [("rulebook", "X"); ("system", "S1")])
  = Ok ["chunk:A"].
Proof. vm_compute. reflexivity. Qed.

Lemma filtered_chunks_intersect_indexes_witness :
  exists keys,
    _get_filtered_chunks binary64 elements elements abc_store
      (Some [("rulebook", "X"); ("system", "S1")]) = Ok keys
    /\ forall k, In k keys <->
         forall d v, In (d, v) [("rulebook", "X"); ("system", "S1")] ->
                     k ∈ index_members abc_store d v.
Proof.
  apply (filtered_chunks_intersect_indexes binary64 elements elements
           abc_store (Some [("rulebook", "X"); ("system", "S1")])).
  - exact abc_store_inv.
  - exact enumerates_elements.
  - exact enumerates_elements.
  - intros d v [[= <- <-]|[[= <- <-]|[]]]; cbn; tauto.
Defined.

(** C2 (counterexample).  On a store that enumerates "chunk:b" before
    "chunk:a", two chunks with the same vector come back with equal scores
    and in that order: b before a. *)
Lemma ranking_ties_not_by_id :
  ~ ties_ascending_by_id
      (vector_search binary64 b_then_a elements tie_store unit_query None 10
         default_similarity_threshold).
Proof.
  intros Hclaim.
  assert (Hres : exists r1 r2,
             vector_search binary64 b_then_a elements tie_store unit_query
               None 10 default_similarity_threshold = [r1; r2]
             /\ f_eqb (relevance_score r1) (relevance_score r2) = true
             /\ String.leb (chunk_id (content_chunk r1))
                           (chunk_id (content_chunk r2)) = false).
  { do 2 eexists. split; [vm_compute; reflexivity|].
    split; vm_compute; reflexivity. }
  destruct Hres as (r1 & r2 & E & Heq & Hleb).
  rewrite E in Hclaim.
  assert (Hb : before r1 r2 [r1; r2]) by now exists [], [], [].
  specialize (Hclaim r1 r2 Hb Heq). congruence.
Qed.

Lemma ties_follow_enumeration_witness :
  before "chunk:b"%string "chunk:a"%string
    (b_then_a (chunk_keys binary64 tie_store)).
Proof.
  refine (proj1 (proj2 (ties_follow_enumeration binary64 b_then_a elements
            tie_store unit_query None 10 default_similarity_threshold
            (b_then_a (chunk_keys binary64 tie_store)) _
            ("chunk:b"%string, _, _) ("chunk:a"%string, _, _)
            binary64_eq_excludes_lt _ _ _ _))).
  - reflexivity.
  - vm_compute. reflexivity.
  - now exists [], [], [].
  - vm_compute. reflexivity.
Defined.

Lemma threshold_keeps_at_or_above_witness :
  exists keys similarities,
    _get_filtered_chunks binary64 elements elements abc_store None = Ok keys
    /\ score_candidates binary64 abc_store unit_query
         default_similarity_threshold keys = Ok similarities
    /\ vector_search binary64 elements elements abc_store unit_query None 10
         default_similarity_threshold
       = map (semantic_result binary64)
           (slice_to 10 (sort_desc scored_similarity similarities))
    /\ (Z.of_nat (length similarities) <= 10 ->
        forall x, In x similarities ->
          In (semantic_result binary64 x)
             (vector_search binary64 elements elements abc_store unit_query
                None 10 default_similarity_threshold))
    /\ forall k chunk,
         In k keys -> hget_data binary64 abc_store k = Ok (Some chunk) ->
         embedding chunk <> [] ->
         let similarity :=
           _cosine_similarity binary64 unit_query (embedding chunk) in
         (f_geb similarity default_similarity_threshold = true ->
          In (k, chunk, similarity) similarities)
         /\ (f_ltb similarity default_similarity_threshold = true ->
             forall x, In x similarities -> scored_key x <> k).
Proof.
  apply (threshold_keeps_at_or_above binary64 elements elements abc_store
           unit_query None 10 default_similarity_threshold).
  - exact binary64_lt_excludes_ge.
  - exact abc_store_inv.
  - exact enumerates_elements.
  - exact enumerates_elements.
Defined.

(** The search on the example store: only A, whose vector is the query's,
    is returned; C is orthogonal and B has another dimension. *)
Example vector_search_example :
  map (fun r => (chunk_id (content_chunk r), match_type r))
      (vector_search binary64 elements elements abc_store unit_query None 10
         default_similarity_threshold)
  = [("A", "semantic")].
Proof. vm_compute. reflexivity. Qed.

Lemma dimension_mismatch_never_returned_witness :
  (forall v, length v <> length unit_query ->
             _cosine_similarity binary64 unit_query v = f_zero)
  /\ forall r,
       In r (vector_search binary64 elements elements abc_store unit_query
               None 10 default_similarity_threshold)
       -> length (embedding (content_chunk r)) = length unit_query.
Proof.
  apply (dimension_mismatch_never_returned binary64 elements elements
           abc_store unit_query None 10 default_similarity_threshold).
  - exact binary64_lt_excludes_ge.
  - vm_compute. reflexivity.
Defined.

(** ** Properties of the similarity functions *)

Section SimilarityFacts.

Variable F : pyfloat.

Lemma cosine_body_cases (vec1 vec2 : list F) :
  magnitudes_multiply_nonzero F ->
  cosine_body F vec1 vec2
  = Ok (if f_eqb (magnitude vec1) f_zero || f_eqb (magnitude vec2) f_zero
        then f_zero else cosine vec1 vec2).
Proof.
  intros Hlaw. unfold cosine_body. fold (dot vec1 vec2).
  fold (magnitude vec1). fold (magnitude vec2).
  destruct (f_eqb (magnitude vec1) f_zero) eqn:E1; [reflexivity|].
  destruct (f_eqb (magnitude vec2) f_zero) eqn:E2; [reflexivity|].
  cbn [orb]. unfold py_div, magnitude in *. now rewrite (Hlaw _ _ E1 E2).
Qed.

Lemma truthy_false_nil {A : Type} (l : list A) :
  truthy l = false <-> l = [].
Proof.
  destruct l; cbn; split; congruence.
Qed.

End SimilarityFacts.

(** On binary64, whatever function without tiny results is taken for
    [** 0.5], the [try] block of [_cosine_similarity] returns a value on
    all vectors: its division is never reached with a zero divisor. *)
Corollary cosine_division_is_safe (pow_half : float -> float)
    (vec1 vec2 : list (binary64_with pow_half)) :
  roots_not_tiny pow_half ->
  exists r, cosine_body (binary64_with pow_half) vec1 vec2 = Ok r.
Proof.
  intros Hroot.
  rewrite (cosine_body_cases _ vec1 vec2
             (binary64_with_magnitudes_multiply_nonzero pow_half Hroot)).
  eauto.
Qed.



(** The same on the reals, where the magnitudes are exact. *)
Example cosine_on_reals :
  _cosine_similarity real [1%R; 0%R] [1%R; 1%R]
  = cosine ([1%R; 0%R] : list real) [1%R; 1%R].
Proof.
  pose proof (cosine_body_cases real [1%R; 0%R] [1%R; 1%R]
                real_magnitudes_multiply_nonzero) as Hbody.
  unfold _cosine_similarity. cbn [truthy negb orb length Nat.eqb].
  rewrite Hbody. cbn [try_except].
  assert (Hnz : forall v : R, (0 < v)%R ->
            (if Req_dec_T (sqrt v) 0 then true else false) = false).
  { intros v Hv. destruct (Req_dec_T (sqrt v) 0) as [E|]; [|reflexivity].
    apply sqrt_eq_0 in E; lra. }
  unfold magnitude at 1 2, py_sum.
  cbn [map fold_left f_eqb f_sqrt f_add f_mul f_zero real].
  rewrite !Hnz by lra. reflexivity.
Qed.

(** The two functions on binary64 inputs: equal vectors, a zero vector,
    and vectors of different lengths. *)
Example cosine_examples :
  _cosine_similarity binary64 [1%float; 0%float] [1%float; 0%float] = 1%float
  /\ _cosine_similarity binary64 [1%float; 0%float] [0%float; 0%float]
     = 0%float
  /\ _cosine_similarity binary64 [1%float; 0%float] [1%float] = 0%float
  /\ similarity binary64 (numpy_sequential binary64) [3%float; 4%float]
       [3%float; 4%float] = 1%float
  /\ similarity binary64 (numpy_sequential binary64) [1%float; 0%float]
       [1%float] = 0%float.
Proof. vm_compute. repeat split; reflexivity. Qed.

(** On binary64 the smallest positive number has the smallest nonzero
    square root, 2^-537, and the product of two such roots is the smallest
    positive number again, not zero. *)
Example smallest_magnitudes_multiply :
  let tiny : binary64 := 0x1p-1074%float in
  f_sqrt tiny = 0x1p-537%float
  /\ f_mul (f_sqrt tiny) (f_sqrt tiny) = tiny
  /\ f_eqb (f_mul (f_sqrt tiny) (f_sqrt tiny)) f_zero = false.
Proof. vm_compute. repeat split; reflexivity. Qed.

(** ** Properties of the search handler *)

Section HandlerFacts.

Variable F : pyfloat.
Variable _get_text_hash : string -> string.
Variable model_encode : string -> exc (list F).
Variable cache_embeddings : bool.
Variable scan_order : gset string -> list string.
Variable set_order : gset string -> list string.

Lemma vector_search_semantic st q filters max_results thr r :
  In r (vector_search F scan_order set_order st q filters max_results thr) ->
  match_type r = "semantic"%string.
Proof.
  intros Hr.
  apply vector_search_in in Hr as (_ & _ & x & _ & _ & _ & ->).
  reflexivity.
Qed.

Lemma keyword_candidates_keyword st query_lower keys results r :
  keyword_candidates F st query_lower keys = Ok results ->
  In r results -> match_type r = "keyword"%string.
Proof.
  revert results. induction keys as [|k keys IH]; intros results;
    cbn [keyword_candidates].
  - intros [= <-] [].
  - destruct (hget_data F st k) as [o|e]; cbn [exc_bind]; [|discriminate].
    destruct (keyword_candidates F st query_lower keys) as [rest|e];
      cbn [exc_bind]; [|discriminate].
    specialize (IH rest eq_refl).
    destruct o as [d|]; [|intros [= <-]; exact IH].
    destruct (f_gtb _ _); [|intros [= <-]; exact IH].
    intros [= <-] [<-|Hin]; [reflexivity|auto].
Qed.

Lemma keyword_search_keyword st query filters r :
  In r (keyword_search F scan_order set_order st query filters) ->
  match_type r = "keyword"%string.
Proof.
  unfold keyword_search.
  destruct (_get_filtered_chunks F scan_order set_order st filters)
    as [keys|e]; cbn [exc_bind try_except]; [|intros []].
  destruct (keyword_candidates F st (lower query) keys) as [results|e] eqn:E;
    cbn [exc_bind try_except]; [|intros []].
  intros Hin. apply in_sort_desc in Hin.
  exact (keyword_candidates_keyword st _ keys results r E Hin).
Qed.

(** C5 (amended).  Keyword search is called exactly when the fallback is
    enabled and the vector results are empty, whether vector search
    returned nothing or was skipped because the query has no embedding;
    vector search is called exactly when the query embedding is not
    empty.  The list returned is the vector results followed by the
    keyword results, and it never mixes the two tags: its results are all
    semantic or all keyword. *)
Theorem keyword_fallback_on_empty_vector_results
    (config : SearchConfig F) (st : gmap string (rvalue F))
    (cache : gmap string (list F)) (arguments : search_arguments)
    (outcome : search_outcome F) :
  _handle_search_rulebook F _get_text_hash model_encode cache_embeddings
    scan_order set_order config st cache arguments = Some outcome ->
  (In KeywordSearchCall (calls outcome) <->
     enable_keyword_fallback F config = true /\ vector_results outcome = [])
  /\ (In VectorSearchCall (calls outcome) <->
        fst (generate_embedding F _get_text_hash model_encode cache_embeddings
               cache (default EmptyString (arg_query arguments))) <> [])
  /\ all_results outcome = vector_results outcome ++ keyword_results outcome
  /\ ((forall r, In r (all_results outcome) ->
                 match_type r = "semantic"%string)
      \/ (forall r, In r (all_results outcome) ->
                    match_type r = "keyword"%string)).
Proof.
  unfold _handle_search_rulebook.
  destruct (negb (str_truthy (default EmptyString (arg_query arguments))));
    [discriminate|].
  set (filters := if negb _ then _ else _).
  set (max_results := default _ (arg_max_results arguments)).
  set (emb := fst (generate_embedding _ _ _ _ _ _)).
  destruct emb as [|e0 emb'] eqn:Eemb; cbn [truthy].
  - (* no embedding: vector search is skipped *)
    destruct (enable_keyword_fallback F config) eqn:Efb;
      cbn [negb andb truthy]; intros [= <-];
      cbn [calls vector_results keyword_results all_results app In];
      (split; [intuition congruence|]);
      (split; [intuition congruence|]); (split; [reflexivity|]).
    + right. intros r Hr. apply in_slice_to in Hr.
      now apply keyword_search_keyword in Hr.
    + left. intros r [].
  - (* vector search is attempted *)
    set (vr := vector_search _ _ _ _ _ _ _ _).
    assert (Hsem : forall r, In r vr -> match_type r = "semantic"%string)
      by (intros r; apply vector_search_semantic).
    destruct (enable_keyword_fallback F config) eqn:Efb;
      destruct vr as [|r0 vr'] eqn:Evr; cbn [negb andb truthy];
      intros [= <-];
      cbn [calls vector_results keyword_results all_results app In];
      (split; [intuition congruence|]);
      (split; [intuition congruence|]); (split; [reflexivity|]).
    + right. intros r Hr. apply in_slice_to in Hr.
      now apply keyword_search_keyword in Hr.
    + left. intros r Hr. rewrite app_nil_r in Hr. now apply Hsem.
    + left. intros r [].
    + left. intros r Hr. rewrite app_nil_r in Hr. now apply Hsem.
Qed.

End HandlerFacts.

(** C5 (counterexample).  A query of one space passes the emptiness test
    of the handler but has no embedding: vector search is not attempted,
    and keyword search runs all the same. *)
Lemma keyword_search_without_vector_search :
  exists outcome,
    example_search " " = Some outcome
    /\ calls outcome = [KeywordSearchCall]
    /\ ~ keyword_only_after_empty_vector_search true outcome.
Proof.
  eexists. split; [vm_compute; reflexivity|]. split; [reflexivity|].
  intros Hclaim. destruct Hclaim as [Hvec _]; [now left|].
  destruct Hvec as [[=]|[]].
Qed.

Lemma keyword_fallback_on_empty_vector_results_witness :
  exists outcome,
    example_search "dragon" = Some outcome
    /\ (In KeywordSearchCall (calls outcome) <->
          true = true /\ vector_results outcome = [])
    /\ ((forall r, In r (all_results outcome) ->
                   match_type r = "semantic"%string)
        \/ (forall r, In r (all_results outcome) ->
                      match_type r = "keyword"%string)).
Proof.
  destruct (example_search "dragon") as [outcome|] eqn:E;
    [|vm_compute in E; discriminate E].
  exists outcome. split; [reflexivity|].
  destruct (keyword_fallback_on_empty_vector_results binary64
              (fun text => text) unit_model true elements elements
              default_search_config abc_store ∅ (query_arguments "dragon")
              outcome E) as (Hkw & _ & _ & Htags).
  split; [exact Hkw|exact Htags].
Defined.

(** The handler on the example store: the unit model embeds every query
    as A's vector, so a query finds A semantically and keyword search is
    not called. *)
Example handler_example :
  option_map
    (fun o => (calls o,
               map (fun r => (chunk_id (content_chunk r), match_type r))
                   (all_results o)))
             (example_search "dragon")
  = Some ([VectorSearchCall], [("A", "semantic")]).
Proof. vm_compute. reflexivity. Qed.

(** ** Properties of batch embedding *)

Section BatchFacts.

Variable F : pyfloat.
Variable _get_text_hash : string -> string.
Variable cache_embeddings : bool.
Variable cache : gmap string (list F).

Lemma is_pending_slot (text : string) :
  is_pending _get_text_hash cache text = true
  <-> cached_slot _get_text_hash cache text = None.
Proof.
  unfold is_pending, cached_slot.
  destruct (is_blank text); cbn [negb andb]; [split; discriminate|].
  destruct (cache !! _get_text_hash text); split; congruence.
Qed.

Lemma lookup_fold (l : list string) (n : nat)
    (st : lookup_state F) :
  fold_left (lookup_step F _get_text_hash cache)
    (combine (seq n (length l)) l) st
  = {| looked_up := looked_up st ++ map (cached_slot _get_text_hash cache) l;
       uncached_texts :=
         uncached_texts st
         ++ map (fun it => strip (snd it))
              (List.filter (fun it => is_pending _get_text_hash cache (snd it))
                 (combine (seq n (length l)) l));
       uncached_indices :=
         uncached_indices st
         ++ map fst
              (List.filter (fun it => is_pending _get_text_hash cache (snd it))
                 (combine (seq n (length l)) l)) |}.
Proof.
  revert n st. induction l as [|text l IH]; intros n st.
  - cbn. rewrite !app_nil_r. now destruct st.
  - cbn [length seq combine fold_left]. rewrite IH. clear IH.
    cbn [List.filter snd map]. unfold lookup_step, is_pending, cached_slot.
    destruct (is_blank text); [|destruct (cache !! _get_text_hash text)];
      cbn [negb andb looked_up uncached_texts uncached_indices map fst snd];
      now rewrite <- ?app_assoc.
Qed.

Lemma lookup_slice {A : Type} (l : list A) (i n q : nat) :
  (q < n)%nat -> slice i n l !! q = l !! (i + q)%nat.
Proof.
  intros Hq. unfold slice. now rewrite lookup_take_lt, lookup_drop.
Qed.

Lemma length_slice {A : Type} (l : list A) (i n : nat) :
  length (slice i n l) = Nat.min n (length l - i).
Proof.
  unfold slice. now rewrite length_take, length_drop.
Qed.

Lemma NoDup_slice {A : Type} (l : list A) (i n : nat) :
  NoDup l -> NoDup (slice i n l).
Proof.
  intros Hnd. unfold slice.
  eapply sublist_NoDup; [|apply sublist_take].
  eapply sublist_NoDup; [exact Hnd|apply sublist_drop].
Qed.

Lemma in_slice {A : Type} (l : list A) (i n : nat) (x : A) :
  In x (slice i n l) -> In x l.
Proof.
  unfold slice. intros H. apply in_firstn in H.
  rewrite <- (firstn_skipn i l). apply in_or_app. now right.
Qed.

(** The inner loop writes row [q] of the model's answer at the index that
    the batch holds at position [j + q], and nothing else. *)
Lemma store_batch_writes (bi : list nat) (bt : list string) :
  NoDup bi -> length bi = length bt ->
  forall (vs : list (list F)) (j : nat) (st : embed_state F),
    (j + length vs <= length bi)%nat ->
    (forall i, In i bi -> (i < length (embeddings st))%nat) ->
    exists st',
      store_batch F _get_text_hash cache_embeddings bi bt j vs st = (st', None)
      /\ length (embeddings st') = length (embeddings st)
      /\ (forall q i, bi !! (j + q)%nat = Some i -> (q < length vs)%nat ->
            embeddings st' !! i = Some (vs !! q))
      /\ (forall i, (forall q, (q < length vs)%nat ->
                               bi !! (j + q)%nat <> Some i) ->
            embeddings st' !! i = embeddings st !! i).
Proof.
  intros Hnd Hlen vs. induction vs as [|v vs IH]; intros j st Hj Hrange.
  - exists st. cbn [store_batch length].
    split; [reflexivity|]. split; [reflexivity|].
    split; [intros q i _ Hq; lia|auto].
  - cbn [length] in Hj. cbn [store_batch].
    destruct (lookup_lt_is_Some_2 bi j ltac:(lia)) as [i0 Hi0].
    destruct (lookup_lt_is_Some_2 bt j ltac:(lia)) as [t0 Ht0].
    rewrite Hi0, Ht0.
    assert (Hi0E : (i0 < length (embeddings st))%nat).
    { apply Hrange. apply list_elem_of_In, list_elem_of_lookup. eauto. }
    destruct (Nat.ltb_spec i0 (length (embeddings st))) as [_|]; [|lia].
    set (written := <[i0 := Some v]> (embeddings st)).
    assert (Hnext : forall c, exists st',
      store_batch F _get_text_hash cache_embeddings bi bt (S j) vs
        {| embeddings := written; cache_of := c |} = (st', None)
      /\ length (embeddings st') = length (embeddings st)
      /\ (forall q i, bi !! (j + q)%nat = Some i -> (q < S (length vs))%nat ->
            embeddings st' !! i = Some ((v :: vs) !! q))
      /\ (forall i, (forall q, (q < S (length vs))%nat ->
                               bi !! (j + q)%nat <> Some i) ->
            embeddings st' !! i = embeddings st !! i)).
    { intros c.
      destruct (IH (S j) {| embeddings := written; cache_of := c |})
        as (st' & Hrun & Hl & Hw & Ho).
      { lia. }
      { intros i Hi. cbn [embeddings]. subst written.
        rewrite length_insert. now apply Hrange. }
      cbn [embeddings] in *. subst written. rewrite length_insert in Hl.
      exists st'. split; [exact Hrun|]. split; [exact Hl|]. split.
      - intros [|q] i Hq Hlt.
        + rewrite Nat.add_0_r, Hi0 in Hq. injection Hq as <-.
          rewrite Ho.
          * now apply list_lookup_insert_eq.
          * intros q Hq Hdup.
            pose proof (NoDup_lookup bi _ _ _ Hnd Hi0 Hdup). lia.
        + cbn [lookup]. apply Hw; [|lia].
          now replace (S j + q)%nat with (j + S q)%nat by lia.
      - intros i Hother. rewrite Ho.
        + apply list_lookup_insert_ne. intros <-.
          apply (Hother 0%nat); [lia|]. now rewrite Nat.add_0_r.
        + intros q Hq. replace (S j + q)%nat with (j + S q)%nat by lia.
          apply Hother. lia. }
    destruct cache_embeddings; apply Hnext.
Qed.

Section ProcessBatches.

Variable enc : string -> option (list F).
Variable pending_indices : list nat.
Variable pending_texts : list string.
Variable batch_size : nat.
Variable initial : list (option (list F)).

Hypothesis batch_size_pos : (0 < batch_size)%nat.
Hypothesis pending_lengths : length pending_indices = length pending_texts.
Hypothesis pending_NoDup : NoDup pending_indices.
Hypothesis pending_range :
  forall i, In i pending_indices -> (i < length initial)%nat.

Local Abbreviation written :=
  (written_before enc pending_indices pending_texts batch_size initial).

Lemma written_one_more (k : nat) (st : embed_state F)
    (vectors : list (list F)) :
  written k (embeddings st) ->
  mapM enc (slice (k * batch_size) batch_size pending_texts) = Some vectors ->
  exists st',
    store_batch F _get_text_hash cache_embeddings
      (slice (k * batch_size) batch_size pending_indices)
      (slice (k * batch_size) batch_size pending_texts) 0 vectors st
    = (st', None)
    /\ batch_ok enc pending_texts batch_size k
    /\ written (S k) (embeddings st').
Proof.
  intros (HlenE & Hpend & Hother) Hvs.
  set (bi := slice (k * batch_size) batch_size pending_indices).
  set (bt := slice (k * batch_size) batch_size pending_texts) in *.
  pose proof (proj1 (mapM_Some _ _ _) Hvs) as Hall.
  pose proof (Forall2_length _ _ _ Hall) as Hlenv.
  assert (Hlenb : length bi = length bt).
  { subst bi bt. rewrite !length_slice. now rewrite pending_lengths. }
  destruct (store_batch_writes bi bt (NoDup_slice _ _ _ pending_NoDup) Hlenb
              vectors 0%nat st) as (st' & Hrun & Hl & Hw & Ho).
  { lia. }
  { intros i Hi. rewrite HlenE. apply pending_range. eapply in_slice, Hi. }
  exists st'. split; [exact Hrun|]. split.
  { intros t Ht. apply list_elem_of_In, list_elem_of_lookup in Ht as [q Hq].
    destruct (Forall2_lookup_l _ _ _ _ _ Hall Hq) as (v & _ & Hv).
    congruence. }
  assert (Hbi : forall q, (q < batch_size)%nat ->
            bi !! q = pending_indices !! (k * batch_size + q)%nat)
    by (intros q Hq; now apply lookup_slice).
  assert (Hbt : forall q, (q < batch_size)%nat ->
            bt !! q = pending_texts !! (k * batch_size + q)%nat)
    by (intros q Hq; now apply lookup_slice).
  assert (Hout : forall p i,
            pending_indices !! p = Some i ->
            (p < k * batch_size \/ S k * batch_size <= p)%nat ->
            embeddings st' !! i = embeddings st !! i).
  { intros p i Hp Hrange. apply Ho. intros q Hq Hdup. cbn [Nat.add] in Hdup.
    assert (Hqb : (q < batch_size)%nat).
    { rewrite <- Hlenv in Hq. subst bt. rewrite length_slice in Hq. lia. }
    rewrite (Hbi q Hqb) in Hdup.
    pose proof (NoDup_lookup _ _ _ _ pending_NoDup Hp Hdup). lia. }
  split; [now rewrite Hl|]. split.
  - intros p i t Hp Ht. split.
    + intros Hlt.
      destruct (Nat.lt_ge_cases p (k * batch_size)) as [Hold|Hnew].
      * rewrite (Hout p i Hp (or_introl Hold)).
        now apply (Hpend p i t Hp Ht).
      * set (q := (p - k * batch_size)%nat).
        assert (Hqb : (q < batch_size)%nat) by (subst q; lia).
        assert (Hpq : (k * batch_size + q)%nat = p) by (subst q; lia).
        assert (Hbtq : bt !! q = Some t) by (now rewrite (Hbt q Hqb), Hpq).
        assert (Hbiq : bi !! q = Some i) by (now rewrite (Hbi q Hqb), Hpq).
        destruct (Forall2_lookup_l _ _ _ _ _ Hall Hbtq) as (v & Hv & Henc).
        rewrite (Hw q i Hbiq (lookup_lt_Some _ _ _ Hv)), Hv, Henc.
        split; [discriminate|reflexivity].
    + intros Hge. rewrite (Hout p i Hp (or_intror Hge)).
      apply (Hpend p i t Hp Ht). lia.
  - intros i Hi. rewrite Ho; [now apply Hother|].
    intros q Hq Hin. apply Hi.
    apply (in_slice _ (k * batch_size) batch_size).
    apply list_elem_of_In, list_elem_of_lookup. eauto.
Qed.

(** Running the batches numbered [k], ..., [k + m - 1]: either all of them
    succeed and are written, or the run stops at the first batch that
    fails, with the batches before it written. *)
Lemma process_batches_from (m : nat) :
  forall (k : nat) (st : embed_state F),
    written k (embeddings st) ->
    exists st' raised,
      process_batches F _get_text_hash (encode_all enc) cache_embeddings
        {| looked_up := initial;
           uncached_texts := pending_texts;
           uncached_indices := pending_indices |}
        batch_size (map (fun j => (j * batch_size)%nat) (seq k m)) st
      = (st', raised)
      /\ match raised with
         | None =>
             (forall j, (k <= j < k + m)%nat ->
                        batch_ok enc pending_texts batch_size j)
             /\ written (k + m) (embeddings st')
         | Some _ =>
             exists failed,
               (k <= failed < k + m)%nat
               /\ (forall j, (k <= j < failed)%nat ->
                              batch_ok enc pending_texts batch_size j)
               /\ ~ batch_ok enc pending_texts batch_size failed
               /\ written failed (embeddings st')
         end.
Proof.
  induction m as [|m IH]; intros k st Hinv.
  - exists st, None. cbn [seq map process_batches].
    split; [reflexivity|]. rewrite Nat.add_0_r.
    split; [intros j Hj; lia|exact Hinv].
  - cbn [seq map process_batches uncached_texts uncached_indices].
    unfold encode_all at 1.
    destruct (mapM enc (slice (k * batch_size) batch_size pending_texts))
      as [vectors|] eqn:Hvs.
    + destruct (written_one_more k st vectors Hinv Hvs)
        as (st1 & -> & Hok & Hinv1).
      destruct (IH (S k) st1 Hinv1) as (st' & raised & -> & Hres).
      exists st', raised. split; [reflexivity|].
      destruct raised as [e|].
      * destruct Hres as (failed & Hrange & Hbefore & Hfail & Hw).
        exists failed. split; [lia|]. split; [|now split].
        intros j Hj. destruct (Nat.eq_dec j k) as [->|Hne]; [exact Hok|].
        apply Hbefore. lia.
      * destruct Hres as [Hall Hw]. split.
        -- intros j Hj. destruct (Nat.eq_dec j k) as [->|Hne]; [exact Hok|].
           apply Hall. lia.
        -- now replace (k + S m)%nat with (S k + m)%nat by lia.
    + exists st, (Some ValueError). split; [reflexivity|].
      exists k. split; [lia|]. split; [intros j Hj; lia|].
      split; [|exact Hinv].
      intros Hok. apply mapM_None in Hvs.
      apply Exists_exists in Hvs as (t & Ht & Hnone).
      apply list_elem_of_In in Ht. exact (Hok t Ht Hnone).
Qed.

End ProcessBatches.

Lemma in_enumerate_from {A : Type} (l : list A) (n i : nat) (x : A) :
  In (i, x) (combine (seq n (length l)) l) ->
  (n <= i)%nat /\ l !! (i - n)%nat = Some x.
Proof.
  revert n. induction l as [|y l IH]; intros n; cbn [length seq combine In].
  - intros [].
  - intros [[= <- <-]|Hin].
    + split; [lia|]. now rewrite Nat.sub_diag.
    + apply IH in Hin as [Hle Hl]. split; [lia|].
      replace (i - n)%nat with (S (i - S n)) by lia. exact Hl.
Qed.

Lemma fst_enumerate_from {A : Type} (l : list A) (n : nat) :
  map fst (combine (seq n (length l)) l) = seq n (length l).
Proof.
  revert n. induction l as [|y l IH]; intros n; cbn [length seq combine map];
    [reflexivity|]. now rewrite IH.
Qed.

Lemma NoDup_fst_filter {A B : Type} (f : A * B -> bool) (l : list (A * B)) :
  NoDup (map fst l) -> NoDup (map fst (List.filter f l)).
Proof.
  induction l as [|x l IH]; cbn [map List.filter]; [auto|].
  intros Hnd. apply NoDup_cons in Hnd as [Hx Hnd].
  destruct (f x); cbn [map]; [|auto].
  apply NoDup_cons. split; [|auto].
  intros Hin. apply Hx. apply list_elem_of_In.
  apply list_elem_of_In, in_map_iff in Hin as (y & Hy & Hin).
  apply filter_In in Hin as [Hin _]. apply in_map_iff. eauto.
Qed.

Lemma range_step_covers (n step p : nat) :
  (0 < step)%nat -> (p < n)%nat ->
  (p / step < (n + step - 1) / step)%nat.
Proof.
  intros Hs Hp. apply Nat.Div0.div_lt_upper_bound.
  pose proof (Nat.div_mod_eq (n + step - 1) step).
  pose proof (Nat.mod_upper_bound (n + step - 1) step). lia.
Qed.

Lemma fill_placeholders_lookup (E : list (option (list F))) (i : nat) :
  fill_placeholders F E !! i
  = (fun emb => match emb with None => Some [] | Some v => Some v end)
      <$> E !! i.
Proof.
  unfold fill_placeholders. apply list_lookup_fmap.
Qed.

Section Pending.

Variable texts : list string.

Lemma pending_lookup (p i : nat) (text : string) :
  pending_items _get_text_hash cache texts !! p = Some (i, text) ->
  texts !! i = Some text /\ is_pending _get_text_hash cache text = true.
Proof.
  intros Hp.
  assert (Hin : In (i, text) (pending_items _get_text_hash cache texts)).
  { apply list_elem_of_In, list_elem_of_lookup. eauto. }
  unfold pending_items in Hin.
  apply filter_In in Hin as [Hin Hpend]. split; [|exact Hpend].
  apply in_enumerate_from in Hin as [_ Hl]. now rewrite Nat.sub_0_r in Hl.
Qed.

Lemma pending_NoDup_fst :
  NoDup (map fst (pending_items _get_text_hash cache texts)).
Proof.
  unfold pending_items. apply NoDup_fst_filter. unfold enumerate.
  rewrite fst_enumerate_from. apply NoDup_seq.
Qed.

Lemma pending_fst_range (i : nat) :
  In i (map fst (pending_items _get_text_hash cache texts)) ->
  (i < length texts)%nat.
Proof.
  intros Hin. apply in_map_iff in Hin as ([i' t] & <- & Hin).
  apply list_elem_of_In, list_elem_of_lookup in Hin as [p Hp].
  apply pending_lookup in Hp as [Hl _]. cbn [fst].
  now apply lookup_lt_Some in Hl.
Qed.

Lemma not_pending_fst (i : nat) (text : string) :
  texts !! i = Some text ->
  is_pending _get_text_hash cache text = false ->
  ~ In i (map fst (pending_items _get_text_hash cache texts)).
Proof.
  intros Hl Hnp Hin. apply in_map_iff in Hin as ([i' t] & <- & Hin).
  apply list_elem_of_In, list_elem_of_lookup in Hin as [p Hp].
  apply pending_lookup in Hp as [Hl' Hpend]. cbn [fst] in *. congruence.
Qed.

Lemma lookup_all_pending :
  lookup_all F _get_text_hash cache texts
  = {| looked_up := map (cached_slot _get_text_hash cache) texts;
       uncached_texts :=
         map (fun it => strip (snd it))
             (pending_items _get_text_hash cache texts);
       uncached_indices :=
         map fst (pending_items _get_text_hash cache texts) |}.
Proof.
  unfold lookup_all, pending_items, enumerate. now rewrite lookup_fold.
Qed.

End Pending.

(** C4 (amended).  With a positive batch size and a model that fails on a
    batch as soon as it fails on one of its texts, [batch_embed] returns
    one entry per input text, in input order.  A blank text gets the
    empty vector and a cached text its cached vector, whatever the model
    does.  A pending text gets its own embedding when the model succeeds
    on its batch and on every batch before it, and the empty vector when
    its batch or an earlier batch fails: a failure is not confined to the
    failing text, it empties the rest of its batch and all later
    batches. *)
Theorem batch_failure_spans_batches (enc : string -> option (list F))
    (texts : list string) (batch_size : nat) :
  (0 < batch_size)%nat ->
  let out :=
    fst (batch_embed F _get_text_hash (encode_all enc) cache_embeddings cache
           texts (Z.of_nat batch_size)) in
  let pending := pending_items _get_text_hash cache texts in
  let sent := map (fun it => strip (snd it)) pending in
  length out = length texts
  /\ (forall i text,
        texts !! i = Some text ->
        is_pending _get_text_hash cache text = false ->
        cached_slot _get_text_hash cache text <> None
        /\ out !! i = Some (cached_slot _get_text_hash cache text))
  /\ (forall p i text,
        pending !! p = Some (i, text) ->
        texts !! i = Some text
        /\ ((forall k, (k <= p / batch_size)%nat ->
                       batch_ok enc sent batch_size k) ->
            enc (strip text) <> None /\ out !! i = Some (enc (strip text)))
        /\ ((exists k, (k <= p / batch_size)%nat
                       /\ ~ batch_ok enc sent batch_size k) ->
            out !! i = Some (Some []))).
Proof.
  intros Hbs. cbv zeta.
  destruct (truthy texts) eqn:Etexts.
  2: { apply truthy_false_nil in Etexts. subst texts. cbn.
       split; [reflexivity|].
       split; [intros i text [=]|intros p i text [=]]. }
  set (pending := pending_items _get_text_hash cache texts).
  set (sent := map (fun it => strip (snd it)) pending).
  assert (Hslot : forall i text,
            texts !! i = Some text ->
            map (cached_slot _get_text_hash cache) texts !! i
            = Some (cached_slot _get_text_hash cache text)).
  { intros i text Hi.
    change (map (cached_slot _get_text_hash cache) texts)
      with (cached_slot _get_text_hash cache <$> texts).
    now rewrite list_lookup_fmap, Hi. }
  assert (Hnp : forall text,
            is_pending _get_text_hash cache text = false ->
            cached_slot _get_text_hash cache text <> None).
  { intros text Hf Hnone. apply is_pending_slot in Hnone. congruence. }
  assert (Hsent : forall p i text,
            pending !! p = Some (i, text) ->
            map fst pending !! p = Some i /\ sent !! p = Some (strip text)).
  { intros p i text Hp. split.
    - exact (list_lookup_fmap_Some_2 fst _ _ _ Hp).
    - exact (list_lookup_fmap_Some_2
               (fun it : nat * string => strip (snd it)) _ _ _ Hp). }
  unfold batch_embed. rewrite Etexts. cbn [negb].
  rewrite lookup_all_pending.
  fold pending. fold sent. cbn [looked_up uncached_texts uncached_indices].
  destruct (truthy sent) eqn:Esent.
  2: { (* nothing is pending *)
    apply truthy_false_nil in Esent. cbn [fst].
    split; [apply length_map|]. split.
    - intros i text Hi Hf. split; [now apply Hnp|now apply Hslot].
    - intros p i text Hp. destruct (Hsent p i text Hp) as [_ Hs].
      rewrite Esent in Hs. discriminate Hs. }
  destruct (Z.eqb_spec (Z.of_nat batch_size) 0) as [|_]; [lia|].
  destruct (Z.ltb_spec (Z.of_nat batch_size) 0) as [|_]; [lia|].
  rewrite Nat2Z.id. unfold range_step.
  assert (Hlens : length (map fst pending) = length sent)
    by (subst sent; now rewrite !length_map).
  assert (Hrange : forall i, In i (map fst pending) ->
            (i < length (map (cached_slot _get_text_hash cache) texts))%nat).
  { intros i Hi. rewrite length_map. now apply pending_fst_range. }
  assert (Hstart : written_before enc (map fst pending) sent batch_size
            (map (cached_slot _get_text_hash cache) texts) 0
            (map (cached_slot _get_text_hash cache) texts)).
  { split; [reflexivity|]. split; [|reflexivity].
    intros p i t Hp Ht. split; [lia|]. intros _.
    change (map fst pending) with (fst <$> pending) in Hp.
    apply list_lookup_fmap_Some in Hp as ([i' text] & -> & Hpp).
    cbn [fst]. apply pending_lookup in Hpp as [Hi Hpend].
    rewrite (Hslot _ _ Hi). f_equal. now apply is_pending_slot. }
  destruct (process_batches_from enc (map fst pending) sent batch_size
              (map (cached_slot _get_text_hash cache) texts) Hbs Hlens
              (pending_NoDup_fst texts) Hrange
              ((length sent + batch_size - 1) / batch_size) 0
              {| embeddings := map (cached_slot _get_text_hash cache) texts;
                 cache_of := cache |} Hstart)
    as (st' & raised & -> & Hres).
  assert (Hcover : forall p, (p < length sent)%nat ->
            (p / batch_size
             < (length sent + batch_size - 1) / batch_size)%nat)
    by (intros p Hp; now apply range_step_covers).
  destruct raised as [e|].
  - (* a batch failed *)
    destruct Hres as (failed & Hf & Hbefore & Hfail & (Hlen & Hw & Ho)).
    cbn [fst]. split.
    { unfold fill_placeholders. now rewrite length_map, Hlen, length_map. }
    split.
    + intros i text Hi Hnpend. split; [now apply Hnp|].
      rewrite fill_placeholders_lookup, Ho, (Hslot _ _ Hi).
      2: now apply (not_pending_fst texts i text).
      pose proof (Hnp text Hnpend).
      now destruct (cached_slot _get_text_hash cache text).
    + intros p i text Hp.
      destruct (pending_lookup texts p i text Hp) as [Hi _].
      destruct (Hsent p i text Hp) as [Hpi Hps].
      destruct (Hw p i (strip text) Hpi Hps) as [Hlt Hge].
      split; [exact Hi|].
      destruct (Nat.lt_ge_cases p (failed * batch_size)) as [Hin|Hout].
      * destruct (Hlt Hin) as [Henc HE].
        assert (Hdiv : (p / batch_size < failed)%nat)
          by (apply Nat.Div0.div_lt_upper_bound; lia).
        split.
        -- intros _. split; [exact Henc|].
           rewrite fill_placeholders_lookup, HE.
           now destruct (enc (strip text)).
        -- intros (k & Hk & Hnot). exfalso. apply Hnot, Hbefore. lia.
      * assert (Hdiv : (failed <= p / batch_size)%nat)
          by (apply Nat.div_le_lower_bound; lia).
        split.
        -- intros Hall. exfalso. now apply Hfail, Hall.
        -- intros _. now rewrite fill_placeholders_lookup, (Hge Hout).
  - (* every batch succeeded *)
    destruct Hres as (Hall & (Hlen & Hw & Ho)). cbn [fst]. split.
    { now rewrite Hlen, length_map. }
    split.
    + intros i text Hi Hnpend. split; [now apply Hnp|].
      rewrite Ho, (Hslot _ _ Hi); [reflexivity|].
      now apply (not_pending_fst texts i text).
    + intros p i text Hp.
      destruct (pending_lookup texts p i text Hp) as [Hi _].
      destruct (Hsent p i text Hp) as [Hpi Hps].
      destruct (Hw p i (strip text) Hpi Hps) as [Hlt _].
      pose proof (Hcover p (lookup_lt_Some _ _ _ Hps)) as Hdiv.
      assert (Hin : (p < (0 + (length sent + batch_size - 1) / batch_size)
                         * batch_size)%nat).
      { cbn [Nat.add].
        pose proof (Nat.div_mod_eq p batch_size).
        pose proof (Nat.mod_upper_bound p batch_size). nia. }
      split; [exact Hi|]. split.
      * intros _. now apply Hlt.
      * intros (k & Hk & Hnot). exfalso. apply Hnot, Hall. lia.
Qed.

End BatchFacts.

(** C4 (counterexample).  One batch holding the texts "good" and "bad",
    with a model that fails on "bad": the call of the model fails as a
    whole and "good" is given the empty vector, not its embedding. *)
Lemma batch_failure_not_isolated :
  ~ per_item_isolation (fun text => text) picky_model ∅ ["good"; "bad"]
      (fst (batch_embed binary64 (fun text => text) (encode_all picky_model)
              true ∅ ["good"; "bad"] default_batch_size)).
Proof.
  intros [_ Hclaim].
  specialize (Hclaim 0%nat "good"%string eq_refl eq_refl).
  vm_compute in Hclaim. discriminate Hclaim.
Qed.

Lemma batch_failure_spans_batches_witness :
  fst (batch_embed binary64 (fun text => text) (encode_all picky_model)
         true ∅ ["good"; "bad"] (Z.of_nat 32)) !! 0%nat
  = Some (Some []).
Proof.
  destruct (batch_failure_spans_batches binary64 (fun text => text) true ∅
              picky_model ["good"; "bad"] 32 ltac:(lia)) as (_ & _ & Hpending).
  destruct (Hpending 0%nat 0%nat "good"%string ltac:(vm_compute; reflexivity))
    as (_ & _ & Hfail).
  apply Hfail. exists 0%nat. split; [cbn; lia|].
  intros Hok. apply (Hok "bad"%string); [vm_compute; tauto|reflexivity].
Defined.

(** Batch embedding on concrete inputs: with the failing text in the
    second batch of size one, the first text keeps its embedding; a blank
    text gets the empty vector without reaching the model. *)
Example batch_embed_examples :
  fst (batch_embed binary64 (fun text => text) (encode_all picky_model)
         true ∅ ["good"; "bad"; "late"] 1)
  = [Some unit_query; Some []; Some []]
  /\ fst (batch_embed binary64 (fun text => text) (encode_all picky_model)
            true ∅ ["good"; "  "; "fine"] default_batch_size)
     = [Some unit_query; Some []; Some unit_query].
Proof. vm_compute. split; reflexivity. Qed.

(** ** Further facts on lists and slices *)

Lemma length_slice_to_le {A : Type} (n : Z) (l : list A) :
  (length (slice_to n l) <= length l)%nat
  /\ (0 <= n -> Z.of_nat (length (slice_to n l)) <= n).
Proof.
  unfold slice_to. destruct (Z.ltb_spec n 0); rewrite length_firstn; lia.
Qed.


Lemma in_enumerate {A : Type} (l : list A) (i : nat) (x : A) :
  In (i, x) (enumerate l) -> l !! i = Some x.
Proof.
  intros Hin. apply in_enumerate_from in Hin as [_ Hl].
  now rewrite Nat.sub_0_r in Hl.
Qed.

(** ** Further properties of the chunker *)

Lemma split_chunks_paragraph_bound_witness :
  let gs := split_groups default_max_chunk_size
              (split_paragraphs (sec_content two_long_paragraphs)) in
  _split_section_into_chunks two_long_paragraphs default_max_chunk_size
  = map (str_join para_sep) gs
  /\ Forall (fun g =>
       g <> []
       /\ ((2 <= length g)%nat ->
           paragraphs_length g <= default_max_chunk_size
           /\ Z.of_nat (String.length (str_join para_sep g))
              <= default_max_chunk_size + 2 * (Z.of_nat (length g) - 1))) gs.
Proof.
  apply (split_chunks_paragraph_bound two_long_paragraphs
           default_max_chunk_size).
  vm_compute. reflexivity.
Defined.

Lemma str_append_assoc (a b c : string) :
  (a +:+ b) +:+ c = a +:+ (b +:+ c).
Proof.
  induction a as [|x a IH]; [reflexivity|].
  change (String x ((a +:+ b) +:+ c) = String x (a +:+ (b +:+ c))).
  now rewrite IH.
Qed.

Lemma split_chunks_groups (section : Section) (max_chunk_size : Z) :
  max_chunk_size < Z.of_nat (String.length (sec_content section)) ->
  _split_section_into_chunks section max_chunk_size
  = map (str_join para_sep)
      (split_groups max_chunk_size (split_paragraphs (sec_content section)))
  /\ Forall (fun g => g <> [])
       (split_groups max_chunk_size
          (split_paragraphs (sec_content section))).
Proof.
  intros Hlong. unfold _split_section_into_chunks, split_groups.
  destruct (Z.leb_spec (Z.of_nat (String.length (sec_content section)))
              max_chunk_size) as [|_]; [lia|].
  set (ps := split_paragraphs (sec_content section)).
  destruct (split_fold_groups max_chunk_size ps
              {| chunks := []; current_chunk := []; current_size := 0 |}
              {| groups := []; open_group := [] |} eq_refl eq_refl eq_refl)
    as [Hc Ho].
  destruct (group_fold_bound max_chunk_size ps
              {| groups := []; open_group := [] |}) as [Hg _].
  { constructor. }
  { cbn. lia. }
  rewrite Ho, Hc.
  set (gs := fold_left (group_step max_chunk_size) ps _) in *.
  assert (Hne : Forall (fun g : list string => g <> []) (groups gs)).
  { eapply Forall_impl; [exact Hg|]. now intros g [Hg1 _]. }
  destruct (open_group gs) as [|q g] eqn:E; cbn [truthy].
  - now split.
  - split; [now rewrite map_app|].
    apply Forall_app. split; [exact Hne|].
    constructor; [discriminate|constructor].
Qed.

Lemma rev_app_append (cur s : string) :
  String.rev_app cur s = String.rev_app cur EmptyString +:+ s.
Proof.
  revert s. induction cur as [|a cur IH]; intros s; [reflexivity|].
  cbn [String.rev_app]. rewrite (IH (String a s)), (IH (String a EmptyString)).
  now rewrite str_append_assoc.
Qed.

Lemma str_join_cons (sep p : string) (rest : list string) :
  rest <> [] -> str_join sep (p :: rest) = p +:+ sep +:+ str_join sep rest.
Proof.
  destruct rest; [congruence|reflexivity].
Qed.

Lemma split_go_two (cur : string) (c1 c2 : ascii) (rest : string) :
  split_go cur (String c1 (String c2 rest))
  = if Ascii.eqb c1 newline && Ascii.eqb c2 newline
    then String.rev cur :: split_go EmptyString rest
    else split_go (String c1 cur) (String c2 rest).
Proof. reflexivity. Qed.

Lemma split_go_not_nil (s cur : string) : split_go cur s <> [].
Proof.
  revert cur.
  assert (H : (forall cur, split_go cur s <> [])
              /\ forall c cur, split_go cur (String c s) <> []).
  { induction s as [|c' s [IH1 IH2]].
    - split; intros; discriminate.
    - split; [intros cur; apply IH2|].
      intros c cur. rewrite split_go_two.
      destruct (Ascii.eqb c newline && Ascii.eqb c' newline);
        [discriminate|apply IH2]. }
  apply H.
Qed.

(** Splitting at blank lines and joining with blank lines are inverse. *)
Lemma join_split_go (s : string) :
  (forall cur, str_join para_sep (split_go cur s) = String.rev_app cur s)
  /\ forall c cur,
       str_join para_sep (split_go cur (String c s))
       = String.rev_app cur (String c s).
Proof.
  induction s as [|c' s [IH1 IH2]].
  - split; intros; reflexivity.
  - split; [intros cur; apply IH2|].
    intros c cur. rewrite split_go_two.
    destruct (Ascii.eqb_spec c newline) as [->|Hc];
      [destruct (Ascii.eqb_spec c' newline) as [->|Hc']|]; cbn [andb].
    + rewrite str_join_cons by apply split_go_not_nil.
      rewrite IH1. cbn [String.rev_app].
      now rewrite (rev_app_append cur (String newline (String newline s))).
    + apply (IH2 c' (String newline cur)).
    + apply (IH2 c' (String c cur)).
Qed.

Lemma join_split_paragraphs (s : string) :
  str_join para_sep (split_paragraphs s) = s.
Proof.
  unfold split_paragraphs. now rewrite (proj1 (join_split_go s)).
Qed.

Lemma str_join_app (sep : string) (l1 l2 : list string) :
  l1 <> [] -> l2 <> [] ->
  str_join sep (l1 ++ l2) = str_join sep l1 +:+ sep +:+ str_join sep l2.
Proof.
  induction l1 as [|p l1 IH]; [congruence|]. intros _ Hl2.
  destruct l1 as [|q l1].
  - cbn [app]. now apply str_join_cons.
  - change ((p :: q :: l1) ++ l2) with (p :: ((q :: l1) ++ l2)).
    rewrite !str_join_cons by (try discriminate; destruct l1; discriminate).
    rewrite IH by (try discriminate; assumption).
    now rewrite !str_append_assoc.
Qed.

Lemma str_join_groups (gs : list (list string)) :
  Forall (fun g => g <> []) gs ->
  str_join para_sep (map (str_join para_sep) gs)
  = str_join para_sep (concat gs).
Proof.
  induction 1 as [|g gs Hg Hall IH]; [reflexivity|].
  destruct gs as [|g' gs].
  - cbn [map concat str_join]. now rewrite app_nil_r.
  - cbn [map concat] in *.
    rewrite str_join_cons by discriminate.
    rewrite IH, (str_join_app para_sep g (g' ++ concat gs));
      [reflexivity|exact Hg|].
    inversion Hall as [|? ? Hg' _]; subst.
    destruct g'; [congruence|discriminate].
Qed.

Lemma group_fold_concat (max_chunk_size : Z) (paragraphs : list string) :
  forall gs : group_state,
    let gs' := fold_left (group_step max_chunk_size) paragraphs gs in
    concat (groups gs') ++ open_group gs'
    = concat (groups gs) ++ open_group gs ++ paragraphs.
Proof.
  induction paragraphs as [|p ps IH]; intros gs; cbn [fold_left].
  - now rewrite app_nil_r.
  - cbv zeta in IH. rewrite IH. unfold group_step.
    destruct ((_ >? _) && _); cbn [groups open_group].
    + rewrite concat_app. cbn [concat]. rewrite app_nil_r.
      now rewrite <- !app_assoc.
    + now rewrite <- !app_assoc.
Qed.

Lemma concat_split_groups (max_chunk_size : Z) (paragraphs : list string) :
  concat (split_groups max_chunk_size paragraphs) = paragraphs.
Proof.
  unfold split_groups.
  pose proof (group_fold_concat max_chunk_size paragraphs
                {| groups := []; open_group := [] |}) as H.
  cbv zeta in H. cbn [groups open_group concat app] in H.
  destruct (open_group _) as [|q g] eqn:E; cbn [truthy].
  - now rewrite app_nil_r in H.
  - rewrite concat_app. cbn [concat]. now rewrite app_nil_r.
Qed.

(** X2.  No text is lost or repeated by the chunker: the chunks of a
    section, joined again by blank lines, are the content of the section,
    for every limit; in particular there is always at least one chunk. *)
Theorem chunks_rejoin_to_content (section : Section) (max_chunk_size : Z) :
  str_join para_sep (_split_section_into_chunks section max_chunk_size)
  = sec_content section
  /\ _split_section_into_chunks section max_chunk_size <> [].
Proof.
  destruct (Z.le_gt_cases (Z.of_nat (String.length (sec_content section)))
              max_chunk_size) as [Hshort|Hlong].
  - unfold _split_section_into_chunks.
    destruct (Z.leb_spec (Z.of_nat (String.length (sec_content section)))
                max_chunk_size); [|lia].
    split; [reflexivity|discriminate].
  - destruct (split_chunks_groups section max_chunk_size Hlong)
      as [Heq Hall].
    rewrite Heq. split.
    + rewrite str_join_groups by exact Hall.
      rewrite concat_split_groups. apply join_split_paragraphs.
    + intros Hnil. apply map_eq_nil in Hnil.
      pose proof (concat_split_groups max_chunk_size
                    (split_paragraphs (sec_content section))) as Hc.
      rewrite Hnil in Hc. cbn [concat] in Hc.
      now apply (split_go_not_nil (sec_content section) EmptyString).
Qed.

(** ** Properties of content categories *)

Lemma lower_char_idempotent (c : ascii) :
  lower_char (lower_char c) = lower_char c.
Proof.
  destruct c as [[] [] [] [] [] [] [] []]; vm_compute; reflexivity.
Qed.

Lemma lower_idempotent (s : string) : lower (lower s) = lower s.
Proof.
  induction s as [|c s IH]; cbn [lower]; [reflexivity|].
  now rewrite lower_char_idempotent, IH.
Qed.

(** X3.  The content type of a title is always one of spell, monster,
    item and rule; it does not depend on letter case; and a title that
    mentions a spell keyword is a spell whatever else it mentions, the
    categories being tried in a fixed order. *)
Theorem content_type_range_and_case (title : string) :
  In (_determine_content_type title) ["spell"; "monster"; "item"; "rule"]
  /\ _determine_content_type (lower title) = _determine_content_type title
  /\ (any_in ["spell"; "magic"; "cantrip"] (lower title) = true ->
      _determine_content_type title = "spell"%string).
Proof.
  split; [|split].
  - unfold _determine_content_type.
    repeat match goal with
           | |- context [if ?b then _ else _] => destruct b
           end; cbn; tauto.
  - unfold _determine_content_type. now rewrite lower_idempotent.
  - intros H. unfold _determine_content_type. now rewrite H.
Qed.

Lemma content_type_range_and_case_witness :
  _determine_content_type "Monster Magic" = "spell"%string.
Proof.
  apply (content_type_range_and_case "Monster Magic").
  vm_compute. reflexivity.
Defined.

(** ** Further properties of outline-driven section identification *)

Lemma exc_bind_ok {A : Type} (m : exc A) :
  (let! x := m in Ok x) = m.
Proof. now destruct m. Qed.

Lemma extract_empty_range (pages : list page_data) (start_page end_page : Z)
    (section_title : string) :
  end_page < start_page ->
  _extract_section_content pages start_page end_page section_title
  = EmptyString.
Proof.
  intros Hlt. unfold _extract_section_content.
  replace (flat_map _ pages) with (@nil string); [reflexivity|].
  induction pages as [|page pages IH]; [reflexivity|].
  cbn [flat_map]. rewrite <- IH.
  destruct (Z.leb_spec start_page (page_num page));
    destruct (Z.leb_spec (page_num page) end_page); cbn [andb app];
    try reflexivity. lia.
Qed.

(** X4.  An outline entry that is followed by an entry of the same or a
    higher level starting on the same page gets no section: its page range
    ends one page before it starts, so its content is empty and the entry
    is skipped. *)
Theorem same_page_entry_is_skipped (pages : list page_data) (total : Z)
    (before : list toc_entry) (entry next_entry : toc_entry)
    (later : list toc_entry) (p : Z) :
  toc_page entry = Some p ->
  toc_page next_entry = Some p ->
  toc_level next_entry <= toc_level entry ->
  sections_from_toc pages total before (entry :: next_entry :: later)
  = sections_from_toc pages total (before ++ [entry]) (next_entry :: later).
Proof.
  intros Hp Hnext Hlevel.
  change (sections_from_toc pages total before (entry :: next_entry :: later))
    with (let! end_page :=
            toc_end_page total (toc_level entry) (next_entry :: later) in
          match toc_page entry with
          | None =>
              if truthy pages then Raise TypeError
              else sections_from_toc pages total (before ++ [entry])
                     (next_entry :: later)
          | Some start_page =>
              let section_content :=
                _extract_section_content pages start_page end_page
                  (toc_title entry) in
              let! more :=
                sections_from_toc pages total (before ++ [entry])
                  (next_entry :: later) in
              if str_truthy section_content
              then
                Ok ({| sec_title := toc_title entry;
                       sec_content := section_content;
                       page_start := start_page;
                       page_end := end_page;
                       level := toc_level entry;
                       parent_sections :=
                         map toc_title
                           (List.filter
                              (fun e => toc_level e <? toc_level entry)
                              before) |} :: more)
              else Ok more
          end).
  unfold toc_end_page. rewrite Hnext, Hp.
  destruct (Z.leb_spec (toc_level next_entry) (toc_level entry)); [|lia].
  cbn [exc_bind]. cbv zeta.
  rewrite extract_empty_range by lia. cbn [str_truthy].
  apply exc_bind_ok.
Qed.

Lemma same_page_entry_is_skipped_witness :
  sections_from_toc ten_pages 10 []
    [ {| toc_title := "Part I"; toc_page := Some 3; toc_level := 0 |};
      {| toc_title := "Chapter 1"; toc_page := Some 3; toc_level := 0 |} ]
  = sections_from_toc ten_pages 10
      [ {| toc_title := "Part I"; toc_page := Some 3; toc_level := 0 |} ]
      [ {| toc_title := "Chapter 1"; toc_page := Some 3; toc_level := 0 |} ].
Proof.
  apply (same_page_entry_is_skipped ten_pages 10 []
           {| toc_title := "Part I"; toc_page := Some 3; toc_level := 0 |}
           {| toc_title := "Chapter 1"; toc_page := Some 3; toc_level := 0 |}
           [] 3); [reflexivity|reflexivity|cbn; lia].
Defined.

(** X5.  An outline entry whose page could not be resolved makes
    [identify_sections] fail with a TypeError as soon as the document has
    a page: no section is returned, not even for the resolved entries. *)
Theorem unresolved_page_raises
    (fallback : list page_data -> list Section) (data : extracted_data) :
  pages data <> [] ->
  (exists entry, In entry (toc data) /\ toc_page entry = None) ->
  identify_sections fallback data = Raise TypeError.
Proof.
  intros Hpages (entry & Hin & Hnone). unfold identify_sections.
  destruct (toc data) as [|e0 rest0] eqn:Etoc; [destruct Hin|].
  cbn [truthy]. rewrite <- Etoc in *. clear Etoc e0 rest0.
  generalize (@nil toc_entry) as before.
  induction (toc data) as [|e rest IH]; intros before; [destruct Hin|].
  cbn [sections_from_toc].
  destruct (toc_end_page (total_pages data) (toc_level e) rest)
    as [end_page|err] eqn:Eend; cbn [exc_bind].
  2: { unfold toc_end_page in Eend.
       destruct rest as [|n r]; [discriminate|].
       destruct (toc_level n <=? toc_level e); [|discriminate].
       destruct (toc_page n); [discriminate|]. now injection Eend as <-. }
  destruct Hin as [->|Hin].
  - rewrite Hnone. destruct (pages data); [congruence|reflexivity].
  - destruct (toc_page e) as [start_page|].
    + rewrite (IH Hin). reflexivity.
    + destruct (pages data); [congruence|reflexivity].
Qed.

Lemma unresolved_page_raises_witness :
  identify_sections (fun _ => [])
    {| pages := ten_pages;
       toc := [ {| toc_title := "Combat"; toc_page := Some 1;
                   toc_level := 0 |};
                {| toc_title := "Magic"; toc_page := None;
                   toc_level := 1 |} ];
       total_pages := 10 |}
  = Raise TypeError.
Proof.
  apply unresolved_page_raises.
  - discriminate.
  - eexists. split; [right; left; reflexivity|reflexivity].
Defined.

(** Where each section of the result comes from. *)
Lemma sections_from_toc_provenance (pages : list page_data) (total : Z) :
  forall (rest before : list toc_entry) (sections : list Section),
    sections_from_toc pages total before rest = Ok sections ->
    forall section, In section sections ->
      exists earlier entry later,
        rest = earlier ++ entry :: later
        /\ sec_title section = toc_title entry
        /\ level section = toc_level entry
        /\ toc_page entry = Some (page_start section)
        /\ toc_end_page total (toc_level entry) later
           = Ok (page_end section)
        /\ sec_content section
           = _extract_section_content pages (page_start section)
               (page_end section) (toc_title entry)
        /\ sec_content section <> EmptyString
        /\ parent_sections section
           = map toc_title
               (List.filter (fun e => toc_level e <? toc_level entry)
                  (before ++ earlier)).
Proof.
  induction rest as [|e rest IH]; intros before sections;
    cbn [sections_from_toc].
  - intros [= <-] section [].
  - destruct (toc_end_page total (toc_level e) rest) as [end_page|err]
      eqn:Eend; cbn [exc_bind]; [|discriminate].
    assert (Hlater : forall more,
              sections_from_toc pages total (before ++ [e]) rest = Ok more ->
              forall section, In section more ->
                exists earlier entry later,
                  e :: rest = earlier ++ entry :: later
                  /\ sec_title section = toc_title entry
                  /\ level section = toc_level entry
                  /\ toc_page entry = Some (page_start section)
                  /\ toc_end_page total (toc_level entry) later
                     = Ok (page_end section)
                  /\ sec_content section
                     = _extract_section_content pages (page_start section)
                         (page_end section) (toc_title entry)
                  /\ sec_content section <> EmptyString
                  /\ parent_sections section
                     = map toc_title
                         (List.filter
                            (fun e' => toc_level e' <? toc_level entry)
                            (before ++ earlier))).
    { intros more Hmore section Hin.
      destruct (IH _ _ Hmore section Hin)
        as (earlier & entry & later & -> & H).
      exists (e :: earlier), entry, later. split; [reflexivity|].
      now rewrite <- app_assoc in H. }
    destruct (toc_page e) as [start_page|] eqn:Epage.
    + destruct (sections_from_toc pages total (before ++ [e]) rest)
        as [more|err] eqn:Emore; cbn [exc_bind]; [|discriminate].
      destruct (str_truthy _) eqn:Econtent.
      * intros [= <-] section [<-|Hin]; [|now apply (Hlater more)].
        exists [], e, rest. cbn [sec_title level page_start page_end
          sec_content parent_sections app].
        rewrite app_nil_r. repeat split; try assumption; try reflexivity.
        intros Hempty. rewrite Hempty in Econtent. discriminate.
      * intros [= <-]. now apply Hlater.
    + destruct (truthy pages); [discriminate|]. apply Hlater.
Qed.

(** X6.  Every section that [identify_sections] builds from an outline
    comes from one outline entry: it has the entry's title, level and
    resolved start page, the end page computed from the entries after it,
    the text of that page range, which is not empty, and as parents the
    titles of all earlier entries of a strictly smaller level, whether
    or not they are its ancestors. *)
Theorem sections_come_from_entries
    (fallback : list page_data -> list Section) (data : extracted_data)
    (sections : list Section) (section : Section) :
  toc data <> [] ->
  identify_sections fallback data = Ok sections ->
  In section sections ->
  exists earlier entry later,
    toc data = earlier ++ entry :: later
    /\ sec_title section = toc_title entry
    /\ level section = toc_level entry
    /\ toc_page entry = Some (page_start section)
    /\ toc_end_page (total_pages data) (toc_level entry) later
       = Ok (page_end section)
    /\ sec_content section
       = _extract_section_content (pages data) (page_start section)
           (page_end section) (toc_title entry)
    /\ sec_content section <> EmptyString
    /\ parent_sections section
       = map toc_title
           (List.filter (fun e => toc_level e <? toc_level entry) earlier).
Proof.
  intros Htoc Hok Hin. unfold identify_sections in Hok.
  destruct (toc data) as [|e0 rest0] eqn:Etoc; [congruence|].
  cbn [truthy] in Hok.
  exact (sections_from_toc_provenance _ _ _ [] _ Hok section Hin).
Qed.

Lemma sections_come_from_entries_witness :
  exists sections section earlier entry later,
    identify_sections (fun _ => []) nested_document = Ok sections
    /\ In section sections
    /\ toc nested_document = earlier ++ entry :: later
    /\ sec_title section = toc_title entry
    /\ level section = toc_level entry
    /\ toc_page entry = Some (page_start section)
    /\ toc_end_page (total_pages nested_document) (toc_level entry) later
       = Ok (page_end section)
    /\ sec_content section
       = _extract_section_content (pages nested_document)
           (page_start section) (page_end section) (toc_title entry)
    /\ sec_content section <> EmptyString
    /\ parent_sections section
       = map toc_title
           (List.filter (fun e => toc_level e <? toc_level entry) earlier).
Proof.
  destruct (identify_sections (fun _ => []) nested_document)
    as [sections|e] eqn:E; [|vm_compute in E; discriminate E].
  destruct sections as [|section more] eqn:Esections;
    [vm_compute in E; discriminate E|].
  destruct (sections_come_from_entries (fun _ => []) nested_document
              (section :: more) section) as (earlier & entry & later & H).
  - discriminate.
  - exact E.
  - now left.
  - exists (section :: more), section, earlier, entry, later.
    split; [reflexivity|]. split; [now left|exact H].
Defined.

(** ** When chunk identifiers are unique *)

Lemma replace_spaces_app (a b : string) :
  replace_spaces (a +:+ b) = replace_spaces a +:+ replace_spaces b.
Proof.
  induction a as [|c a IH]; [reflexivity|].
  change (replace_spaces (String c (a +:+ b))
          = String (if Ascii.eqb c space then underscore else c)
              (replace_spaces a +:+ replace_spaces b)).
  cbn [replace_spaces]. now rewrite IH.
Qed.

Lemma str_append_cancel (p a b : string) : p +:+ a = p +:+ b -> a = b.
Proof.
  induction p as [|c p IH]; [intros H; exact H|].
  change (String c (p +:+ a) = String c (p +:+ b) -> a = b).
  intros [= H]. exact (IH H).
Qed.

Lemma str_append_cons (c : ascii) (a b : string) :
  String c a +:+ b = String c (a +:+ b).
Proof. reflexivity. Qed.

(** A number is written without spaces and underscores. *)
Lemma pretty_N_char_digit (x : N) :
  pretty_N_char x <> space /\ pretty_N_char x <> underscore.
Proof.
  unfold pretty_N_char.
  destruct x as [|p]; [split; discriminate|].
  do 4 (destruct p as [p|p|]; try (split; discriminate)).
Qed.

Lemma pretty_N_go_plain (x : N) (s : string) :
  (forall ch, In ch (list_ascii_of_string s) ->
              ch <> space /\ ch <> underscore) ->
  forall ch, In ch (list_ascii_of_string (pretty_N_go x s)) ->
             ch <> space /\ ch <> underscore.
Proof.
  revert s. induction (N.lt_wf_0 x) as [x _ IH]. intros s Hs.
  destruct (decide (0 < x)%N) as [Hpos|Hzero].
  - rewrite pretty_N_go_step by exact Hpos.
    apply IH; [now apply N.div_lt|].
    intros ch [<-|Hin]; [apply pretty_N_char_digit|now apply Hs].
  - replace x with 0%N by lia. now rewrite pretty_N_go_0.
Qed.

Lemma pretty_nat_plain (i : nat) (ch : ascii) :
  In ch (list_ascii_of_string (pretty i)) ->
  ch <> space /\ ch <> underscore.
Proof.
  unfold pretty, pretty_nat, pretty, pretty_N.
  destruct (decide (N.of_nat i = 0%N)).
  - intros [<-|[]]. split; discriminate.
  - apply pretty_N_go_plain. intros c [].
Qed.

Lemma replace_spaces_plain (s : string) :
  (forall ch, In ch (list_ascii_of_string s) -> ch <> space) ->
  replace_spaces s = s.
Proof.
  induction s as [|c s IH]; [reflexivity|].
  cbn [list_ascii_of_string In replace_spaces]. intros Hs.
  rewrite IH by (intros ch Hin; apply Hs; now right).
  destruct (Ascii.eqb_spec c space) as [E|_]; [|reflexivity].
  exfalso. now apply (Hs c); [left|].
Qed.

(** Cutting at the last underscore. *)
Lemma split_at_last_underscore (a b x y : string) :
  (forall ch, In ch (list_ascii_of_string x) -> ch <> underscore) ->
  (forall ch, In ch (list_ascii_of_string y) -> ch <> underscore) ->
  a +:+ String underscore x = b +:+ String underscore y ->
  a = b /\ x = y.
Proof.
  intros Hx Hy. revert b.
  assert (Hin : forall p q : string,
            In underscore
              (list_ascii_of_string (p +:+ String underscore q))).
  { induction p as [|c p IHp]; intros q; [now left|].
    change (In underscore (c :: list_ascii_of_string
                                  (p +:+ String underscore q))).
    right. apply IHp. }
  induction a as [|c a IH]; intros [|c' b]; rewrite ?str_append_cons;
    change (EmptyString +:+ String underscore x) with (String underscore x);
    change (EmptyString +:+ String underscore y) with (String underscore y).
  - intros [= ->]. now split.
  - intros [= <- ->]. exfalso. now apply (Hx underscore (Hin b y)).
  - intros [= -> <-]. exfalso. now apply (Hy underscore (Hin a x)).
  - intros [= <- H]. destruct (IH b H) as [-> ->]. now split.
Qed.

Lemma make_chunk_id_parts (rulebook_name section_title : string) (i : nat) :
  make_chunk_id rulebook_name section_title i
  = replace_spaces rulebook_name
    +:+ String underscore
          (replace_spaces section_title +:+ String underscore (pretty i)).
Proof.
  unfold make_chunk_id.
  rewrite !replace_spaces_app.
  rewrite (replace_spaces_plain (pretty i))
    by (intros ch Hin; now apply pretty_nat_plain in Hin).
  reflexivity.
Qed.

(** Two ids of one document agree exactly when the titles agree once
    spaces are replaced and the piece numbers are the same. *)
Lemma make_chunk_id_eq (rulebook_name title1 title2 : string) (i j : nat) :
  make_chunk_id rulebook_name title1 i = make_chunk_id rulebook_name title2 j
  <-> replace_spaces title1 = replace_spaces title2 /\ i = j.
Proof.
  rewrite !make_chunk_id_parts. split.
  - intros H. apply str_append_cancel in H. injection H as H.
    apply split_at_last_underscore in H as [Ht Hp];
      try (intros ch Hin; now apply pretty_nat_plain in Hin).
    split; [exact Ht|]. now apply (inj pretty).
  - now intros [-> ->].
Qed.

Lemma split_section_not_nil (section : Section) (max_chunk_size : Z) :
  (0 < length (_split_section_into_chunks section max_chunk_size))%nat.
Proof.
  unfold _split_section_into_chunks.
  destruct (_ <=? _); [cbn; lia|].
  set (ps := split_paragraphs (sec_content section)).
  assert (Hps : ps <> []) by apply split_go_not_nil.
  destruct (split_fold_groups max_chunk_size ps
              {| chunks := []; current_chunk := []; current_size := 0 |}
              {| groups := []; open_group := [] |} eq_refl eq_refl eq_refl)
    as [Hc Ho].
  rewrite Ho, Hc.
  pose proof (group_fold_concat max_chunk_size ps
                {| groups := []; open_group := [] |}) as Hcat.
  cbv zeta in Hcat. cbn [groups open_group concat app] in Hcat.
  set (gs := fold_left (group_step max_chunk_size) ps _) in *.
  destruct (open_group gs) as [|q g]; cbn [truthy].
  - rewrite app_nil_r in Hcat. rewrite length_map.
    destruct (groups gs); [now symmetry in Hcat|cbn; lia].
  - rewrite length_app. cbn [length]. lia.
Qed.

(** X7.  The chunk ids that [create_chunks] makes for a document are
    pairwise distinct exactly when no two of its sections have titles
    that agree once spaces are replaced by underscores.  Sections with
    such titles, and in particular two sections with the same title, get
    the same ids for their pieces. *)
Theorem chunk_ids_unique_iff_titles_differ (F : pyfloat)
    (sections : list Section) (rulebook_name system_name : string) :
  NoDup (map chunk_id (create_chunks F sections rulebook_name system_name))
  <-> NoDup (map (fun section => replace_spaces (sec_title section))
                 sections).
Proof.
  rewrite create_chunks_ids. unfold piece_count.
  induction sections as [|section sections IH]; cbn [flat_map map].
  - split; constructor.
  - rewrite NoDup_app, NoDup_cons, IH.
    set (n := fun s => length (_split_section_into_chunks s
                                 default_max_chunk_size)).
    split.
    + intros (_ & Hdisj & Hrest). split; [|exact Hrest].
      intros Hin. apply list_elem_of_In, in_map_iff in Hin
        as (other & Htitle & Hother).
      apply (Hdisj (make_chunk_id rulebook_name (sec_title section) 0)).
      * apply list_elem_of_In, in_map_iff. exists 0%nat.
        split; [reflexivity|]. apply in_seq.
        pose proof (split_section_not_nil section default_max_chunk_size).
        lia.
      * apply list_elem_of_In, in_flat_map. exists other.
        split; [exact Hother|]. apply in_map_iff. exists 0%nat.
        split; [now apply make_chunk_id_eq|]. apply in_seq.
        pose proof (split_section_not_nil other default_max_chunk_size).
        lia.
    + intros (Hfresh & Hrest). split; [|split; [|exact Hrest]].
      * apply NoDup_fmap_2; [|apply NoDup_seq].
        intros i j Hij. now apply make_chunk_id_eq in Hij.
      * intros id Hin1 Hin2. apply Hfresh.
        apply list_elem_of_In, in_map_iff in Hin1 as (i & <- & _).
        apply list_elem_of_In, in_flat_map in Hin2 as (other & Hother & Hin2).
        apply in_map_iff in Hin2 as (j & Hid & _).
        apply make_chunk_id_eq in Hid as [Ht _].
        apply list_elem_of_In, in_map_iff. exists other. now split.
Qed.

(** ** Properties of section identification without an outline *)

Example identify_sections_from_text_example :
  _identify_sections_from_text plain_pages
  = [ {| sec_title := "COMBAT";
         sec_content := "Roll a die." +:+ String newline "Add your bonus.";
         page_start := 2;
         page_end := 2;
         level := 1;
         parent_sections := [] |} ]
  /\ map is_heading
       ["Chapter 12"; "CHAPTER 3: Magic"; "chapter 1"; "Chapter One";
        "SPELLS"; "ABC"; "THE END"; "Spells"; "1. Introduction";
        "1. introduction"; "12.Rules"; "A game of dice"]
     = [true; true; false; false; true; false; true; false; true; false;
        false; false].
Proof. vm_compute. split; reflexivity. Qed.

Lemma fold_numbered_lines (pages : list page_data) (st : text_state) :
  fold_left page_step pages st
  = fold_left (fun st nl => line_step (fst nl) st (snd nl))
      (numbered_lines pages) st.
Proof.
  revert st. induction pages as [|page pages IH]; intros st; [reflexivity|].
  cbn [fold_left numbered_lines flat_map]. rewrite fold_left_app, IH.
  f_equal. unfold page_step.
  generalize (split_lines (page_text page)). intros ls. revert st.
  induction ls as [|l ls IHl]; intros st; [reflexivity|].
  cbn [fold_left map fst snd]. apply IHl.
Qed.

Lemma in_text_lines (pages : list page_data) (n : Z) (line : string) :
  In (n, line) (numbered_lines pages) ->
  str_truthy (strip line) = true ->
  In (n, strip line) (text_lines pages).
Proof.
  unfold numbered_lines, text_lines. intros Hin Hline.
  apply in_flat_map in Hin as (page & Hpage & Hin).
  apply in_map_iff in Hin as (l & [= <- <-] & Hl).
  apply in_flat_map. exists page. split; [exact Hpage|].
  apply in_flat_map. exists l. split; [exact Hl|].
  rewrite Hline. now left.
Qed.

Lemma str_join_not_empty (sep : string) (body : list string) :
  body <> [] -> Forall (fun line => line <> EmptyString) body ->
  str_join sep body <> EmptyString.
Proof.
  destruct body as [|line body]; [congruence|].
  intros _ Hall. apply Forall_cons in Hall as [Hline _].
  destruct line as [|c line]; [congruence|].
  destruct body; cbn [str_join]; discriminate.
Qed.

Lemma text_lines_stripped (pages : list page_data) :
  text_lines pages
  = flat_map (fun nl => stripped_line (fst nl) (snd nl)) (numbered_lines pages).
Proof.
  unfold text_lines, numbered_lines.
  induction pages as [|page pages IH]; [reflexivity|].
  cbn [flat_map]. rewrite flat_map_app, IH. f_equal.
  generalize (split_lines (page_text page)). intros ls.
  induction ls as [|l ls IHl]; [reflexivity|].
  cbn [flat_map map fst snd]. now rewrite IHl.
Qed.

Lemma text_lines_not_empty (pages : list page_data) :
  Forall (fun nl => snd nl <> EmptyString) (text_lines pages).
Proof.
  rewrite text_lines_stripped. apply Forall_forall. intros nl Hin.
  apply list_elem_of_In, in_flat_map in Hin as ([n line] & _ & Hin).
  unfold stripped_line in Hin. cbn [fst snd] in Hin.
  destruct (strip line) as [|c rest] eqn:E; cbn [str_truthy] in Hin;
    [destruct Hin|].
  destruct Hin as [<-|[]]. discriminate.
Qed.

Lemma cut_at_headings_snoc (lines preamble : list (Z * string))
    (blocks : list text_block) (block : text_block) :
  cut_at_headings lines preamble blocks ->
  is_heading (snd (block_heading block)) = true ->
  Forall (fun nl => is_heading (snd nl) = false) (block_body block) ->
  cut_at_headings (lines ++ block_lines block) preamble (blocks ++ [block]).
Proof.
  intros (Hlines & Hpre & Hblocks) Hhead Hbody.
  split; [|split; [exact Hpre|]].
  - rewrite Hlines, flat_map_app. cbn [flat_map].
    now rewrite app_nil_r, app_assoc.
  - apply Forall_app. split; [exact Hblocks|].
    constructor; [now split|constructor].
Qed.

(** A line after the last block extends its body. *)
Lemma cut_at_headings_extend (lines preamble : list (Z * string))
    (blocks : list text_block) (heading nl : Z * string)
    (body : list (Z * string)) :
  cut_at_headings lines preamble
    (blocks ++ [ {| block_heading := heading; block_body := body |} ]) ->
  is_heading (snd nl) = false ->
  cut_at_headings (lines ++ [nl]) preamble
    (blocks ++ [ {| block_heading := heading;
                    block_body := body ++ [nl] |} ]).
Proof.
  intros (Hlines & Hpre & Hblocks) Hnl.
  apply Forall_app in Hblocks as [Hblocks Hlast].
  apply Forall_cons in Hlast as [[Hhead Hbody] _].
  cbn [block_heading block_body] in Hhead, Hbody.
  split; [|split; [exact Hpre|]].
  - rewrite Hlines, !flat_map_app. cbn [flat_map block_lines].
    cbn [block_heading block_body]. rewrite !app_nil_r.
    now rewrite <- !app_assoc.
  - apply Forall_app. split; [exact Hblocks|].
    constructor; [|constructor]. cbn [block_heading block_body].
    split; [exact Hhead|].
    apply Forall_app. split; [exact Hbody|]. now repeat constructor.
Qed.

(** Lines that are no headings, followed by nothing or by a heading, are
    read off a list in one way only. *)
Lemma split_at_heading (l1 l2 r1 r2 : list (Z * string)) :
  l1 ++ r1 = l2 ++ r2 ->
  Forall (fun nl => is_heading (snd nl) = false) l1 ->
  Forall (fun nl => is_heading (snd nl) = false) l2 ->
  match r1 with nl :: _ => is_heading (snd nl) = true | [] => True end ->
  match r2 with nl :: _ => is_heading (snd nl) = true | [] => True end ->
  l1 = l2 /\ r1 = r2.
Proof.
  revert l2. induction l1 as [|x l1 IH]; intros l2 Heq H1 H2 Hr1 Hr2.
  - destruct l2 as [|y l2]; [now split|]. cbn [app] in Heq. subst r1.
    apply Forall_cons in H2 as [Hy _]. congruence.
  - apply Forall_cons in H1 as [Hx H1].
    destruct l2 as [|y l2].
    + cbn [app] in Heq. subst r2. congruence.
    + apply Forall_cons in H2 as [_ H2]. injection Heq as <- Heq.
      destruct (IH l2 Heq H1 H2 Hr1 Hr2) as [-> ->]. now split.
Qed.

Lemma blocks_start_with_heading (blocks : list text_block) :
  Forall (fun block =>
    is_heading (snd (block_heading block)) = true
    /\ Forall (fun nl => is_heading (snd nl) = false) (block_body block))
    blocks ->
  match flat_map block_lines blocks with
  | nl :: _ => is_heading (snd nl) = true
  | [] => True
  end.
Proof.
  destruct blocks as [|block blocks]; [exact (fun _ => I)|].
  intros H. apply Forall_cons in H as [[Hhead _] _]. exact Hhead.
Qed.

Lemma cut_at_headings_unique (lines preamble preamble' : list (Z * string))
    (blocks blocks' : list text_block) :
  cut_at_headings lines preamble blocks ->
  cut_at_headings lines preamble' blocks' ->
  preamble = preamble' /\ blocks = blocks'.
Proof.
  intros (-> & Hpre & Hblocks) (Heq & Hpre' & Hblocks').
  destruct (split_at_heading _ _ _ _ Heq Hpre Hpre'
              (blocks_start_with_heading _ Hblocks)
              (blocks_start_with_heading _ Hblocks')) as [-> Hrest].
  split; [reflexivity|]. clear Heq Hpre Hpre'.
  revert blocks' Hblocks' Hrest.
  induction blocks as [|[h body] blocks IH]; intros blocks' Hblocks' Hrest.
  - destruct blocks' as [|block' blocks']; [reflexivity|discriminate].
  - destruct blocks' as [|[h' body'] blocks']; [discriminate|].
    apply Forall_cons in Hblocks as [[_ Hbody] Hblocks].
    apply Forall_cons in Hblocks' as [[_ Hbody'] Hblocks'].
    cbn [flat_map block_lines block_heading block_body app] in *.
    injection Hrest as <- Hrest.
    destruct (split_at_heading _ _ _ _ Hrest Hbody Hbody'
                (blocks_start_with_heading _ Hblocks)
                (blocks_start_with_heading _ Hblocks')) as [<- Hmore].
    now rewrite (IH Hblocks blocks' Hblocks' Hmore).
Qed.

Lemma truthy_map {A B : Type} (f : A -> B) (l : list A) :
  truthy (map f l) = truthy l.
Proof. now destruct l. Qed.

(** Closing the section in progress adds the sections of the last
    block. *)
Lemma save_section_blocks (lines : list (Z * string)) (st : text_state) :
  text_state_inv lines st ->
  exists preamble blocks,
    cut_at_headings lines preamble blocks
    /\ save_section st = flat_map block_sections blocks.
Proof.
  unfold text_state_inv, save_section.
  destruct (current_section st) as [section|].
  - intros (preamble & blocks & heading & body & Hcut & Hfound & Hcontent
            & ->).
    exists preamble,
      (blocks ++ [ {| block_heading := heading; block_body := body |} ]).
    split; [exact Hcut|].
    rewrite flat_map_app. cbn [flat_map]. rewrite app_nil_r.
    unfold block_sections at 2. cbn [block_heading block_body].
    rewrite Hcontent, truthy_map, Hfound.
    destruct (truthy body); [reflexivity|now rewrite app_nil_r].
  - intros [Hfound Hlines]. exists lines, [].
    split; [|exact Hfound].
    split; [cbn [flat_map]; now rewrite app_nil_r|].
    split; [exact Hlines|constructor].
Qed.

Lemma line_step_inv (lines : list (Z * string)) (n : Z) (line : string)
    (st : text_state) :
  text_state_inv lines st ->
  text_state_inv (lines ++ stripped_line n line) (line_step n st line).
Proof.
  intros Hinv. unfold line_step, stripped_line.
  destruct (str_truthy (strip line)) eqn:Etruthy; cbn [negb];
    [|now rewrite app_nil_r].
  destruct (is_heading (strip line)) eqn:Ehead.
  - destruct (save_section_blocks lines st Hinv)
      as (preamble & blocks & Hcut & Hsaved).
    unfold text_state_inv.
    cbn [found_sections current_section current_content].
    exists preamble, blocks, (n, strip line), [].
    split; [|now repeat split].
    apply (cut_at_headings_snoc lines preamble blocks
             {| block_heading := (n, strip line); block_body := [] |});
      [exact Hcut|exact Ehead|constructor].
  - unfold text_state_inv in *.
    destruct (current_section st) as [section|] eqn:Ecur.
    + destruct Hinv as (preamble & blocks & heading & body & Hcut & Hfound
                        & Hcontent & ->).
      cbn [found_sections current_section current_content sec_title
           sec_content page_start page_end level parent_sections].
      exists preamble, blocks, heading, (body ++ [(n, strip line)]).
      split; [now apply cut_at_headings_extend|].
      split; [exact Hfound|]. split.
      * now rewrite Hcontent, map_app.
      * now rewrite List.last_last.
    + rewrite Ecur. destruct Hinv as [Hfound Hlines].
      split; [exact Hfound|].
      apply Forall_app. split; [exact Hlines|]. now repeat constructor.
Qed.

Lemma fold_line_step_inv :
  forall (todo seen : list (Z * string)) (st : text_state),
    text_state_inv
      (flat_map (fun nl => stripped_line (fst nl) (snd nl)) seen) st ->
    text_state_inv
      (flat_map (fun nl => stripped_line (fst nl) (snd nl)) (seen ++ todo))
      (fold_left (fun st nl => line_step (fst nl) st (snd nl)) todo st).
Proof.
  induction todo as [|[n line] todo IH]; intros seen st Hinv;
    cbn [fold_left fst snd]; [now rewrite app_nil_r|].
  replace (seen ++ (n, line) :: todo) with ((seen ++ [(n, line)]) ++ todo)
    by now rewrite <- app_assoc.
  apply IH. rewrite flat_map_app. cbn [flat_map fst snd].
  rewrite app_nil_r. now apply line_step_inv.
Qed.

(** X8.  What [_identify_sections_from_text] returns for a document
    without an outline.  Take the lines of the pages in reading order,
    stripped, the empty ones left out, and cut them at the lines that
    match a heading pattern: first the lines before the first heading,
    then one block for each heading with the lines that follow it up to
    the next heading.  There is such a cut, and for every such cut (there
    is only one) the function returns, in this order, one section for
    each block in which at least one line follows the heading: its title
    is the heading, its first page the page of the heading, its content
    the lines of the block joined by newlines, its last page the page of
    the last of these lines, its level 1, and it has no parents.  The
    lines before the first heading and the headings that no text follows
    give no section, and no content is empty. *)
Theorem text_sections_are_heading_blocks (pages : list page_data) :
  (exists preamble blocks,
     cut_at_headings (text_lines pages) preamble blocks)
  /\ (forall preamble blocks,
        cut_at_headings (text_lines pages) preamble blocks ->
        _identify_sections_from_text pages
        = flat_map block_sections blocks)
  /\ Forall (fun section => sec_content section <> EmptyString)
       (_identify_sections_from_text pages).
Proof.
  assert (Hinv : text_state_inv (text_lines pages)
            (fold_left page_step pages
               {| found_sections := []; current_section := None;
                  current_content := [] |})).
  { rewrite fold_numbered_lines, text_lines_stripped.
    apply (fold_line_step_inv (numbered_lines pages) []).
    split; [reflexivity|constructor]. }
  destruct (save_section_blocks _ _ Hinv)
    as (preamble & blocks & Hcut & Hsaved).
  fold (_identify_sections_from_text pages) in Hsaved.
  split; [now exists preamble, blocks|]. split.
  { intros preamble' blocks' Hcut'.
    now destruct (cut_at_headings_unique _ _ _ _ _ Hcut Hcut') as [_ <-]. }
  rewrite Hsaved. apply Forall_forall. intros section Hin.
  apply list_elem_of_In, in_flat_map in Hin as (block & Hblock & Hin).
  unfold block_sections in Hin.
  destruct (block_body block) as [|nl body] eqn:Ebody; cbn [truthy] in Hin;
    [destruct Hin|].
  destruct Hin as [<-|[]]. cbn [sec_content].
  apply str_join_not_empty; [discriminate|].
  apply Forall_forall. intros line Hline.
  apply list_elem_of_In, in_map_iff in Hline as (nl' & <- & Hnl').
  pose proof (text_lines_not_empty pages) as Hne.
  rewrite Forall_forall in Hne. apply Hne, list_elem_of_In.
  destruct Hcut as (-> & _ & _). apply in_or_app. right.
  apply in_flat_map. exists block. split; [exact Hblock|].
  unfold block_lines. rewrite Ebody. now right.
Qed.

(** On the example pages: the preamble and the heading without text give
    nothing, the heading with two lines gives the one section. *)
Lemma text_sections_are_heading_blocks_witness :
  _identify_sections_from_text plain_pages
  = flat_map block_sections
      [ {| block_heading := (1, "CHAPTER 1: Basics"%string);
           block_body := [] |};
        {| block_heading := (2, "COMBAT"%string);
           block_body := [(2, "Roll a die."%string);
                          (2, "Add your bonus."%string)] |} ].
Proof.
  apply (proj1 (proj2 (text_sections_are_heading_blocks plain_pages))
           [(1, "A game of dice"%string)]).
  split; [vm_compute; reflexivity|].
  split; repeat constructor.
Defined.

Lemma line_step_order (n bound : Z) (line : string) (st : text_state) :
  bound <= n -> pages_in_order bound st ->
  pages_in_order n (line_step n st line).
Proof.
  intros Hn [Hfound Hcur].
  assert (Hsame : pages_in_order n st).
  { split; [exact Hfound|].
    destruct (current_section st) as [section|]; [|exact I]. lia. }
  unfold line_step.
  destruct (str_truthy (strip line)); cbn [negb]; [|exact Hsame].
  destruct (is_heading (strip line)).
  - split; cbn [found_sections current_section page_start page_end];
      [|lia].
    unfold save_section.
    destruct (current_section st) as [section|]; [|exact Hfound].
    destruct (truthy (current_content st)); [|exact Hfound].
    apply Forall_app. split; [exact Hfound|].
    constructor; [|constructor]. cbn [page_start page_end]. lia.
  - destruct (current_section st) as [section|] eqn:Ecur; [|exact Hsame].
    split; cbn [found_sections current_section page_start page_end];
      [exact Hfound|lia].
Qed.

Lemma fold_line_step_order :
  forall (todo : list (Z * string)) (bound : Z) (st : text_state),
    StronglySorted Z.le (bound :: map fst todo) ->
    pages_in_order bound st ->
    exists bound',
      pages_in_order bound'
        (fold_left (fun st nl => line_step (fst nl) st (snd nl)) todo st).
Proof.
  induction todo as [|[n line] todo IH]; intros bound st Hsorted Hinv;
    cbn [fold_left fst snd map] in *; [eauto|].
  apply StronglySorted_inv in Hsorted as [Hrest Hbound].
  apply (IH n); [exact Hrest|].
  apply (line_step_order n bound); [|exact Hinv].
  apply Forall_cons in Hbound as [Hle _]. exact Hle.
Qed.

Lemma numbered_lines_sorted (pages : list page_data) (bound : Z) :
  StronglySorted Z.le (bound :: map page_num pages) ->
  StronglySorted Z.le (bound :: map fst (numbered_lines pages)).
Proof.
  revert bound. induction pages as [|page pages IH]; intros bound Hsorted;
    cbn [numbered_lines flat_map map] in *; [exact Hsorted|].
  apply StronglySorted_inv in Hsorted as [Hrest Hbound].
  specialize (IH _ Hrest).
  apply StronglySorted_inv in IH as [IHs IHb].
  fold (numbered_lines pages) in *.
  rewrite map_app, map_map. cbn [fst].
  generalize (split_lines (page_text page)). intros ls.
  assert (Hgen : StronglySorted Z.le
                   (map (fun _ : string => page_num page) ls
                    ++ map fst (numbered_lines pages))
                 /\ Forall (Z.le (page_num page))
                      (map (fun _ : string => page_num page) ls
                       ++ map fst (numbered_lines pages))).
  { induction ls as [|l ls [IHl1 IHl2]]; cbn [map app]; [now split|].
    split; [now constructor|]. constructor; [lia|exact IHl2]. }
  destruct Hgen as [Hs Hf]. constructor; [exact Hs|].
  apply Forall_cons in Hbound as [Hle _].
  eapply Forall_impl; [exact Hf|]. cbn. intros; lia.
Qed.

(** X9.  When the page numbers of the document never decrease, as in
    the pages that [extract_text] numbers, a section found in the text
    never ends before it starts. *)
Theorem text_sections_end_after_start (pages : list page_data)
    (section : Section) :
  StronglySorted Z.le (map page_num pages) ->
  In section (_identify_sections_from_text pages) ->
  page_start section <= page_end section.
Proof.
  intros Hsorted Hin. unfold _identify_sections_from_text in Hin.
  rewrite fold_numbered_lines in Hin.
  destruct pages as [|page pages].
  { cbn in Hin. destruct Hin. }
  destruct (fold_line_step_order (numbered_lines (page :: pages))
              (page_num page)
              {| found_sections := []; current_section := None;
                 current_content := [] |}) as [bound [Hfound Hcur]].
  - apply numbered_lines_sorted. constructor; [exact Hsorted|].
    constructor; [lia|].
    apply StronglySorted_inv in Hsorted as [_ H]. exact H.
  - split; [constructor|exact I].
  - unfold save_section in Hin.
    set (st := fold_left _ _ _) in *.
    rewrite Forall_forall in Hfound.
    destruct (current_section st) as [cur|];
      [|now apply Hfound, list_elem_of_In].
    destruct (truthy (current_content st));
      [|now apply Hfound, list_elem_of_In].
    apply in_app_iff in Hin as [Hin|[<-|[]]];
      [now apply Hfound, list_elem_of_In|].
    cbn [page_start page_end]. lia.
Qed.

Lemma text_sections_end_after_start_witness :
  exists section,
    In section (_identify_sections_from_text plain_pages)
    /\ page_start section <= page_end section.
Proof.
  destruct (_identify_sections_from_text plain_pages)
    as [|section more] eqn:E; [vm_compute in E; discriminate E|].
  exists section. split; [now left|].
  apply (text_sections_end_after_start plain_pages section).
  - repeat constructor; cbn; lia.
  - rewrite E. now left.
Defined.

Lemma fold_no_heading :
  forall (todo : list (Z * string)) (st : text_state),
    (forall n line, In (n, line) todo ->
       str_truthy (strip line) = true -> is_heading (strip line) = false) ->
    current_section st = None ->
    fold_left (fun st nl => line_step (fst nl) st (snd nl)) todo st = st.
Proof.
  induction todo as [|[n line] todo IH]; intros st Hno Hcur;
    cbn [fold_left fst snd]; [reflexivity|].
  assert (Hstep : line_step n st line = st).
  { unfold line_step.
    destruct (str_truthy (strip line)) eqn:E; cbn [negb]; [|reflexivity].
    rewrite (Hno n line (or_introl eq_refl) E). now rewrite Hcur. }
  rewrite Hstep. apply IH; [|exact Hcur].
  intros n' line' H. apply (Hno n'). now right.
Qed.

(** X10.  A document without an outline in which no line matches a
    heading pattern gives no section, and so no chunk: its text is
    dropped without an error. *)
Theorem document_without_headings_is_dropped (F : pyfloat)
    (data : extracted_data) (rulebook_name system_name : string) :
  toc data = [] ->
  (forall n line, In (n, line) (text_lines (pages data)) ->
                  is_heading line = false) ->
  identify_sections _identify_sections_from_text data = Ok []
  /\ create_chunks F (_identify_sections_from_text (pages data))
       rulebook_name system_name = [].
Proof.
  intros Htoc Hno.
  assert (Hnone : _identify_sections_from_text (pages data) = []).
  { unfold _identify_sections_from_text. rewrite fold_numbered_lines.
    rewrite fold_no_heading; [reflexivity| |reflexivity].
    intros n line Hin Htruthy. apply (Hno n).
    now apply in_text_lines. }
  unfold identify_sections. rewrite Htoc. cbn [truthy].
  rewrite Hnone. now split.
Qed.

Lemma document_without_headings_is_dropped_witness :
  identify_sections _identify_sections_from_text
    {| pages := [ {| page_num := 1;
                     page_text := "Roll a die." +:+ String newline
                                    "Add your bonus.";
                     page_tables := [] |} ];
       toc := [];
       total_pages := 1 |} = Ok []
  /\ create_chunks binary64
       (_identify_sections_from_text
          [ {| page_num := 1;
               page_text := "Roll a die." +:+ String newline
                              "Add your bonus.";
               page_tables := [] |} ])
       "Book" "S1" = [].
Proof.
  apply (document_without_headings_is_dropped binary64
           {| pages := [ {| page_num := 1;
                            page_text := "Roll a die." +:+ String newline
                                           "Add your bonus.";
                            page_tables := [] |} ];
              toc := [];
              total_pages := 1 |} "Book" "S1").
  - reflexivity.
  - intros n line Hin. vm_compute in Hin.
    destruct Hin as [[= <- <-]|[[= <- <-]|[]]]; vm_compute; reflexivity.
Defined.

(** ** Properties of table processing *)

Example process_tables_example :
  _process_tables
    [ [ [Some "Name"; None]; [Some "Axe"; None]; [None; Some "  "];
        [Some "Sword"; Some ""] ];
      [ [Some "only a header"] ];
      [ [Some "A"]; [Some " "] ] ] 7
  = [ (0%nat, {| table_title := "Table 1 (Page 7)";
                 headers := ["Name"; "Column 2"];
                 rows := [["Axe"; ""]; ["Sword"; ""]];
                 table_page := 7 |}) ].
Proof. vm_compute. reflexivity. Qed.

Lemma cell_or_truthy (cell : option string) (default_text : string) :
  str_truthy default_text = true ->
  str_truthy (cell_or cell default_text) = true.
Proof.
  intros Hd. unfold cell_or. destruct cell as [text|]; [|exact Hd].
  destruct (str_truthy text) eqn:E; [exact E|exact Hd].
Qed.

Lemma cell_has_text_kept (cell : option string) :
  cell_has_text cell = true ->
  is_blank (cell_or cell EmptyString) = false.
Proof.
  unfold cell_has_text, cell_or. destruct cell as [text|]; [|discriminate].
  intros H. apply negb_true_iff in H.
  destruct (str_truthy text) eqn:E; [exact H|].
  destruct text; [discriminate H|discriminate E].
Qed.

(** X11.  Every table that [_process_tables] returns comes from an
    extracted table of at least two rows, whose position gives its
    [table_index] and, plus one, the number in its title.  It has one
    header per cell of the first row, none of them empty; it has at least
    one data row, and every data row has a cell that is not blank; and it
    carries the page number given.  Tables come out in the order they
    went in. *)
Theorem processed_tables_have_data
    (tables : list (list (list (option string)))) (page_number : Z) :
  (forall i table, In (i, table) (_process_tables tables page_number) ->
     (exists header_row body,
        tables !! i = Some (header_row :: body)
        /\ body <> []
        /\ length (headers table) = length header_row
        /\ length (rows table) = length (List.filter (existsb cell_has_text)
                                           body))
     /\ Forall (fun header => str_truthy header = true) (headers table)
     /\ rows table <> []
     /\ Forall (fun row => exists cell, In cell row /\ is_blank cell = false)
          (rows table)
     /\ table_page table = page_number
     /\ table_title table
        = "Table " +:+ pretty (i + 1)%nat +:+ " (Page "
            +:+ pretty page_number +:+ ")")
  /\ StronglySorted lt (map fst (_process_tables tables page_number)).
Proof.
  split.
  - intros i table Hin. unfold _process_tables in Hin.
    apply in_flat_map in Hin as ([i' raw] & Hraw & Hin). cbn [fst snd] in Hin.
    apply in_enumerate in Hraw.
    unfold process_table in Hin.
    destruct raw as [|header_row [|row1 body]]; try destruct Hin.
    cbn [truthy negb length Nat.ltb Nat.leb orb] in Hin.
    set (kept := List.filter (existsb cell_has_text) (row1 :: body)) in *.
    destruct (map _ kept) as [|r rs] eqn:Erows; cbn [truthy] in Hin;
      [destruct Hin|].
    destruct Hin as [[= <- <-]|[]].
    cbn [headers rows table_page table_title].
    split; [|split; [|split; [|split; [|split]]]]; try reflexivity.
    + exists header_row, (row1 :: body). split; [exact Hraw|].
      split; [discriminate|]. split; [apply length_imap|].
      fold kept. rewrite <- Erows. apply length_map.
    + apply Forall_forall. intros header Hh.
      apply list_elem_of_In in Hh.
      apply list_elem_of_In, elem_of_lookup_imap in Hh
        as (j & cell & -> & _).
      now apply cell_or_truthy.
    + discriminate.
    + rewrite <- Erows. apply Forall_forall. intros row Hrow.
      apply list_elem_of_In, in_map_iff in Hrow as (raw_row & <- & Hkept).
      subst kept. apply filter_In in Hkept as [_ Hany].
      apply existsb_exists in Hany as (cell & Hcell & Htext).
      exists (cell_or cell EmptyString).
      split; [|now apply cell_has_text_kept].
      now apply (in_map (fun c => cell_or c EmptyString)).
  - unfold _process_tables, enumerate.
    generalize 0%nat. induction tables as [|raw tables IH]; intros n;
      cbn [length seq combine flat_map map fst snd]; [constructor|].
    rewrite map_app. specialize (IH (S n)).
    assert (Hlater : Forall (lt n)
              (map fst (flat_map
                 (fun it => process_table page_number (fst it) (snd it))
                 (combine (seq (S n) (length tables)) tables)))).
    { apply Forall_forall. intros i Hi.
      apply list_elem_of_In, in_map_iff in Hi as ([i' table] & <- & Hin).
      apply in_flat_map in Hin as ([j raw'] & Hraw & Hin).
      apply in_enumerate_from in Hraw as [Hle _]. cbn [fst snd] in *.
      unfold process_table in Hin.
      destruct raw' as [|h [|r b]]; try destruct Hin.
      cbn [truthy negb length Nat.ltb Nat.leb orb] in Hin.
      destruct (truthy _); [|destruct Hin].
      destruct Hin as [[= <- <-]|[]]. lia. }
    unfold process_table at 1.
    destruct raw as [|h [|r b]]; cbn [app map]; try exact IH.
    cbn [truthy negb length Nat.ltb Nat.leb orb].
    destruct (truthy _); cbn [app map fst]; [|exact IH].
    now constructor.
Qed.

(** ** Further properties of the embedding service *)

(** X12.  With caching on, a vector that [generate_embedding] has returned
    for a text is served from the cache afterwards, whatever the model
    would answer then (even if it fails): [generate_embedding] returns it
    again for that text, [batch_embed] returns it for a batch made of that
    text, and neither call changes the cache.  The empty vector, returned
    for a blank text or a failing model, is excluded: it is not cached. *)
Theorem returned_embedding_is_reused (F : pyfloat)
    (_get_text_hash : string -> string)
    (model later_model : string -> exc (list F))
    (later_batch_model : list string -> exc (list (list F)))
    (later_caching : bool) (batch_size : Z)
    (cache cache1 : gmap string (list F)) (text : string) (v : list F) :
  generate_embedding F _get_text_hash model true cache text = (v, cache1) ->
  v <> [] ->
  generate_embedding F _get_text_hash later_model later_caching cache1 text
  = (v, cache1)
  /\ batch_embed F _get_text_hash later_batch_model later_caching cache1
       [text] batch_size
     = ([Some v], cache1).
Proof.
  intros Hfirst Hv.
  assert (Hcached : is_blank text = false
                    /\ cache1 !! _get_text_hash text = Some v).
  { unfold generate_embedding in Hfirst.
    destruct (is_blank text); [injection Hfirst as <- <-; congruence|].
    split; [reflexivity|].
    destruct (cache !! _get_text_hash text) as [cached|] eqn:Ec.
    - now injection Hfirst as <- <-.
    - destruct (model (strip text)) as [emb|e].
      + injection Hfirst as <- <-. apply lookup_insert_eq.
      + injection Hfirst as <- <-. congruence. }
  destruct Hcached as [Hblank Hcache]. split.
  - unfold generate_embedding. now rewrite Hblank, Hcache.
  - unfold batch_embed, lookup_all, enumerate.
    cbn [truthy negb length seq combine fold_left].
    unfold lookup_step. rewrite Hblank, Hcache.
    cbn [looked_up uncached_texts uncached_indices app truthy].
    reflexivity.
Qed.

Lemma returned_embedding_is_reused_witness :
  generate_embedding binary64 (fun text => text)
    (fun _ => Raise ValueError) false
    (<["fireball"%string := [1%float]]> ∅) "fireball"
  = ([1%float], <["fireball"%string := [1%float]]> ∅)
  /\ batch_embed binary64 (fun text => text) (fun _ => Raise ValueError)
       false (<["fireball"%string := [1%float]]> ∅) ["fireball"%string]
       default_batch_size
     = ([Some [1%float]], <["fireball"%string := [1%float]]> ∅).
Proof.
  apply (returned_embedding_is_reused binary64 (fun text => text)
           (fun _ => Ok [1%float]) (fun _ => Raise ValueError)
           (fun _ => Raise ValueError) false default_batch_size ∅).
  - vm_compute. reflexivity.
  - discriminate.
Defined.

(** *** [cleanup_cache] *)

(** X14.  [cleanup_cache] leaves a cache within the limit as it is.  A
    cache over a limit of at least 1 is cut to its newest entries, half
    the limit of them, rounded up.  With a limit of 0 nothing is ever
    removed: [-0//2] is 0 and the slice from 0 keeps every entry. *)
Theorem cleanup_cache_eviction {F : pyfloat}
    (cache_items : list (string * list F)) (max_size : Z) :
  (Z.of_nat (length cache_items) <= max_size ->
   cleanup_cache cache_items max_size = cache_items)
  /\ (1 <= max_size < Z.of_nat (length cache_items) ->
      exists dropped,
        cache_items = dropped ++ cleanup_cache cache_items max_size
        /\ Z.of_nat (length (cleanup_cache cache_items max_size))
           = (max_size + 1) / 2)
  /\ (max_size = 0 -> cleanup_cache cache_items max_size = cache_items).
Proof.
  unfold cleanup_cache, slice_from. split; [|split].
  - intros Hle.
    destruct (Z.gtb_spec (Z.of_nat (length cache_items)) max_size);
      [lia|reflexivity].
  - intros [Hpos Hover].
    destruct (Z.gtb_spec (Z.of_nat (length cache_items)) max_size); [|lia].
    destruct (Z.ltb_spec (- max_size / 2) 0) as [_|Hge].
    2: { pose proof (Z.div_mod (- max_size) 2 ltac:(lia)).
         pose proof (Z.mod_pos_bound (- max_size) 2 ltac:(lia)). lia. }
    exists (firstn (Z.to_nat (Z.of_nat (length cache_items)
                              + - max_size / 2)) cache_items).
    split; [now rewrite firstn_skipn|].
    rewrite length_skipn.
    pose proof (Z.div_mod (- max_size) 2 ltac:(lia)).
    pose proof (Z.mod_pos_bound (- max_size) 2 ltac:(lia)).
    pose proof (Z.div_mod (max_size + 1) 2 ltac:(lia)).
    pose proof (Z.mod_pos_bound (max_size + 1) 2 ltac:(lia)).
    lia.
  - intros ->. destruct (Z.of_nat (length cache_items) >? 0);
      reflexivity.
Qed.

(** ** The shape of the result of [batch_embed] and its effect on the cache *)

Section CacheWrites.

Context {F : pyfloat}.
Variable caching : bool.
Variable _get_text_hash : string -> string.

Local Abbreviation written_at :=
  (cache_written_at caching _get_text_hash).

Lemma written_at_refl (sent : list string) (cache : gmap string (list F)) :
  written_at sent cache cache.
Proof. intros k. now left. Qed.

Lemma written_at_trans (sent : list string)
    (c1 c2 c3 : gmap string (list F)) :
  written_at sent c1 c2 -> written_at sent c2 c3 -> written_at sent c1 c3.
Proof.
  intros H12 H23 k. destruct (H23 k) as [E23|H]; [|now right].
  destruct (H12 k) as [E12|(Hc & Ht & Hs)].
  - left. congruence.
  - right. rewrite E23. auto.
Qed.

Lemma written_at_incl (sent sent' : list string)
    (c1 c2 : gmap string (list F)) :
  (forall text, In text sent -> In text sent') ->
  written_at sent c1 c2 -> written_at sent' c1 c2.
Proof.
  intros Hincl H k. destruct (H k) as [E|(Hc & (text & Ht & Hk) & Hs)];
    [now left|right].
  split; [exact Hc|]. split; [|exact Hs]. exists text. auto.
Qed.

End CacheWrites.

Section BatchShape.

Variable F : pyfloat.
Variable _get_text_hash : string -> string.
Variable model_encode_batch : list string -> exc (list (list F)).
Variable cache_embeddings : bool.

Local Abbreviation written_at :=
  (cache_written_at cache_embeddings _get_text_hash).

Lemma store_batch_frame (batch_indices : list nat)
    (batch_texts : list string) :
  forall (batch_embeddings : list (list F)) (j : nat) (st st' : embed_state F)
         (raised : option pyerr),
    store_batch F _get_text_hash cache_embeddings batch_indices batch_texts
      j batch_embeddings st = (st', raised) ->
    length (embeddings st') = length (embeddings st)
    /\ written_at batch_texts (cache_of st) (cache_of st').
Proof.
  induction batch_embeddings as [|v vs IH]; intros j st st' raised;
    cbn [store_batch].
  - intros [= <- <-]. split; [reflexivity|apply written_at_refl].
  - destruct (batch_indices !! j) as [i|];
      [|intros [= <- <-]; split; [reflexivity|apply written_at_refl]].
    destruct (i <? length (embeddings st))%nat;
      [|intros [= <- <-]; split; [reflexivity|apply written_at_refl]].
    destruct cache_embeddings eqn:Ecache.
    + destruct (batch_texts !! j) as [text|] eqn:Etext.
      * intros Hrun. apply IH in Hrun as [Hlen Hcache].
        cbn [embeddings cache_of] in *. rewrite length_insert in Hlen.
        split; [exact Hlen|].
        eapply written_at_trans; [|exact Hcache].
        intros k. destruct (decide (_get_text_hash text = k)) as [<-|Hne].
        -- right. rewrite lookup_insert_eq. split; [reflexivity|].
           split; [|eauto]. exists text. split; [|reflexivity].
           apply list_elem_of_In, list_elem_of_lookup. eauto.
        -- left. now rewrite lookup_insert_ne.
      * intros [= <- <-]. cbn [embeddings cache_of].
        rewrite length_insert. split; [reflexivity|apply written_at_refl].
    + intros Hrun. apply IH in Hrun as [Hlen Hcache].
      cbn [embeddings cache_of] in *. rewrite length_insert in Hlen.
      now split.
Qed.

Lemma process_batches_frame (uncached : lookup_state F) (batch_size : nat) :
  forall (starts : list nat) (st st' : embed_state F)
         (raised : option pyerr),
    process_batches F _get_text_hash model_encode_batch cache_embeddings
      uncached batch_size starts st = (st', raised) ->
    length (embeddings st') = length (embeddings st)
    /\ written_at (uncached_texts uncached) (cache_of st) (cache_of st').
Proof.
  induction starts as [|i starts IH]; intros st st' raised;
    cbn [process_batches].
  - intros [= <- <-]. split; [reflexivity|apply written_at_refl].
  - destruct (model_encode_batch _) as [vs|e];
      [|intros [= <- <-]; split; [reflexivity|apply written_at_refl]].
    destruct (store_batch _ _ _ _ _ _ vs st) as [st1 [e|]] eqn:Ebatch;
      apply store_batch_frame in Ebatch as [Hlen1 Hcache1];
      apply (written_at_incl _ _ _ (uncached_texts uncached)) in Hcache1;
      try (intros text; apply in_slice).
    + intros [= <- <-]. now split.
    + intros Hrun. apply IH in Hrun as [Hlen Hcache].
      split; [congruence|]. eapply written_at_trans; eassumption.
Qed.

(** X15.  Whatever the model answers, [batch_embed] returns exactly one
    entry per input text.  It can change the cache only with caching on,
    and then only under the hash of a text it sent to the model, which
    is the stripped form of an input text that is neither blank nor
    found in the cache; every other key keeps what it had.  The cache is
    read under the hash of the text as given, so a text with surrounding
    blanks is written under another key than the one it is looked up
    with. *)
Theorem batch_embed_shape_and_cache (cache : gmap string (list F))
    (texts : list string) (batch_size : Z) :
  let result :=
    batch_embed F _get_text_hash model_encode_batch cache_embeddings cache
      texts batch_size in
  length (fst result) = length texts
  /\ (cache_embeddings = false -> snd result = cache)
  /\ forall k,
       snd result !! k = cache !! k
       \/ (cache_embeddings = true
           /\ (exists text,
                 In text texts
                 /\ is_pending _get_text_hash cache text = true
                 /\ k = _get_text_hash (strip text))
           /\ is_Some (snd result !! k)).
Proof.
  cbv zeta.
  assert (Hmain :
    length (fst (batch_embed F _get_text_hash model_encode_batch
                   cache_embeddings cache texts batch_size)) = length texts
    /\ written_at
         (map (fun it => strip (snd it))
              (pending_items _get_text_hash cache texts))
         cache
         (snd (batch_embed F _get_text_hash model_encode_batch
                 cache_embeddings cache texts batch_size))).
  { unfold batch_embed.
    destruct texts as [|t0 texts'] eqn:Etexts; cbn [truthy negb].
    { split; [reflexivity|apply written_at_refl]. }
    rewrite <- Etexts. clear Etexts t0 texts'.
    rewrite lookup_all_pending.
    cbn [looked_up uncached_texts uncached_indices].
    set (sent := map (fun it => strip (snd it))
                   (pending_items _get_text_hash cache texts)).
    set (uncached := {| looked_up := _; uncached_texts := sent |}).
    set (st0 := {| embeddings := _; cache_of := cache |}).
    assert (Hlen0 : length (embeddings st0) = length texts).
    { subst st0. cbn [embeddings]. apply length_map. }
    destruct (truthy sent);
      [|cbn [fst snd]; split; [apply length_map|apply written_at_refl]].
    assert (Hrun : exists st raised,
      (if batch_size =? 0 then (st0, Some ValueError)
       else if batch_size <? 0 then (st0, None)
       else process_batches F _get_text_hash model_encode_batch
              cache_embeddings uncached (Z.to_nat batch_size)
              (range_step (length sent) (Z.to_nat batch_size)) st0)
      = (st, raised)
      /\ length (embeddings st) = length texts
      /\ written_at sent cache (cache_of st)).
    { destruct (batch_size =? 0);
        [do 2 eexists; split; [reflexivity|];
         split; [exact Hlen0|apply written_at_refl]|].
      destruct (batch_size <? 0);
        [do 2 eexists; split; [reflexivity|];
         split; [exact Hlen0|apply written_at_refl]|].
      destruct (process_batches _ _ _ _ _ _ _ st0) as [st raised] eqn:E.
      apply process_batches_frame in E as [Hlen Hcache].
      do 2 eexists. split; [reflexivity|]. split; [congruence|exact Hcache]. }
    destruct Hrun as (st & raised & -> & Hlen & Hcache).
    destruct raised; cbn [fst snd]; split; try exact Hcache;
      try exact Hlen.
    unfold fill_placeholders. now rewrite length_map. }
  destruct Hmain as [Hlen Hcache].
  split; [exact Hlen|]. split.
  - intros Hoff. apply map_eq. intros k.
    destruct (Hcache k) as [E|(Hon & _)]; [exact E|congruence].
  - intros k. destruct (Hcache k) as [E|(Hon & (t & Ht & Hk) & Hs)];
      [now left|right].
    split; [exact Hon|]. split; [|exact Hs].
    apply in_map_iff in Ht as ([i text] & <- & Hin).
    unfold pending_items in Hin. apply filter_In in Hin as [Hin Hp].
    exists text. cbn [snd] in *. split; [|now split].
    apply in_enumerate_from in Hin as [_ Hl].
    apply list_elem_of_In, list_elem_of_lookup. eauto.
Qed.

End BatchShape.

(** ** The ordering of binary64 numbers *)

Lemma SFcompare_defined (x y : spec_float) :
  SFcompare x x <> None -> SFcompare y y <> None -> SFcompare x y <> None.
Proof.
  destruct x as [sx|sx| |sx mx ex], y as [sy|sy| |sy my ey];
    cbn [SFcompare]; congruence.
Qed.

Lemma SFcompare_number_l (x y : spec_float) :
  SFcompare x y <> None -> SFcompare x x <> None.
Proof.
  destruct x as [sx|sx| |sx mx ex], y as [sy|sy| |sy my ey];
    cbn [SFcompare]; congruence.
Qed.

Lemma SFcompare_refl (x : spec_float) :
  SFcompare x x <> None -> SFcompare x x = Some Eq.
Proof.
  destruct x as [sx|sx| |sx mx ex]; cbn [SFcompare]; try congruence.
  - now destruct sx.
  - intros _. change (Pos.compare_cont Eq mx mx) with (Pos.compare mx mx).
    rewrite Z.compare_refl, Pos.compare_refl. now destruct sx.
Qed.

Lemma SFcompare_not_lt_trans (x y z : spec_float) :
  SFcompare x x <> None -> SFcompare y y <> None -> SFcompare z z <> None ->
  SFcompare x y <> Some Lt -> SFcompare y z <> Some Lt ->
  SFcompare x z <> Some Lt.
Proof.
  destruct x as [sx|sx| |sx mx ex], y as [sy|sy| |sy my ey],
    z as [sz|sz| |sz mz ez];
    cbn [SFcompare]; try congruence;
    try destruct sx; try destruct sy; try destruct sz; try congruence;
    intros _ _ _ Hxy Hyz; compare_cases; cbn [CompOpp] in *;
    try congruence; try lia.
Qed.

Lemma binary64_number (a : binary64) :
  f_eqb a a = true <-> SFcompare (Prim2SF a) (Prim2SF a) <> None.
Proof.
  cbn [f_eqb binary64]. rewrite FloatAxioms.eqb_spec. unfold SFeqb.
  split.
  - now destruct (SFcompare (Prim2SF a) (Prim2SF a)).
  - intros H. now rewrite (SFcompare_refl _ H).
Qed.

Lemma binary64_not_lt (a b : binary64) :
  f_ltb a b = false <-> SFcompare (Prim2SF a) (Prim2SF b) <> Some Lt.
Proof.
  cbn [f_ltb binary64]. rewrite FloatAxioms.ltb_spec. unfold SFltb.
  destruct (SFcompare (Prim2SF a) (Prim2SF b)) as [[]|];
    split; congruence.
Qed.

Lemma binary64_orders_numbers : orders_numbers binary64.
Proof.
  split.
  - intros a b. unfold f_geb. rewrite binary64_number.
    cbn [f_leb binary64]. rewrite FloatAxioms.leb_spec. unfold SFleb.
    rewrite (SFcompare_swap (Prim2SF a) (Prim2SF b)).
    intros H. apply (SFcompare_number_l _ (Prim2SF b)).
    now destruct (SFcompare (Prim2SF a) (Prim2SF b)).
  - intros a b. unfold f_gtb. rewrite binary64_number.
    cbn [f_ltb binary64]. rewrite FloatAxioms.ltb_spec. unfold SFltb.
    rewrite (SFcompare_swap (Prim2SF a) (Prim2SF b)).
    intros H. apply (SFcompare_number_l _ (Prim2SF b)).
    now destruct (SFcompare (Prim2SF a) (Prim2SF b)).
  - intros a b. cbn [f_ltb binary64]. rewrite !FloatAxioms.ltb_spec.
    unfold SFltb. rewrite (SFcompare_swap (Prim2SF a) (Prim2SF b)).
    destruct (SFcompare (Prim2SF a) (Prim2SF b)) as [[]|];
      cbn [option_map CompOpp]; congruence.
  - intros a b c. rewrite !binary64_number, !binary64_not_lt.
    apply SFcompare_not_lt_trans.
Qed.

Lemma real_orders_numbers : orders_numbers real.
Proof.
  split; unfold f_geb, f_gtb; cbn [f_eqb f_ltb f_leb real].
  - intros a b _. now destruct (Req_dec_T a a).
  - intros a b _. now destruct (Req_dec_T a a).
  - intros a b. destruct (Rlt_dec a b); [|discriminate].
    intros _. destruct (Rlt_dec b a); [exfalso; lra|reflexivity].
  - intros a b c _ _ _.
    destruct (Rlt_dec a b); [discriminate|].
    destruct (Rlt_dec b c); [discriminate|].
    intros _ _. destruct (Rlt_dec a c); [exfalso; lra|reflexivity].
Qed.

(** ** The descending sort orders numbers *)

Section SortedFacts.

Context {F : pyfloat} {A : Type}.
Variable key : A -> F.
Hypothesis laws : orders_numbers F.

Local Abbreviation number := (fun x : A => f_eqb (key x) (key x) = true).
Local Abbreviation not_below :=
  (fun x y : A => f_ltb (key x) (key y) = false).

Lemma insert_desc_sorted (x : A) (l : list A) :
  number x -> Forall number l ->
  StronglySorted not_below l ->
  StronglySorted not_below (insert_desc key x l).
Proof.
  intros Hx Hl Hs. induction Hs as [|y l Hs IH Hy]; cbn [insert_desc].
  - repeat constructor.
  - apply Forall_cons in Hl as [Hny Hl].
    destruct (f_ltb (key x) (key y)) eqn:Exy.
    + constructor; [now apply IH|].
      apply Forall_forall. intros z Hz.
      apply list_elem_of_In, in_insert_desc in Hz as [->|Hz].
      * exact (lt_asymmetric F laws _ _ Exy).
      * rewrite Forall_forall in Hy. now apply Hy, list_elem_of_In.
    + constructor; [now constructor|].
      constructor; [exact Exy|].
      rewrite Forall_forall in Hy, Hl. apply Forall_forall. intros z Hz.
      apply (not_lt_transitive F laws (key x) (key y) (key z));
        [exact Hx|exact Hny|now apply Hl|exact Exy|now apply Hy].
Qed.

Lemma sort_desc_sorted (l : list A) :
  Forall number l -> StronglySorted not_below (sort_desc key l).
Proof.
  induction 1 as [|x l Hx Hl IH]; cbn [sort_desc fold_right];
    [constructor|].
  apply insert_desc_sorted; [exact Hx| |exact IH].
  apply Forall_forall. intros y Hy.
  rewrite Forall_forall in Hl. apply Hl.
  apply list_elem_of_In. apply list_elem_of_In in Hy.
  exact (proj1 (in_sort_desc key y l) Hy).
Qed.

End SortedFacts.

Lemma StronglySorted_firstn {A : Type} (R : A -> A -> Prop) (n : nat)
    (l : list A) :
  StronglySorted R l -> StronglySorted R (firstn n l).
Proof.
  intros Hs. revert n. induction Hs as [|x l Hs IH Hx]; intros [|n];
    cbn [firstn]; try constructor; [apply IH|].
  rewrite Forall_forall in Hx. apply Forall_forall. intros y Hy. apply Hx.
  apply list_elem_of_In. apply list_elem_of_In in Hy.
  now apply in_firstn in Hy.
Qed.

Lemma StronglySorted_slice_to {A : Type} (R : A -> A -> Prop) (n : Z)
    (l : list A) :
  StronglySorted R l -> StronglySorted R (slice_to n l).
Proof.
  intros Hs. unfold slice_to.
  destruct (n <? 0); now apply StronglySorted_firstn.
Qed.

Lemma StronglySorted_map {A B : Type} (R : B -> B -> Prop) (f : A -> B)
    (l : list A) :
  StronglySorted (fun x y => R (f x) (f y)) l ->
  StronglySorted R (map f l).
Proof.
  induction 1 as [|x l Hs IH Hx]; cbn [map]; constructor; [exact IH|].
  rewrite Forall_forall in Hx. apply Forall_forall. intros y Hy.
  apply list_elem_of_In, in_map_iff in Hy as (z & <- & Hz).
  now apply Hx, list_elem_of_In.
Qed.

(** *** [find_most_similar] *)






(** ** Further properties of the two searches *)

Section SearchResultFacts.

Variable F : pyfloat.
Variable scan_order : gset string -> list string.
Variable set_order : gset string -> list string.

Implicit Types st : gmap string (rvalue F).

Lemma keyword_candidates_in st query_lower keys results r :
  keyword_candidates F st query_lower keys = Ok results ->
  In r results ->
  (exists key, In key keys
               /\ hget_data F st key = Ok (Some (content_chunk r)))
  /\ relevance_score r = keyword_score F query_lower (content_chunk r)
  /\ f_gtb (relevance_score r) f_zero = true.
Proof.
  revert results. induction keys as [|k keys IH]; intros results;
    cbn [keyword_candidates].
  - intros [= <-] [].
  - destruct (hget_data F st k) as [o|e] eqn:Ek; cbn [exc_bind];
      [|discriminate].
    destruct (keyword_candidates F st query_lower keys) as [rest|e];
      cbn [exc_bind]; [|discriminate].
    assert (Hrest : In r rest ->
              (exists key, In key (k :: keys)
                 /\ hget_data F st key = Ok (Some (content_chunk r)))
              /\ relevance_score r
                 = keyword_score F query_lower (content_chunk r)
              /\ f_gtb (relevance_score r) f_zero = true).
    { intros Hin. destruct (IH rest eq_refl Hin) as ((key & Hk & Hd) & H).
      split; [|exact H]. exists key. split; [now right|exact Hd]. }
    destruct o as [chunk_dict|]; [|intros [= <-]; exact Hrest].
    destruct (f_gtb (keyword_score F query_lower chunk_dict) f_zero) eqn:Eg;
      [|intros [= <-]; exact Hrest].
    intros [= <-] [<-|Hin]; [|now apply Hrest].
    cbn [content_chunk relevance_score]. split; [|now split].
    exists k. split; [now left|exact Ek].
Qed.

Lemma keyword_search_in st query filters r :
  In r (keyword_search F scan_order set_order st query filters) ->
  exists keys results,
    _get_filtered_chunks F scan_order set_order st filters = Ok keys
    /\ keyword_candidates F st (lower query) keys = Ok results
    /\ In r results.
Proof.
  unfold keyword_search.
  destruct (_get_filtered_chunks F scan_order set_order st filters)
    as [keys|e]; cbn [exc_bind try_except]; [|intros []].
  destruct (keyword_candidates F st (lower query) keys) as [results|e] eqn:E;
    cbn [exc_bind try_except]; [|intros []].
  intros Hin. apply in_sort_desc in Hin. eauto.
Qed.

Lemma vector_search_length st (query_embedding : list F)
    (filters : option (list (string * string))) (max_results : Z)
    (similarity_threshold : F) :
  0 <= max_results ->
  Z.of_nat (length (vector_search F scan_order set_order st query_embedding
                      filters max_results similarity_threshold))
  <= max_results.
Proof.
  intros Hmax. unfold vector_search.
  destruct (ranked_candidates F scan_order set_order st query_embedding
              filters max_results similarity_threshold)
    as [sims|e] eqn:Er; cbn [exc_bind try_except length]; [|lia].
  rewrite length_map. unfold ranked_candidates in Er.
  destruct (_get_filtered_chunks F scan_order set_order st filters)
    as [keys|e]; cbn [exc_bind] in Er; [|discriminate].
  destruct (truthy keys); cbn [negb] in Er.
  - destruct (score_candidates F st query_embedding similarity_threshold
                keys) as [similarities|e]; cbn [exc_bind] in Er;
      [|discriminate].
    injection Er as <-. now apply length_slice_to_le.
  - injection Er as <-. cbn [length]. lia.
Qed.

(** X16.  Whatever the store holds and however it enumerates its keys,
    every result of [vector_search] is tagged "semantic", carries a chunk
    that is stored under one of the candidate keys with a non-empty
    vector, and has as score the similarity of the query to that vector,
    which is at or above the threshold.  For a [max_results] that is not
    negative there are at most [max_results] results. *)
Theorem vector_search_results st (query_embedding : list F)
    (filters : option (list (string * string))) (max_results : Z)
    (similarity_threshold : F) :
  let results :=
    vector_search F scan_order set_order st query_embedding filters
      max_results similarity_threshold in
  (forall r, In r results ->
     match_type r = "semantic"%string
     /\ (exists key, hget_data F st key = Ok (Some (content_chunk r)))
     /\ embedding (content_chunk r) <> []
     /\ relevance_score r
        = _cosine_similarity F query_embedding (embedding (content_chunk r))
     /\ f_geb (relevance_score r) similarity_threshold = true)
  /\ (0 <= max_results -> Z.of_nat (length results) <= max_results).
Proof.
  cbv zeta. split.
  - intros r Hr.
    apply vector_search_in in Hr as (keys & sims & x & _ & Hsims & Hx & ->).
    apply (score_candidates_in F st _ _ _ _ x Hsims) in Hx
      as (_ & Hget & Htruthy & Hsim & Hge).
    cbn [semantic_result match_type content_chunk relevance_score].
    split; [reflexivity|]. split; [eauto|]. split; [|now split].
    intros Hnil. rewrite Hnil in Htruthy. discriminate.
  - apply vector_search_length.
Qed.

Lemma keyword_score_lower (query_lower : string) (chunk : ContentChunk F) :
  keyword_score F query_lower chunk
  = if str_contains query_lower (lower (chunk_title chunk))
    then if str_contains query_lower (lower (chunk_content chunk))
         then f_add (f_add f_zero f_one) f_half
         else f_add f_zero f_one
    else if str_contains query_lower (lower (chunk_content chunk))
         then f_add f_zero f_half
         else f_zero.
Proof.
  unfold keyword_score.
  now destruct (str_contains query_lower (lower (chunk_title chunk))),
    (str_contains query_lower (lower (chunk_content chunk))).
Qed.

(** X17.  [keyword_search] ignores the case of the query.  Provided 0 is
    not greater than itself, every result is tagged "keyword" and carries
    a stored chunk whose title or content contains the query, both taken
    in lower case; its score is 1.0 for the title plus 0.5 for the
    content. *)
Theorem keyword_search_matches st (query : string)
    (filters : option (list (string * string))) :
  keyword_search F scan_order set_order st (lower query) filters
  = keyword_search F scan_order set_order st query filters
  /\ (f_gtb (f_zero : F) f_zero = false ->
      forall r,
        In r (keyword_search F scan_order set_order st query filters) ->
        match_type r = "keyword"%string
        /\ (exists key, hget_data F st key = Ok (Some (content_chunk r)))
        /\ (str_contains (lower query)
              (lower (chunk_title (content_chunk r))) = true
            \/ str_contains (lower query)
                 (lower (chunk_content (content_chunk r))) = true)
        /\ relevance_score r
           = keyword_score F (lower query) (content_chunk r)).
Proof.
  split.
  - unfold keyword_search. now rewrite lower_idempotent.
  - intros Hzero r Hr.
    split; [now apply keyword_search_keyword in Hr|].
    apply keyword_search_in in Hr as (keys & results & _ & Hres & Hr).
    destruct (keyword_candidates_in st _ keys results r Hres Hr)
      as ((key & _ & Hget) & Hscore & Hgt).
    split; [eauto|]. split; [|exact Hscore].
    rewrite Hscore, keyword_score_lower in Hgt.
    destruct (str_contains (lower query)
                (lower (chunk_title (content_chunk r)))); [now left|].
    destruct (str_contains (lower query)
                (lower (chunk_content (content_chunk r)))); [now right|].
    congruence.
Qed.

(** X18.  Both searches return their results best first: where the
    numbers are ordered as binary64 orders them, the scores never
    increase from one result to the next ones. *)
Theorem searches_return_best_first st (query_embedding : list F)
    (query : string) (filters : option (list (string * string)))
    (max_results : Z) (similarity_threshold : F) :
  orders_numbers F ->
  best_first
    (vector_search F scan_order set_order st query_embedding filters
       max_results similarity_threshold)
  /\ best_first
       (keyword_search F scan_order set_order st query filters).
Proof.
  intros laws. unfold best_first. split.
  - unfold vector_search, ranked_candidates.
    destruct (_get_filtered_chunks F scan_order set_order st filters)
      as [keys|e]; cbn [exc_bind try_except map]; [|constructor].
    destruct (truthy keys); cbn [negb exc_bind try_except map];
      [|constructor].
    destruct (score_candidates F st query_embedding similarity_threshold
                keys) as [sims|e] eqn:Hsims;
      cbn [exc_bind try_except map]; [|constructor].
    rewrite map_map. apply StronglySorted_map, StronglySorted_slice_to.
    apply (sort_desc_sorted scored_similarity laws).
    apply Forall_forall. intros x Hx. apply list_elem_of_In in Hx.
    apply (score_candidates_in F st _ _ _ _ x Hsims) in Hx
      as (_ & _ & _ & _ & Hge).
    exact (ge_is_number F laws _ _ Hge).
  - unfold keyword_search.
    destruct (_get_filtered_chunks F scan_order set_order st filters)
      as [keys|e]; cbn [exc_bind try_except map]; [|constructor].
    destruct (keyword_candidates F st (lower query) keys)
      as [results|e] eqn:Hres; cbn [exc_bind try_except map];
      [|constructor].
    apply StronglySorted_map.
    apply (sort_desc_sorted relevance_score laws).
    apply Forall_forall. intros r Hr. apply list_elem_of_In in Hr.
    destruct (keyword_candidates_in st _ keys results r Hres Hr)
      as (_ & _ & Hgt).
    exact (gt_is_number F laws _ _ Hgt).
Qed.

(** X19.  The search handler never returns more than [max_results]
    results (the value given in the call, or else the configured
    default), provided that bound is not negative: the keyword results
    are cut to it and are only added when there is no vector result. *)
Theorem handler_results_bounded (_get_text_hash : string -> string)
    (model_encode : string -> exc (list F)) (cache_embeddings : bool)
    (config : SearchConfig F) st (cache : gmap string (list F))
    (arguments : search_arguments) (outcome : search_outcome F) :
  _handle_search_rulebook F _get_text_hash model_encode cache_embeddings
    scan_order set_order config st cache arguments = Some outcome ->
  0 <= default (default_max_results F config) (arg_max_results arguments) ->
  Z.of_nat (length (all_results outcome))
  <= default (default_max_results F config) (arg_max_results arguments).
Proof.
  unfold _handle_search_rulebook.
  destruct (negb (str_truthy (default EmptyString (arg_query arguments))));
    [discriminate|].
  set (filters := if negb _ then _ else _).
  set (max_results := default _ (arg_max_results arguments)).
  set (emb := fst (generate_embedding _ _ _ _ _ _)).
  intros Hout Hmax.
  pose proof (vector_search_length st emb (Some filters) max_results
                (similarity_threshold F config) Hmax) as Hvec.
  pose proof (proj2 (length_slice_to_le max_results
                (keyword_search F scan_order set_order st
                   (default EmptyString (arg_query arguments))
                   (Some filters))) Hmax) as Hkey.
  destruct (truthy emb).
  - destruct (vector_search F scan_order set_order st emb (Some filters)
                max_results (similarity_threshold F config)) as [|r0 vr];
      destruct (enable_keyword_fallback F config);
      cbn [negb andb truthy] in Hout; injection Hout as <-;
      cbn [all_results app]; rewrite ?app_nil_r; cbn [length] in *; lia.
  - destruct (enable_keyword_fallback F config);
      cbn [negb andb truthy] in Hout; injection Hout as <-;
      cbn [all_results app length]; lia.
Qed.

End SearchResultFacts.

Lemma searches_return_best_first_witness :
  best_first
    (vector_search binary64 elements elements abc_store unit_query None 5
       default_similarity_threshold)
  /\ best_first
       (keyword_search binary64 elements elements abc_store "a" None).
Proof.
  apply (searches_return_best_first binary64 elements elements abc_store).
  exact binary64_orders_numbers.
Defined.

Lemma handler_results_bounded_witness :
  exists outcome,
    example_search "dragon" = Some outcome
    /\ Z.of_nat (length (all_results outcome)) <= 5.
Proof.
  destruct (example_search "dragon") as [outcome|] eqn:E;
    [|vm_compute in E; discriminate E].
  exists outcome. split; [reflexivity|].
  apply (handler_results_bounded binary64 elements elements
           (fun text => text) unit_model true default_search_config
           abc_store ∅ (query_arguments "dragon") outcome E).
  cbn. lia.
Defined.

(** ** Further properties of the store *)

Section StoreMoreFacts.

Variable F : pyfloat.
Variable scan_order : gset string -> list string.
Variable set_order : gset string -> list string.

Implicit Types st : gmap string (rvalue F).

Lemma store_extends_refl st : store_extends st st.
Proof.
  intros k. destruct (st !! k) as [[h|s]|]; eauto.
Qed.

Lemma store_extends_trans st1 st2 st3 :
  store_extends st1 st2 -> store_extends st2 st3 -> store_extends st1 st3.
Proof.
  intros H12 H23 k. specialize (H12 k). specialize (H23 k).
  destruct (st1 !! k) as [[h|s]|]; [| |exact I].
  - destruct H12 as [h' E]. now rewrite E in H23.
  - destruct H12 as (s' & E & Hs). rewrite E in H23.
    destruct H23 as (s'' & E' & Hs'). exists s''.
    split; [exact E'|]. now transitivity s'.
Qed.

Lemma hset_extends st key h : store_extends st (hset F st key h).
Proof.
  intros k. unfold hset.
  destruct (st !! key) as [[h0|s0]|] eqn:Ekey;
    try apply store_extends_refl.
  - destruct (decide (key = k)) as [<-|Hne].
    + rewrite Ekey, lookup_insert_eq. eauto.
    + rewrite lookup_insert_ne by exact Hne.
      apply store_extends_refl.
  - destruct (decide (key = k)) as [<-|Hne].
    + now rewrite Ekey.
    + rewrite lookup_insert_ne by exact Hne.
      apply store_extends_refl.
Qed.

Lemma sadd_extends st name member : store_extends st (sadd F st name member).
Proof.
  intros k. unfold sadd.
  destruct (st !! name) as [[h0|s0]|] eqn:Ename;
    try apply store_extends_refl.
  - destruct (decide (name = k)) as [<-|Hne].
    + rewrite Ename, lookup_insert_eq. eexists. split; [reflexivity|].
      apply union_subseteq_r.
    + rewrite lookup_insert_ne by exact Hne.
      apply store_extends_refl.
  - destruct (decide (name = k)) as [<-|Hne].
    + now rewrite Ename.
    + rewrite lookup_insert_ne by exact Hne.
      apply store_extends_refl.
Qed.

Lemma store_chunk_extends st chunk :
  store_extends st (store_chunk F st chunk).
Proof.
  unfold store_chunk.
  eapply store_extends_trans; [|apply sadd_extends].
  eapply store_extends_trans; [|apply sadd_extends].
  eapply store_extends_trans; [|apply sadd_extends].
  apply hset_extends.
Qed.

Lemma store_rulebook_content_extends st (content : list (ContentChunk F)) :
  store_extends st (store_rulebook_content F st content).
Proof.
  unfold store_rulebook_content. revert st.
  induction content as [|chunk content IH]; intros st; cbn [fold_left].
  - apply store_extends_refl.
  - eapply store_extends_trans; [apply store_chunk_extends|apply IH].
Qed.

Lemma index_members_extends st st' d v :
  store_extends st st' -> index_members st d v ⊆ index_members st' d v.
Proof.
  intros Hext. unfold index_members. specialize (Hext (d +:+ ":" +:+ v)).
  destruct (st !! (d +:+ ":" +:+ v)) as [[h|s]|];
    try apply empty_subseteq.
  destruct Hext as (s' & -> & Hs). exact Hs.
Qed.

(** X20.  [store_rulebook_content] only ever adds, whatever the store
    holds and whatever is stored: a key under which a chunk could be read
    still gives a chunk, and every index set keeps the members it had.
    So a chunk that is stored again with another rulebook, system or
    content type stays listed under the old value as well. *)
Theorem store_only_adds st (content : list (ContentChunk F)) :
  let st' := store_rulebook_content F st content in
  (forall key chunk,
     hget_data F st key = Ok (Some chunk) ->
     exists chunk', hget_data F st' key = Ok (Some chunk'))
  /\ (forall name members,
        st !! name = Some (RSet members) ->
        exists members',
          smembers F st' name = Ok members' /\ members ⊆ members')
  /\ forall dimension value,
       index_members st dimension value
       ⊆ index_members st' dimension value.
Proof.
  cbv zeta. pose proof (store_rulebook_content_extends st content) as Hext.
  split; [|split].
  - intros key chunk. unfold hget_data. specialize (Hext key).
    destruct (st !! key) as [[h|s]|]; try discriminate.
    destruct Hext as [h' ->]. eauto.
  - intros name members Hname. unfold smembers. specialize (Hext name).
    rewrite Hname in Hext. destruct Hext as (s' & -> & Hs). eauto.
  - intros d v. now apply index_members_extends.
Qed.

Lemma chunk_key_prefix (id : string) :
  String.prefix CHUNK_PREFIX (CHUNK_PREFIX +:+ id) = true.
Proof. cbn. now destruct id. Qed.

Lemma chunk_key_inj (id1 id2 : string) :
  CHUNK_PREFIX +:+ id1 = CHUNK_PREFIX +:+ id2 -> id1 = id2.
Proof.
  unfold CHUNK_PREFIX. cbv [String.append]. now intros [= ->].
Qed.

Lemma sadd_other_key st name member k :
  k <> name -> sadd F st name member !! k = st !! k.
Proof.
  intros Hne. unfold sadd.
  destruct (st !! name) as [[h0|s0]|]; [reflexivity| |];
    now rewrite lookup_insert_ne.
Qed.

Lemma hset_other_key st key h k :
  k <> key -> hset F st key h !! k = st !! k.
Proof.
  intros Hne. unfold hset.
  destruct (st !! key) as [[h0|s0]|]; [|reflexivity|];
    now rewrite lookup_insert_ne.
Qed.

Lemma sadd_member st name member :
  store_inv st -> String.prefix CHUNK_PREFIX name = false ->
  exists members,
    sadd F st name member !! name = Some (RSet members)
    /\ member ∈ members.
Proof.
  intros Hinv Hname. unfold sadd.
  destruct (st !! name) as [[h0|s0]|] eqn:Ename.
  - apply (inv_hash _ Hinv) in Ename. congruence.
  - rewrite lookup_insert_eq. eexists. split; [reflexivity|].
    apply elem_of_union_l. now apply elem_of_singleton.
  - rewrite lookup_insert_eq. eexists. split; [reflexivity|].
    now apply elem_of_singleton.
Qed.

(** One chunk stored: its key holds its serialised form, every other
    chunk key is untouched, and its key is a member of its three index
    sets. *)
Lemma store_chunk_effect st chunk :
  store_inv st ->
  let st' := store_chunk F st chunk in
  let key := CHUNK_PREFIX +:+ chunk_id chunk in
  hget_data F st' key = Ok (Some (stored_form chunk))
  /\ (forall k, String.prefix CHUNK_PREFIX k = true -> k <> key ->
        st' !! k = st !! k)
  /\ key ∈ index_members st' "rulebook" (rulebook chunk)
  /\ key ∈ index_members st' "system" (system chunk)
  /\ key ∈ index_members st' "content_type" (content_type chunk).
Proof.
  intros Hinv. cbv zeta. unfold store_chunk.
  set (key := CHUNK_PREFIX +:+ chunk_id chunk).
  set (h := {| h_data := _ |}).
  pose proof (chunk_key_prefix (chunk_id chunk)) as Hkey. fold key in Hkey.
  set (st1 := hset F st key h).
  set (st2 := sadd F st1 ("rulebook:" +:+ rulebook chunk) key).
  set (st3 := sadd F st2 ("system:" +:+ system chunk) key).
  set (st4 := sadd F st3 ("content_type:" +:+ content_type chunk) key).
  pose proof (hset_inv F st key h Hinv Hkey) as H1. fold st1 in H1.
  pose proof (hset_lookup_key F st key h Hinv Hkey) as Hk1. fold st1 in Hk1.
  assert (Hk2 : st2 !! key = Some (RHash h)).
  { subst st2. rewrite sadd_other_key; [exact Hk1|].
    intros E. rewrite E in Hkey. discriminate Hkey. }
  assert (H2 : store_inv st2).
  { subst st2. apply sadd_inv; [exact H1|reflexivity|eauto]. }
  assert (Hk3 : st3 !! key = Some (RHash h)).
  { subst st3. rewrite sadd_other_key; [exact Hk2|].
    intros E. rewrite E in Hkey. discriminate Hkey. }
  assert (H3 : store_inv st3).
  { subst st3. apply sadd_inv; [exact H2|reflexivity|eauto]. }
  assert (Hk4 : st4 !! key = Some (RHash h)).
  { subst st4. rewrite sadd_other_key; [exact Hk3|].
    intros E. rewrite E in Hkey. discriminate Hkey. }
  split; [|split; [|split; [|split]]].
  - unfold hget_data. now rewrite Hk4.
  - intros k Hk Hne. subst st4 st3 st2 st1.
    rewrite !sadd_other_key, hset_other_key; try reflexivity;
      try exact Hne; intros E; rewrite E in Hk; discriminate Hk.
  - destruct (sadd_member st1 ("rulebook:" +:+ rulebook chunk) key H1
                eq_refl) as (s & Es & Hs).
    fold st2 in Es.
    pose proof (sadd_extends st2 ("system:" +:+ system chunk) key
                  ("rulebook:" +:+ rulebook chunk)) as E3.
    fold st3 in E3. rewrite Es in E3. destruct E3 as (s3 & Es3 & Hs3).
    pose proof (sadd_extends st3 ("content_type:" +:+ content_type chunk)
                  key ("rulebook:" +:+ rulebook chunk)) as E4.
    fold st4 in E4. rewrite Es3 in E4. destruct E4 as (s4 & Es4 & Hs4).
    unfold index_members.
    change ("rulebook" +:+ ":" +:+ rulebook chunk)
      with ("rulebook:" +:+ rulebook chunk).
    rewrite Es4. apply Hs4, Hs3, Hs.
  - destruct (sadd_member st2 ("system:" +:+ system chunk) key H2
                eq_refl) as (s & Es & Hs).
    fold st3 in Es.
    pose proof (sadd_extends st3 ("content_type:" +:+ content_type chunk)
                  key ("system:" +:+ system chunk)) as E4.
    fold st4 in E4. rewrite Es in E4. destruct E4 as (s4 & Es4 & Hs4).
    unfold index_members.
    change ("system" +:+ ":" +:+ system chunk)
      with ("system:" +:+ system chunk).
    rewrite Es4. apply Hs4, Hs.
  - destruct (sadd_member st3 ("content_type:" +:+ content_type chunk) key
                H3 eq_refl) as (s & Es & Hs).
    fold st4 in Es. unfold index_members.
    change ("content_type" +:+ ":" +:+ content_type chunk)
      with ("content_type:" +:+ content_type chunk).
    now rewrite Es.
Qed.

Lemma later_chunks_keep st (later : list (ContentChunk F)) k :
  String.prefix CHUNK_PREFIX k = true ->
  (forall c, In c later -> CHUNK_PREFIX +:+ chunk_id c <> k) ->
  store_inv st ->
  store_rulebook_content F st later !! k = st !! k.
Proof.
  intros Hk. unfold store_rulebook_content. revert st.
  induction later as [|c later IH]; intros st Hother Hinv; cbn [fold_left];
    [reflexivity|].
  rewrite IH.
  - apply (store_chunk_effect st c Hinv); [exact Hk|].
    intros ->. now apply (Hother c); [left|].
  - intros c' Hc'. apply Hother. now right.
  - now apply store_chunk_inv.
Qed.

Lemma chunk_key_stays st (later : list (ContentChunk F)) (id : string) :
  store_inv st ->
  (exists stored, hget_data F st (CHUNK_PREFIX +:+ id) = Ok (Some stored)
                  /\ chunk_id stored = id) ->
  exists stored,
    hget_data F (store_rulebook_content F st later) (CHUNK_PREFIX +:+ id)
    = Ok (Some stored)
    /\ chunk_id stored = id.
Proof.
  unfold store_rulebook_content. revert st.
  induction later as [|c later IH]; intros st Hinv Hst; cbn [fold_left];
    [exact Hst|].
  apply IH; [now apply store_chunk_inv|].
  destruct (store_chunk_effect st c Hinv) as (Hget & Hother & _).
  destruct (decide (chunk_id c = id)) as [<-|Hne].
  - exists (stored_form c). now split.
  - destruct Hst as (stored & Hst & Hid). exists stored.
    split; [|exact Hid]. unfold hget_data in *.
    rewrite Hother; [exact Hst|apply chunk_key_prefix|].
    intros E. apply chunk_key_inj in E. congruence.
Qed.

(** X21.  On a well-kept store, every chunk given to
    [store_rulebook_content] is listed afterwards in the index sets of its
    rulebook, its system and its content type, and its key holds a chunk.
    The chunk read back under that key is the serialised form of the last
    chunk of the list with that id: of two chunks with one id, the later
    one replaces the earlier one. *)
Theorem stored_chunk_is_indexed_and_read_back st
    (earlier later : list (ContentChunk F)) (chunk : ContentChunk F) :
  store_inv st ->
  let st' := store_rulebook_content F st (earlier ++ chunk :: later) in
  let key := CHUNK_PREFIX +:+ chunk_id chunk in
  key ∈ index_members st' "rulebook" (rulebook chunk)
  /\ key ∈ index_members st' "system" (system chunk)
  /\ key ∈ index_members st' "content_type" (content_type chunk)
  /\ (exists stored, hget_data F st' key = Ok (Some stored)
                     /\ chunk_id stored = chunk_id chunk)
  /\ ((forall c, In c later -> chunk_id c <> chunk_id chunk) ->
      hget_data F st' key = Ok (Some (stored_form chunk))).
Proof.
  intros Hinv. cbv zeta. unfold store_rulebook_content.
  rewrite fold_left_app. cbn [fold_left].
  fold (store_rulebook_content F st earlier).
  set (st0 := store_rulebook_content F st earlier).
  assert (Hinv0 : store_inv st0) by now apply store_rulebook_content_inv.
  fold (store_rulebook_content F (store_chunk F st0 chunk) later).
  set (st1 := store_chunk F st0 chunk).
  assert (Hinv1 : store_inv st1) by now apply store_chunk_inv.
  destruct (store_chunk_effect st0 chunk Hinv0)
    as (Hget & _ & Hr & Hs & Hc). fold st1 in Hget, Hr, Hs, Hc.
  pose proof (store_rulebook_content_extends st1 later) as Hext.
  split; [|split; [|split; [|split]]].
  - exact (index_members_extends _ _ _ _ Hext _ Hr).
  - exact (index_members_extends _ _ _ _ Hext _ Hs).
  - exact (index_members_extends _ _ _ _ Hext _ Hc).
  - apply chunk_key_stays; [exact Hinv1|].
    exists (stored_form chunk). now split.
  - intros Hother.
    unfold hget_data.
    rewrite (later_chunks_keep st1 later (CHUNK_PREFIX +:+ chunk_id chunk)
               (chunk_key_prefix _)); [exact Hget| |exact Hinv1].
    intros c Hin E. apply chunk_key_inj in E. now apply (Hother c).
Qed.

Lemma score_candidates_length st q thr keys sims :
  score_candidates F st q thr keys = Ok sims ->
  (length sims <= length keys)%nat.
Proof.
  revert sims. induction keys as [|k keys IH]; intros sims;
    cbn [score_candidates].
  - intros [= <-]. reflexivity.
  - destruct (hget_data F st k) as [o|e]; cbn [exc_bind]; [|discriminate].
    destruct (score_candidates F st q thr keys) as [rest|e];
      cbn [exc_bind]; [|discriminate].
    specialize (IH rest eq_refl). cbn [length].
    destruct o as [d|]; [|intros [= <-]; lia].
    destruct (truthy (embedding d)); [|intros [= <-]; lia].
    destruct (f_geb _ thr); intros [= <-]; cbn [length]; lia.
Qed.

Lemma filtered_chunks_contains st filters key :
  store_inv st -> enumerates scan_order -> enumerates set_order ->
  (exists h, st !! key = Some (RHash h)) ->
  (forall d v, In (d, v) (default [] filters) ->
     In d dimensions /\ key ∈ index_members st d v) ->
  exists keys,
    _get_filtered_chunks F scan_order set_order st filters = Ok keys
    /\ In key keys
    /\ forall k, In k keys -> exists h, st !! k = Some (RHash h).
Proof.
  intros Hinv Hscan Hset Hkey Hfilters.
  destruct (get_filtered_chunks_ok F scan_order set_order st filters
              Hinv Hscan Hset) as (keys & Hkeys & Hstored).
  exists keys. split; [exact Hkeys|]. split; [|exact Hstored].
  destruct filters as [[|[d v] items]|]; cbn [default] in Hfilters;
    cbn [_get_filtered_chunks] in Hkeys.
  1, 3: injection Hkeys as <-; apply (Hscan _ key);
    now apply chunk_keys_spec.
  destruct (fold_apply_filter F scan_order set_order st ((d, v) :: items)
              (chunk_keys F st) Hinv)
    as (Y & HY & Hk).
  { intros d' v' Hin. now apply Hfilters in Hin. }
  rewrite HY in Hkeys. cbn [exc_bind] in Hkeys. injection Hkeys as <-.
  apply (Hset _ key), Hk. split; [now apply chunk_keys_spec|].
  intros d' v' Hin. now apply Hfilters in Hin.
Qed.

(** A chunk that was stored last under its id is read back in
    serialised form and is a candidate of every search whose filters it
    passes. *)
Lemma stored_chunk_is_candidate st
    (earlier later : list (ContentChunk F)) (chunk : ContentChunk F)
    (filters : option (list (string * string))) :
  store_inv st -> enumerates scan_order -> enumerates set_order ->
  (forall c, In c later -> chunk_id c <> chunk_id chunk) ->
  matches_filters chunk (default [] filters) ->
  let st' := store_rulebook_content F st (earlier ++ chunk :: later) in
  let key := CHUNK_PREFIX +:+ chunk_id chunk in
  hget_data F st' key = Ok (Some (stored_form chunk))
  /\ exists keys,
       _get_filtered_chunks F scan_order set_order st' filters = Ok keys
       /\ In key keys
       /\ forall k, In k keys -> exists h, st' !! k = Some (RHash h).
Proof.
  intros Hinv Hscan Hset Hlast Hmatch. cbv zeta.
  set (key := CHUNK_PREFIX +:+ chunk_id chunk).
  set (st' := store_rulebook_content F st (earlier ++ chunk :: later)).
  assert (Hinv' : store_inv st') by now apply store_rulebook_content_inv.
  (* the state right after the chunk itself is stored *)
  assert (Hsplit : st' = store_rulebook_content F
                           (store_chunk F
                              (store_rulebook_content F st earlier) chunk)
                           later).
  { subst st'. unfold store_rulebook_content.
    now rewrite fold_left_app. }
  set (st0 := store_rulebook_content F st earlier) in Hsplit.
  assert (Hinv0 : store_inv st0) by now apply store_rulebook_content_inv.
  set (st1 := store_chunk F st0 chunk) in Hsplit.
  assert (Hinv1 : store_inv st1) by now apply store_chunk_inv.
  destruct (store_chunk_effect st0 chunk Hinv0)
    as (Hget1 & _ & Hr & Hs & Hc).
  fold st1 key in Hget1, Hr, Hs, Hc.
  pose proof (store_rulebook_content_extends st1 later) as Hext.
  rewrite <- Hsplit in Hext.
  assert (Hget : hget_data F st' key = Ok (Some (stored_form chunk))).
  { unfold hget_data. rewrite Hsplit.
    rewrite (later_chunks_keep st1 later key (chunk_key_prefix _));
      [exact Hget1| |exact Hinv1].
    intros c Hin E. apply chunk_key_inj in E. now apply (Hlast c). }
  split; [exact Hget|].
  assert (Hkey : exists h, st' !! key = Some (RHash h)).
  { unfold hget_data in Hget.
    destruct (st' !! key) as [[h|s]|]; try discriminate. eauto. }
  apply (filtered_chunks_contains st' filters key Hinv' Hscan Hset Hkey).
  intros d v Hdv.
  destruct (Hmatch d v Hdv) as [[-> ->]|[[-> ->]|[-> ->]]].
  - split; [now left|]. exact (index_members_extends _ _ _ _ Hext _ Hr).
  - split; [right; now left|].
    exact (index_members_extends _ _ _ _ Hext _ Hs).
  - split; [right; right; now left|].
    exact (index_members_extends _ _ _ _ Hext _ Hc).
Qed.

(** X22.  Ingestion and retrieval fit together.  After
    [store_rulebook_content] on a well-kept store, a chunk of the stored
    list that is the last one with its id, has a non-empty vector and a
    similarity to the query at or above the threshold is a candidate of
    every search whose filters name its own rulebook, system or content
    type, and [vector_search] returns it, in serialised form and with that
    similarity as score, whenever [max_results] is at least the number of
    candidates. *)
Theorem stored_chunk_is_found st
    (earlier later : list (ContentChunk F)) (chunk : ContentChunk F)
    (query_embedding : list F) (filters : option (list (string * string)))
    (max_results : Z) (similarity_threshold : F) :
  store_inv st -> enumerates scan_order -> enumerates set_order ->
  (forall c, In c later -> chunk_id c <> chunk_id chunk) ->
  matches_filters chunk (default [] filters) ->
  embedding chunk <> [] ->
  f_geb (_cosine_similarity F query_embedding (embedding chunk))
    similarity_threshold = true ->
  let st' := store_rulebook_content F st (earlier ++ chunk :: later) in
  exists keys,
    _get_filtered_chunks F scan_order set_order st' filters = Ok keys
    /\ In (CHUNK_PREFIX +:+ chunk_id chunk) keys
    /\ (Z.of_nat (length keys) <= max_results ->
        In {| content_chunk := stored_form chunk;
              relevance_score :=
                _cosine_similarity F query_embedding (embedding chunk);
              match_type := "semantic" |}
           (vector_search F scan_order set_order st' query_embedding filters
              max_results similarity_threshold)).
Proof.
  intros Hinv Hscan Hset Hlast Hmatch Hvec Hge. cbv zeta.
  destruct (stored_chunk_is_candidate st earlier later chunk filters
              Hinv Hscan Hset Hlast Hmatch)
    as (Hget & keys & Hkeys & Hin & Hstored).
  set (key := CHUNK_PREFIX +:+ chunk_id chunk) in *.
  set (st' := store_rulebook_content F st (earlier ++ chunk :: later)) in *.
  exists keys. split; [exact Hkeys|]. split; [exact Hin|].
  intros Hmax.
  destruct (score_candidates_ok F st' query_embedding similarity_threshold
              keys Hstored) as [sims Hsims].
  destruct (vector_search_unfold F scan_order set_order st' query_embedding
              filters max_results similarity_threshold keys sims Hkeys Hsims)
    as [_ ->].
  pose proof (score_candidates_length st' _ _ _ _ Hsims) as Hlen.
  rewrite slice_to_all by (rewrite length_sort_desc; lia).
  apply (in_map (semantic_result F)
           (sort_desc scored_similarity sims)
           (key, stored_form chunk,
            _cosine_similarity F query_embedding (embedding chunk))).
  apply in_sort_desc.
  apply (score_candidates_in F st' _ _ _ _ _ Hsims).
  unfold scored_key, scored_chunk, scored_similarity. cbn [fst snd].
  split; [exact Hin|]. split; [exact Hget|].
  cbn [stored_form embedding].
  split; [now destruct (embedding chunk)|]. split; [reflexivity|exact Hge].
Qed.

Lemma keyword_candidates_ok st (query_lower : string) (keys : list string) :
  (forall k, In k keys -> exists h, st !! k = Some (RHash h)) ->
  exists results,
    keyword_candidates F st query_lower keys = Ok results
    /\ forall k chunk,
         In k keys -> hget_data F st k = Ok (Some chunk) ->
         f_gtb (keyword_score F query_lower chunk) f_zero = true ->
         In {| content_chunk := chunk;
               relevance_score := keyword_score F query_lower chunk;
               match_type := "keyword" |} results.
Proof.
  induction keys as [|key keys IH]; intros Hkeys; cbn [keyword_candidates].
  - exists []. split; [reflexivity|]. intros k chunk [].
  - destruct IH as (rest & -> & Hrest).
    { intros k Hk. apply Hkeys. now right. }
    destruct (Hkeys key (or_introl eq_refl)) as [h Hh].
    unfold hget_data at 1. rewrite Hh. cbn [exc_bind].
    destruct (f_gtb (keyword_score F query_lower (h_data h)) f_zero) eqn:Egt.
    + eexists. split; [reflexivity|].
      intros k chunk [<-|Hk] Hget Hscore.
      * unfold hget_data in Hget. rewrite Hh in Hget.
        injection Hget as <-. now left.
      * right. now apply (Hrest k).
    + exists rest. split; [reflexivity|].
      intros k chunk [<-|Hk] Hget Hscore.
      * unfold hget_data in Hget. rewrite Hh in Hget.
        injection Hget as <-. congruence.
      * now apply (Hrest k).
Qed.

(** X23.  Keyword search finds what was stored.  Provided the three
    keyword scores are greater than 0, after [store_rulebook_content] on
    a well-kept store a chunk that is the last one stored with its id and
    whose title or content contains the query, case ignored, is a result
    of every [keyword_search] whose filters name its own rulebook, system
    or content type. *)
Theorem stored_chunk_is_found_by_keyword st
    (earlier later : list (ContentChunk F)) (chunk : ContentChunk F)
    (query : string) (filters : option (list (string * string))) :
  keyword_scores_positive F ->
  store_inv st -> enumerates scan_order -> enumerates set_order ->
  (forall c, In c later -> chunk_id c <> chunk_id chunk) ->
  matches_filters chunk (default [] filters) ->
  str_contains (lower query) (lower (chunk_title chunk)) = true
  \/ str_contains (lower query) (lower (chunk_content chunk)) = true ->
  let st' := store_rulebook_content F st (earlier ++ chunk :: later) in
  In {| content_chunk := stored_form chunk;
        relevance_score := keyword_score F (lower query) chunk;
        match_type := "keyword" |}
     (keyword_search F scan_order set_order st' query filters).
Proof.
  intros (Htitle & Hboth & Hcontent) Hinv Hscan Hset Hlast Hmatch Hquery.
  cbv zeta.
  destruct (stored_chunk_is_candidate st earlier later chunk filters
              Hinv Hscan Hset Hlast Hmatch)
    as (Hget & keys & Hkeys & Hin & Hstored).
  set (st' := store_rulebook_content F st (earlier ++ chunk :: later)) in *.
  destruct (keyword_candidates_ok st' (lower query) keys Hstored)
    as (results & Hresults & Hfound).
  unfold keyword_search. rewrite Hkeys. cbn [exc_bind].
  rewrite Hresults. cbn [exc_bind try_except].
  apply in_sort_desc.
  change (keyword_score F (lower query) chunk)
    with (keyword_score F (lower query) (stored_form chunk)).
  apply (Hfound _ _ Hin Hget).
  unfold keyword_score. cbn [stored_form chunk_title chunk_content].
  destruct (str_contains (lower query) (lower (chunk_title chunk)));
    destruct (str_contains (lower query) (lower (chunk_content chunk)));
    try assumption.
  destruct Hquery; discriminate.
Qed.

End StoreMoreFacts.

Lemma stored_chunk_is_indexed_and_read_back_witness :
  let first_version :=
    example_chunk "A" "X" "S1" "Fireball" "a spell" [1%float; 0%float] in
  let second_version :=
    example_chunk "A" "Y" "S1" "Fireball" "a spell, revised"
      [0%float; 1%float] in
  let st' :=
    store_rulebook_content binary64 ∅ [first_version; second_version] in
  hget_data binary64 st' "chunk:A" = Ok (Some (stored_form second_version))
  /\ "chunk:A" ∈ index_members st' "rulebook" "X"
  /\ "chunk:A" ∈ index_members st' "rulebook" "Y".
Proof.
  cbv zeta. split; [|split].
  - apply (stored_chunk_is_indexed_and_read_back binary64 ∅
             [example_chunk "A" "X" "S1" "Fireball" "a spell"
                [1%float; 0%float]] []
             (example_chunk "A" "Y" "S1" "Fireball" "a spell, revised"
                [0%float; 1%float]) (store_inv_empty binary64)).
    intros c [].
  - apply (stored_chunk_is_indexed_and_read_back binary64 ∅ []
             [example_chunk "A" "Y" "S1" "Fireball" "a spell, revised"
                [0%float; 1%float]]
             (example_chunk "A" "X" "S1" "Fireball" "a spell"
                [1%float; 0%float]) (store_inv_empty binary64)).
  - apply (stored_chunk_is_indexed_and_read_back binary64 ∅
             [example_chunk "A" "X" "S1" "Fireball" "a spell"
                [1%float; 0%float]] []
             (example_chunk "A" "Y" "S1" "Fireball" "a spell, revised"
                [0%float; 1%float]) (store_inv_empty binary64)).
Defined.

Lemma stored_chunk_is_found_witness :
  let sword :=
    example_chunk "C" "Y" "S1" "Sword" "an item" [0%float; 1%float] in
  let st' :=
    store_rulebook_content binary64 ∅
      [ example_chunk "A" "X" "S1" "Fireball" "a spell"
          [1%float; 0%float];
        sword ] in
  exists keys,
    _get_filtered_chunks binary64 elements elements st'
      (Some [("system"%string, "S1"%string)]) = Ok keys
    /\ In "chunk:C"%string keys
    /\ (Z.of_nat (length keys) <= 5 ->
        In {| content_chunk := stored_form sword;
              relevance_score :=
                _cosine_similarity binary64 [0%float; 1%float]
                  (embedding sword);
              match_type := "semantic" |}
           (vector_search binary64 elements elements st'
              [0%float; 1%float] (Some [("system"%string, "S1"%string)]) 5
              default_similarity_threshold)).
Proof.
  cbv zeta.
  apply (stored_chunk_is_found binary64 elements elements ∅
           [example_chunk "A" "X" "S1" "Fireball" "a spell"
              [1%float; 0%float]] []
           (example_chunk "C" "Y" "S1" "Sword" "an item"
              [0%float; 1%float])
           [0%float; 1%float] (Some [("system"%string, "S1"%string)]) 5
           default_similarity_threshold).
  - apply store_inv_empty.
  - apply enumerates_elements.
  - apply enumerates_elements.
  - intros c [].
  - intros d v [[= <- <-]|[]]. right; left. split; reflexivity.
  - discriminate.
  - vm_compute. reflexivity.
Defined.

Lemma stored_chunk_is_found_by_keyword_witness :
  let sword :=
    example_chunk "C" "Y" "S1" "Sword" "an item" [0%float; 1%float] in
  In {| content_chunk := stored_form sword;
        relevance_score := keyword_score binary64 (lower "SWORD") sword;
        match_type := "keyword" |}
     (keyword_search binary64 elements elements
        (store_rulebook_content binary64 ∅
           [ example_chunk "A" "X" "S1" "Fireball" "a spell"
               [1%float; 0%float];
             sword ])
        "SWORD" (Some [("rulebook"%string, "Y"%string)])).
Proof.
  cbv zeta.
  apply (stored_chunk_is_found_by_keyword binary64 elements elements ∅
           [example_chunk "A" "X" "S1" "Fireball" "a spell"
              [1%float; 0%float]] []
           (example_chunk "C" "Y" "S1" "Sword" "an item"
              [0%float; 1%float])
           "SWORD" (Some [("rulebook"%string, "Y"%string)])).
  - vm_compute. repeat split; reflexivity.
  - apply store_inv_empty.
  - apply enumerates_elements.
  - apply enumerates_elements.
  - intros c [].
  - intros d v [[= <- <-]|[]]. left. split; reflexivity.
  - left. vm_compute. reflexivity.
Defined.

(** ** Filters on other fields *)

Section FilterFacts.

Variable F : pyfloat.
Variable scan_order : gset string -> list string.
Variable set_order : gset string -> list string.

Implicit Types st : gmap string (rvalue F).

Lemma fold_apply_filter_known st (items : list (string * string)) :
  forall result_keys : exc (gset string),
    fold_left (apply_filter F st) items result_keys
    = fold_left (apply_filter F st) (List.filter known_filter items)
        result_keys.
Proof.
  induction items as [|[filter_key filter_value] items IH];
    intros result_keys; [reflexivity|].
  cbn [fold_left List.filter]. unfold known_filter at 1. cbn [fst].
  destruct (String.eqb filter_key "rulebook") eqn:E1;
    [cbn [orb fold_left]; apply IH|].
  destruct (String.eqb filter_key "system") eqn:E2;
    [cbn [orb fold_left]; apply IH|].
  destruct (String.eqb filter_key "content_type") eqn:E3;
    [cbn [orb fold_left]; apply IH|].
  cbn [orb]. rewrite <- IH. f_equal.
  unfold apply_filter. rewrite E1, E2, E3.
  now destruct result_keys.
Qed.

(** X24.  [_get_filtered_chunks] acts on the filters "rulebook", "system"
    and "content_type" only.  A filter on any other field is passed over
    without an error and without narrowing the result; when no filter of
    a non-empty dictionary is one of the three, every chunk key is
    returned. *)
Theorem other_filters_are_ignored st (items : list (string * string)) :
  items <> [] ->
  _get_filtered_chunks F scan_order set_order st (Some items)
  = (let! result_keys :=
       fold_left (apply_filter F st) (List.filter known_filter items)
         (Ok (chunk_keys F st)) in
     Ok (set_order result_keys))
  /\ (List.filter known_filter items = [] ->
      _get_filtered_chunks F scan_order set_order st (Some items)
      = Ok (set_order (chunk_keys F st))).
Proof.
  intros Hitems.
  assert (Hmain : _get_filtered_chunks F scan_order set_order st (Some items)
                  = (let! result_keys :=
                       fold_left (apply_filter F st)
                         (List.filter known_filter items)
                         (Ok (chunk_keys F st)) in
                     Ok (set_order result_keys))).
  { destruct items as [|item items]; [congruence|].
    cbn [_get_filtered_chunks].
    now rewrite (fold_apply_filter_known st (item :: items)). }
  split; [exact Hmain|].
  intros Hnone. rewrite Hmain, Hnone. reflexivity.
Qed.

End FilterFacts.

Lemma other_filters_are_ignored_witness :
  _get_filtered_chunks binary64 elements elements abc_store
    (Some [("page"%string, "12"%string); ("system"%string, "S1"%string)])
  = (let! result_keys :=
       fold_left (apply_filter binary64 abc_store)
         (List.filter known_filter
            [("page"%string, "12"%string); ("system"%string, "S1"%string)])
         (Ok (chunk_keys binary64 abc_store)) in
     Ok (elements result_keys))
  /\ (List.filter known_filter
        [("page"%string, "12"%string); ("system"%string, "S1"%string)] = [] ->
      _get_filtered_chunks binary64 elements elements abc_store
        (Some [("page"%string, "12"%string); ("system"%string, "S1"%string)])
      = Ok (elements (chunk_keys binary64 abc_store))).
Proof.
  apply (other_filters_are_ignored binary64 elements elements abc_store).
  discriminate.
Defined.

Example other_filters_example :
  _get_filtered_chunks binary64 elements elements abc_store
    (Some [("page"%string, "12"%string); ("system"%string, "S1"%string)])
  = _get_filtered_chunks binary64 elements elements abc_store
      (Some [("system"%string, "S1"%string)])
  /\ option_map (@length string)
       (match _get_filtered_chunks binary64 elements elements abc_store
                (Some [("page"%string, "12"%string)]) with
        | Ok keys => Some keys
        | Raise _ => None
        end) = Some 3%nat.
Proof. vm_compute. split; reflexivity. Qed.

(** ** Properties of the rulebook statistics *)

Section StatsFacts.

Variable F : pyfloat.
Variable scan_order : gset string -> list string.

Implicit Types st : gmap string (rvalue F).

Lemma count_one_reported (n : nat) (counts : gmap string nat)
    (value v : string) :
  counts !! v = reported n ->
  count_one counts value !! v
  = reported (if String.eqb value v then S n else n).
Proof.
  intros Hn. unfold count_one.
  destruct (String.eqb_spec value v) as [->|Hne].
  - rewrite lookup_insert_eq, Hn. destruct n; cbn; f_equal; lia.
  - now rewrite lookup_insert_ne.
Qed.

Lemma stats_fold st (keys : list string) (stats : rulebook_stats)
    (nr ns nc : string -> nat) :
  (forall k, In k keys -> exists h, st !! k = Some (RHash h)) ->
  (forall v, stat_rulebooks stats !! v = reported (nr v)) ->
  (forall v, stat_systems stats !! v = reported (ns v)) ->
  (forall v, stat_content_types stats !! v = reported (nc v)) ->
  exists stats',
    fold_left (stats_step F st) keys (Ok stats) = Ok stats'
    /\ total_chunks stats' = total_chunks stats
    /\ (forall v, stat_rulebooks stats' !! v
                  = reported (nr v + chunks_with st (h_rulebook F) v keys))
    /\ (forall v, stat_systems stats' !! v
                  = reported (ns v + chunks_with st (h_system F) v keys))
    /\ (forall v, stat_content_types stats' !! v
                  = reported (nc v
                              + chunks_with st (h_content_type F) v keys)).
Proof.
  revert stats nr ns nc.
  induction keys as [|k keys IH]; intros stats nr ns nc Hkeys Hr Hs Hc.
  - exists stats. cbn [fold_left]. unfold chunks_with. cbn [List.filter length].
    split; [reflexivity|]. split; [reflexivity|].
    repeat split; intros v; rewrite Nat.add_0_r; auto.
  - destruct (Hkeys k ltac:(now left)) as [h Hk].
    cbn [fold_left]. unfold stats_step at 2. cbn [exc_bind].
    unfold hgetall. rewrite Hk. cbn [exc_bind].
    set (stats1 := {| total_chunks := total_chunks stats |}).
    destruct (IH stats1 (fun v => if String.eqb (h_rulebook F h) v
                             then S (nr v) else nr v)
                   (fun v => if String.eqb (h_system F h) v
                             then S (ns v) else ns v)
                   (fun v => if String.eqb (h_content_type F h) v
                             then S (nc v) else nc v))
      as (stats' & Hfold & Htotal & Hr' & Hs' & Hc').
    + intros k' Hk'. apply Hkeys. now right.
    + intros v. cbn [stat_rulebooks]. now apply count_one_reported.
    + intros v. cbn [stat_systems]. now apply count_one_reported.
    + intros v. cbn [stat_content_types]. now apply count_one_reported.
    + exists stats'. split; [exact Hfold|]. split; [exact Htotal|].
      clear Hfold Htotal.
      unfold chunks_with in *. cbn [List.filter]. rewrite Hk.
      repeat split; intros v; [rewrite Hr'|rewrite Hs'|rewrite Hc'];
        f_equal;
        match goal with
        | |- context [String.eqb ?a v] => destruct (String.eqb a v)
        end; cbn [length]; lia.
Qed.

(** X25.  On a well-kept store whose scan lists the keys it holds,
    [get_rulebook_stats] succeeds.  [total_chunks] is the number of chunk
    keys listed, and for each rulebook, system and content type the
    statistics give the number of listed keys whose chunk carries that
    value; a value that no chunk carries has no entry. *)
Theorem rulebook_stats_count_chunks st :
  store_inv st -> enumerates scan_order ->
  let keys := scan_order (chunk_keys F st) in
  exists stats,
    get_rulebook_stats F scan_order st = Some stats
    /\ total_chunks stats = length keys
    /\ (forall v, stat_rulebooks stats !! v
                  = reported (chunks_with st (h_rulebook F) v keys))
    /\ (forall v, stat_systems stats !! v
                  = reported (chunks_with st (h_system F) v keys))
    /\ (forall v, stat_content_types stats !! v
                  = reported (chunks_with st (h_content_type F) v keys)).
Proof.
  intros Hinv Hscan. cbv zeta. unfold get_rulebook_stats.
  set (keys := scan_order (chunk_keys F st)).
  destruct (stats_fold st keys
              {| total_chunks := length keys; stat_rulebooks := ∅;
                 stat_systems := ∅; stat_content_types := ∅ |}
              (fun _ => 0%nat) (fun _ => 0%nat) (fun _ => 0%nat))
    as (stats & -> & Htotal & Hr & Hs & Hc);
    try (intros v; apply lookup_empty).
  - intros k Hk. subst keys. apply (Hscan _ k) in Hk.
    now apply chunk_keys_spec in Hk.
  - exists stats. auto.
Qed.

End StatsFacts.

Lemma rulebook_stats_count_chunks_witness :
  exists stats,
    get_rulebook_stats binary64 elements abc_store = Some stats
    /\ total_chunks stats = length (elements (chunk_keys binary64 abc_store))
    /\ (forall v, stat_rulebooks stats !! v
                  = reported (chunks_with abc_store (h_rulebook binary64) v
                                (elements (chunk_keys binary64 abc_store))))
    /\ (forall v, stat_systems stats !! v
                  = reported (chunks_with abc_store (h_system binary64) v
                                (elements (chunk_keys binary64 abc_store))))
    /\ (forall v, stat_content_types stats !! v
                  = reported (chunks_with abc_store
                                (h_content_type binary64) v
                                (elements (chunk_keys binary64 abc_store)))).
Proof.
  apply (rulebook_stats_count_chunks binary64 elements abc_store).
  - apply abc_store_inv.
  - apply enumerates_elements.
Defined.

Example rulebook_stats_example :
  option_map (fun stats =>
                (total_chunks stats,
                 stat_rulebooks stats !! "X"%string,
                 stat_rulebooks stats !! "Z"%string,
                 stat_systems stats !! "S1"%string,
                 stat_content_types stats !! "rule"%string))
    (get_rulebook_stats binary64 elements abc_store)
  = Some (3%nat, Some 2%nat, None, Some 2%nat, Some 3%nat).
Proof. vm_compute. reflexivity. Qed.

(** ** Properties of the campaign data functions *)

Section CampaignFacts.

Variable dict : Type.
Variable dict_name : dict -> option string.
Variable dict_tags : dict -> option (list string).
Variable dict_update : dict -> dict -> dict.
Variable timestamp : Type.
Variable set_order : gset string -> list string.

Implicit Types st : gmap string (cvalue dict timestamp).
Implicit Types h : campaign_hash dict timestamp.

Lemma campaign_key_prefix (rest : string) :
  String.prefix CAMPAIGN_PREFIX (CAMPAIGN_PREFIX +:+ rest) = true.
Proof. cbn. now destruct rest. Qed.

Lemma campaign_index_prefix (campaign_id : string) :
  String.prefix CAMPAIGN_PREFIX (campaign_index campaign_id) = false.
Proof. reflexivity. Qed.

Lemma campaign_type_index_prefix (campaign_id data_type : string) :
  String.prefix CAMPAIGN_PREFIX (campaign_type_index campaign_id data_type)
  = false.
Proof. reflexivity. Qed.

Lemma campaign_indexes_differ (campaign_id campaign_id' data_type : string) :
  campaign_index campaign_id
  <> campaign_type_index campaign_id' data_type.
Proof.
  unfold campaign_index, campaign_type_index. cbv [String.append].
  discriminate.
Qed.

Lemma c_smembers_members st name :
  String.prefix CAMPAIGN_PREFIX name = false -> campaign_inv st ->
  c_smembers st name = Ok (campaign_members st name).
Proof.
  intros Hname Hinv. unfold c_smembers, campaign_members.
  destruct (st !! name) as [[h|s]|] eqn:E; try reflexivity.
  apply (cinv_hash _ Hinv) in E. congruence.
Qed.

Lemma collect_campaign_data_ok st (keys : list string) :
  campaign_inv st ->
  (forall k, In k keys -> String.prefix CAMPAIGN_PREFIX k = true) ->
  exists records,
    collect_campaign_data st keys = Ok records
    /\ forall h, In h records <->
         exists k, In k keys /\ st !! k = Some (CHash h).
Proof.
  intros Hinv. induction keys as [|key keys IH]; intros Hkeys;
    cbn [collect_campaign_data].
  - exists []. split; [reflexivity|]. intros h. split; [intros []|].
    now intros (k & [] & _).
  - destruct IH as (rest & -> & Hrest).
    { intros k Hk. apply Hkeys. now right. }
    unfold c_hgetall.
    destruct (st !! key) as [[h0|s]|] eqn:Ekey; cbn [exc_bind].
    + exists (h0 :: rest). split; [reflexivity|]. intros h. cbn [In].
      rewrite Hrest. split.
      * intros [<-|(k & Hk & Hh)].
        -- exists key. split; [now left|exact Ekey].
        -- exists k. split; [now right|exact Hh].
      * intros (k & [<-|Hk] & Hh); [left; congruence|right; eauto].
    + apply (cinv_set _ Hinv) in Ekey.
      rewrite (Hkeys key (or_introl eq_refl)) in Ekey. discriminate.
    + exists rest. split; [reflexivity|]. intros h. rewrite Hrest.
      split.
      * intros (k & Hk & Hh). exists k. split; [now right|exact Hh].
      * intros (k & [<-|Hk] & Hh); [congruence|eauto].
Qed.

Lemma get_campaign_data_index st (campaign_id : string) h :
  campaign_inv st -> enumerates set_order ->
  In h (get_campaign_data dict timestamp set_order st campaign_id None)
  <-> exists key,
        key ∈ campaign_members st (campaign_index campaign_id)
        /\ st !! key = Some (CHash h).
Proof.
  intros Hinv Hset. unfold get_campaign_data.
  rewrite (c_smembers_members st _ (campaign_index_prefix campaign_id)
             Hinv).
  cbn [exc_bind].
  destruct (collect_campaign_data_ok st
              (set_order (campaign_members st (campaign_index campaign_id)))
              Hinv) as (records & -> & Hrecords).
  { intros k Hk. apply (Hset _ k) in Hk. unfold campaign_members in Hk.
    destruct (st !! campaign_index campaign_id) as [[h0|s]|] eqn:E;
      try (now apply not_elem_of_empty in Hk).
    exact (cinv_members _ Hinv _ _ _ E Hk). }
  cbn [try_except]. rewrite Hrecords.
  split; intros (k & Hk & Hh); exists k; split; auto;
    now apply (Hset _ k).
Qed.

Lemma get_campaign_data_type st (campaign_id data_type : string) h :
  campaign_inv st -> enumerates set_order ->
  str_truthy data_type = true ->
  In h (get_campaign_data dict timestamp set_order st campaign_id
          (Some data_type))
  <-> exists key,
        key ∈ campaign_members st
                (campaign_type_index campaign_id data_type)
        /\ st !! key = Some (CHash h).
Proof.
  intros Hinv Hset Htype. unfold get_campaign_data. rewrite Htype.
  rewrite (c_smembers_members st _
             (campaign_type_index_prefix campaign_id data_type) Hinv).
  cbn [exc_bind].
  destruct (collect_campaign_data_ok st
              (set_order (campaign_members st
                            (campaign_type_index campaign_id data_type)))
              Hinv) as (records & -> & Hrecords).
  { intros k Hk. apply (Hset _ k) in Hk. unfold campaign_members in Hk.
    destruct (st !! campaign_type_index campaign_id data_type)
      as [[h0|s]|] eqn:E; try (now apply not_elem_of_empty in Hk).
    exact (cinv_members _ Hinv _ _ _ E Hk). }
  cbn [try_except]. rewrite Hrecords.
  split; intros (k & Hk & Hh); exists k; split; auto;
    now apply (Hset _ k).
Qed.

Lemma c_hset_inv st key h st' :
  campaign_inv st -> String.prefix CAMPAIGN_PREFIX key = true ->
  c_hset st key h = Ok st' ->
  st' = <[key := CHash h]> st /\ campaign_inv st'.
Proof.
  intros Hinv Hkey. unfold c_hset.
  destruct (st !! key) as [[h0|s]|] eqn:E; try discriminate;
    intros [= <-]; (split; [reflexivity|]); destruct Hinv as [Hh Hs Hm];
    (split;
     [ intros k h1; rewrite lookup_insert; case_decide; subst; eauto
     | intros k s1; rewrite lookup_insert; case_decide; subst;
         [discriminate|eauto]
     | intros name s1 m; rewrite lookup_insert; case_decide; subst;
         [discriminate|eauto] ]).
Qed.

Lemma c_hset_ok st key h :
  campaign_inv st -> String.prefix CAMPAIGN_PREFIX key = true ->
  c_hset st key h = Ok (<[key := CHash h]> st).
Proof.
  intros Hinv Hkey. unfold c_hset.
  destruct (st !! key) as [[h0|s]|] eqn:E; try reflexivity.
  apply (cinv_set _ Hinv) in E. congruence.
Qed.

Lemma c_sadd_inv st name member :
  campaign_inv st -> String.prefix CAMPAIGN_PREFIX name = false ->
  String.prefix CAMPAIGN_PREFIX member = true ->
  exists st',
    c_sadd st name member = Ok st'
    /\ campaign_inv st'
    /\ campaign_members st' name = {[member]} ∪ campaign_members st name
    /\ forall k, k <> name -> st' !! k = st !! k.
Proof.
  intros Hinv Hname Hmember. unfold c_sadd, campaign_members.
  destruct (st !! name) as [[h0|s]|] eqn:E.
  - apply (cinv_hash _ Hinv) in E. congruence.
  - eexists. split; [reflexivity|]. rewrite lookup_insert_eq.
    split; [|split; [reflexivity|]].
    + destruct Hinv as [Hh Hs Hm]. split.
      * intros k h1; rewrite lookup_insert; case_decide; subst;
          [discriminate|eauto].
      * intros k s1; rewrite lookup_insert; case_decide; subst; eauto.
      * intros n s1 m; rewrite lookup_insert; case_decide; subst;
          [|eauto].
        intros [= <-] Hin. apply elem_of_union in Hin as [Hin|Hin];
          [apply elem_of_singleton in Hin; now subst|eauto].
    + intros k Hk. now rewrite lookup_insert_ne.
  - eexists. split; [reflexivity|]. rewrite lookup_insert_eq.
    split; [|split; [now rewrite union_empty_r_L|]].
    + destruct Hinv as [Hh Hs Hm]. split.
      * intros k h1; rewrite lookup_insert; case_decide; subst;
          [discriminate|eauto].
      * intros k s1; rewrite lookup_insert; case_decide; subst; eauto.
      * intros n s1 m; rewrite lookup_insert; case_decide; subst;
          [|eauto].
        intros [= <-] Hin. apply elem_of_singleton in Hin. now subst.
    + intros k Hk. now rewrite lookup_insert_ne.
Qed.

Lemma campaign_inv_empty :
  campaign_inv (∅ : gmap string (cvalue dict timestamp)).
Proof.
  split; intros *; rewrite lookup_empty; discriminate.
Qed.

Lemma store_campaign_data_inv st (campaign_id data_type : string)
    (data : dict) (data_id : string) (created_at updated_at : timestamp) :
  campaign_inv st ->
  campaign_inv
    (fst (store_campaign_data dict dict_name dict_tags timestamp st
            campaign_id data_type data data_id created_at updated_at)).
Proof.
  intros Hinv. unfold store_campaign_data.
  set (key := CAMPAIGN_PREFIX +:+ campaign_id +:+ ":" +:+ data_type +:+ ":"
                +:+ data_id).
  set (record := {| c_id := data_id |}).
  assert (Hkey : String.prefix CAMPAIGN_PREFIX key = true)
    by apply campaign_key_prefix.
  rewrite (c_hset_ok st key record Hinv Hkey).
  destruct (c_hset_inv st key record _ Hinv Hkey
              (c_hset_ok st key record Hinv Hkey)) as [_ Hinv1].
  destruct (c_sadd_inv _ (campaign_index campaign_id) key Hinv1
              (campaign_index_prefix campaign_id) Hkey)
    as (st2 & -> & Hinv2 & _).
  destruct (c_sadd_inv st2 (campaign_type_index campaign_id data_type) key
              Hinv2 (campaign_type_index_prefix campaign_id data_type) Hkey)
    as (st3 & -> & Hinv3 & _).
  exact Hinv3.
Qed.

(** X26.  On a well-kept campaign store, [store_campaign_data] with a
    fresh id returns that id and keeps the store well kept, and the new
    record is then listed by [get_campaign_data] for its campaign, both
    without a data type and with its own: it carries the id, the
    campaign, the data type, the name and tags of the data (empty when
    absent), the data itself as content, the two timestamps and version
    1. *)
Theorem stored_campaign_data_is_listed st
    (campaign_id data_type : string) (data : dict) (data_id : string)
    (created_at updated_at : timestamp) :
  campaign_inv st -> enumerates set_order ->
  st !! (CAMPAIGN_PREFIX +:+ campaign_id +:+ ":" +:+ data_type +:+ ":"
           +:+ data_id) = None ->
  let outcome :=
    store_campaign_data dict dict_name dict_tags timestamp st campaign_id
      data_type data data_id created_at updated_at in
  let record :=
    {| c_id := data_id;
       c_campaign_id := campaign_id;
       c_data_type := data_type;
       c_name := default EmptyString (dict_name data);
       c_content := data;
       c_created_at := created_at;
       c_updated_at := updated_at;
       c_version := 1;
       c_tags := default [] (dict_tags data) |} in
  snd outcome = Ok data_id
  /\ campaign_inv (fst outcome)
  /\ In record
       (get_campaign_data dict timestamp set_order (fst outcome) campaign_id
          None)
  /\ In record
       (get_campaign_data dict timestamp set_order (fst outcome) campaign_id
          (Some data_type)).
Proof.
  intros Hinv Hset Hfresh. cbv zeta. unfold store_campaign_data.
  set (key := CAMPAIGN_PREFIX +:+ campaign_id +:+ ":" +:+ data_type +:+ ":"
                +:+ data_id) in *.
  set (record := {| c_id := data_id |}).
  assert (Hkey : String.prefix CAMPAIGN_PREFIX key = true)
    by apply campaign_key_prefix.
  rewrite (c_hset_ok st key record Hinv Hkey).
  destruct (c_hset_inv st key record _ Hinv Hkey
              (c_hset_ok st key record Hinv Hkey)) as [_ Hinv1].
  set (st1 := <[key := CHash record]> st) in *.
  destruct (c_sadd_inv st1 (campaign_index campaign_id) key Hinv1
              (campaign_index_prefix campaign_id) Hkey)
    as (st2 & -> & Hinv2 & Hmem2 & Hother2).
  destruct (c_sadd_inv st2 (campaign_type_index campaign_id data_type) key
              Hinv2 (campaign_type_index_prefix campaign_id data_type) Hkey)
    as (st3 & -> & Hinv3 & Hmem3 & Hother3).
  cbn [fst snd].
  assert (Hrecord : st3 !! key = Some (CHash record)).
  { rewrite Hother3, Hother2; [apply lookup_insert_eq| |];
      intros E; rewrite E in Hkey; discriminate Hkey. }
  assert (Hindex : key ∈ campaign_members st3 (campaign_index campaign_id)).
  { unfold campaign_members. rewrite Hother3
      by apply campaign_indexes_differ.
    fold (campaign_members st2 (campaign_index campaign_id)).
    rewrite Hmem2. apply elem_of_union_l. now apply elem_of_singleton. }
  split; [reflexivity|]. split; [exact Hinv3|]. split.
  - apply get_campaign_data_index; eauto.
  - destruct (str_truthy data_type) eqn:Etype.
    + apply get_campaign_data_type; auto. exists key. split; [|exact Hrecord].
      rewrite Hmem3. apply elem_of_union_l. now apply elem_of_singleton.
    + unfold get_campaign_data. rewrite Etype.
      apply (get_campaign_data_index st3 campaign_id record Hinv3 Hset).
      eauto.
Qed.

Lemma find_campaign_key_spec st (data_id : string) (keys : list string) :
  campaign_inv st ->
  (forall k, In k keys -> String.prefix CAMPAIGN_PREFIX k = true) ->
  exists found,
    find_campaign_key st data_id keys = Ok found
    /\ match found with
       | Some key =>
           In key keys
           /\ exists h, st !! key = Some (CHash h) /\ c_id h = data_id
       | None =>
           forall key h, In key keys -> st !! key = Some (CHash h) ->
                         c_id h <> data_id
       end.
Proof.
  intros Hinv. induction keys as [|key keys IH]; intros Hkeys;
    cbn [find_campaign_key].
  - exists None. split; [reflexivity|]. intros key h [].
  - destruct IH as (found & Hfound & Hspec).
    { intros k Hk. apply Hkeys. now right. }
    unfold c_hgetall.
    destruct (st !! key) as [[h0|s]|] eqn:Ekey; cbn [exc_bind].
    + destruct (String.eqb_spec (c_id h0) data_id) as [Hid|Hid].
      * exists (Some key). split; [reflexivity|]. split; [now left|eauto].
      * exists found. split; [exact Hfound|].
        destruct found as [k|].
        -- destruct Hspec as [Hin Hh]. split; [now right|exact Hh].
        -- intros k h [<-|Hin] Hk; [congruence|eauto].
    + apply (cinv_set _ Hinv) in Ekey.
      rewrite (Hkeys key (or_introl eq_refl)) in Ekey. discriminate.
    + exists found. split; [exact Hfound|].
      destruct found as [k|].
      * destruct Hspec as [Hin Hh]. split; [now right|exact Hh].
      * intros k h [<-|Hin] Hk; [congruence|eauto].
Qed.

(** The search of [update_campaign_data] and [delete_campaign_data] on a
    well-kept store: it finds a record of the campaign with the id when
    there is one. *)
Lemma find_campaign_record st (campaign_id data_id : string) :
  campaign_inv st -> enumerates set_order ->
  exists found,
    (let! campaign_keys := c_smembers st (campaign_index campaign_id) in
     find_campaign_key st data_id (set_order campaign_keys)) = Ok found
    /\ match found with
       | Some key =>
           String.prefix CAMPAIGN_PREFIX key = true
           /\ exists h, campaign_record st campaign_id data_id key h
       | None =>
           forall key h, ~ campaign_record st campaign_id data_id key h
       end.
Proof.
  intros Hinv Hset.
  rewrite (c_smembers_members st _ (campaign_index_prefix campaign_id)
             Hinv).
  cbn [exc_bind].
  assert (Hmembers : forall k,
            In k (set_order
                    (campaign_members st (campaign_index campaign_id))) ->
            String.prefix CAMPAIGN_PREFIX k = true).
  { intros k Hk. apply (Hset _ k) in Hk. unfold campaign_members in Hk.
    destruct (st !! campaign_index campaign_id) as [[h0|s]|] eqn:E;
      try (now apply not_elem_of_empty in Hk).
    exact (cinv_members _ Hinv _ _ _ E Hk). }
  destruct (find_campaign_key_spec st data_id _ Hinv Hmembers)
    as (found & -> & Hspec).
  exists found. split; [reflexivity|]. destruct found as [key|].
  - destruct Hspec as (Hin & h & Hkey & Hid).
    split; [now apply Hmembers|]. exists h.
    split; [now apply (Hset _ key)|]. now split.
  - intros key h (Hin & Hkey & Hid).
    apply (Hspec key h); [now apply (Hset _ key)|exact Hkey|exact Hid].
Qed.

(** X27.  On a well-kept campaign store, [update_campaign_data] returns
    True exactly when the campaign lists a record with the id.  It then
    replaces one such record: the version goes up by one, the update time
    is the new one, name, tags and content take what the updates give,
    and id, campaign, data type and creation time stay; the new record is
    what [get_campaign_data] lists afterwards.  When it returns False the
    store is unchanged. *)
Theorem update_replaces_one_record st (campaign_id data_id : string)
    (updates : campaign_updates dict) (now : timestamp) :
  campaign_inv st -> enumerates set_order ->
  let outcome :=
    update_campaign_data dict dict_update timestamp set_order st
      campaign_id data_id updates now in
  campaign_inv (fst outcome)
  /\ (snd outcome = true
      <-> exists key h, campaign_record st campaign_id data_id key h)
  /\ (snd outcome = false -> fst outcome = st)
  /\ (snd outcome = true ->
      exists key h,
        campaign_record st campaign_id data_id key h
        /\ let h' := updated_record dict dict_update timestamp h updates
                       now in
           fst outcome = <[key := CHash h']> st
           /\ c_version h' = c_version h + 1
           /\ c_id h' = data_id
           /\ c_created_at h' = c_created_at h
           /\ In h' (get_campaign_data dict timestamp set_order
                       (fst outcome) campaign_id None)).
Proof.
  intros Hinv Hset. cbv zeta. unfold update_campaign_data.
  destruct (find_campaign_record st campaign_id data_id Hinv Hset)
    as (found & -> & Hspec).
  destruct found as [key|]; cbn [fst snd].
  2: { split; [exact Hinv|]. split; [|split; [reflexivity|discriminate]].
       split; [discriminate|]. intros (key & h & H). now apply Hspec in H. }
  destruct Hspec as (Hprefix & h & Hrecord).
  assert (Htruthy : str_truthy key = true).
  { destruct key; [discriminate Hprefix|reflexivity]. }
  rewrite Htruthy. cbn [negb].
  pose proof Hrecord as (Hin & Hkey & Hid).
  unfold c_hgetall. rewrite Hkey.
  set (h' := updated_record dict dict_update timestamp h updates now).
  rewrite (c_hset_ok st key h' Hinv Hprefix). cbn [fst snd].
  destruct (c_hset_inv st key h' _ Hinv Hprefix
              (c_hset_ok st key h' Hinv Hprefix)) as [_ Hinv'].
  split; [exact Hinv'|]. split; [split; eauto|].
  split; [discriminate|]. intros _. exists key, h.
  split; [exact Hrecord|]. split; [reflexivity|].
  split; [reflexivity|]. split; [exact Hid|]. split; [reflexivity|].
  apply (get_campaign_data_index _ campaign_id h' Hinv' Hset).
  exists key. split; [|apply lookup_insert_eq].
  unfold campaign_members in *. rewrite lookup_insert_ne; [exact Hin|].
  intros E. rewrite E in Hprefix. discriminate Hprefix.
Qed.

Lemma c_srem_inv st name member :
  campaign_inv st -> String.prefix CAMPAIGN_PREFIX name = false ->
  exists st',
    c_srem st name member = Ok st'
    /\ campaign_inv st'
    /\ campaign_members st' name = campaign_members st name ∖ {[member]}
    /\ forall k, k <> name -> st' !! k = st !! k.
Proof.
  intros Hinv Hname. unfold c_srem, campaign_members.
  destruct (st !! name) as [[h0|s]|] eqn:E.
  - apply (cinv_hash _ Hinv) in E. congruence.
  - destruct (decide (s ∖ {[member]} = ∅)) as [Hempty|Hne].
    + eexists. split; [reflexivity|]. rewrite lookup_delete_eq.
      split; [|split; [now rewrite Hempty|]].
      * destruct Hinv as [Hh Hs Hm]. split.
        -- intros k h1. rewrite lookup_delete_Some. intros [_ H]. eauto.
        -- intros k s1. rewrite lookup_delete_Some. intros [_ H]. eauto.
        -- intros n s1 m. rewrite lookup_delete_Some. intros [_ H]. eauto.
      * intros k Hk. now rewrite lookup_delete_ne.
    + eexists. split; [reflexivity|]. rewrite lookup_insert_eq.
      split; [|split; [reflexivity|]].
      * destruct Hinv as [Hh Hs Hm]. split.
        -- intros k h1; rewrite lookup_insert; case_decide; subst;
             [discriminate|eauto].
        -- intros k s1; rewrite lookup_insert; case_decide; subst; eauto.
        -- intros n s1 m; rewrite lookup_insert; case_decide; subst;
             [|eauto].
           intros [= <-] Hin. apply elem_of_difference in Hin as [Hin _].
           eauto.
      * intros k Hk. now rewrite lookup_insert_ne.
  - exists st. split; [reflexivity|]. rewrite E.
    split; [exact Hinv|]. split; [|reflexivity].
    symmetry. apply subseteq_empty_difference_L. apply empty_subseteq.
Qed.

Lemma delete_key_inv st key :
  campaign_inv st -> campaign_inv (delete key st).
Proof.
  intros [Hh Hs Hm]. split.
  - intros k h1. rewrite lookup_delete_Some. intros [_ H]. eauto.
  - intros k s1. rewrite lookup_delete_Some. intros [_ H]. eauto.
  - intros n s1 m. rewrite lookup_delete_Some. intros [_ H]. eauto.
Qed.

(** X28.  On a well-kept campaign store, [delete_campaign_data] returns
    True exactly when the campaign lists a record with the id.  It then
    removes one such record: its key holds nothing afterwards and is no
    longer a member of the campaign's index, nor of the index of its data
    type unless that type is the empty string; every other record is
    untouched, and [get_campaign_data] lists nothing that it did not list
    before.  When it returns False the store is unchanged. *)
Theorem delete_removes_one_record st (campaign_id data_id : string) :
  campaign_inv st -> enumerates set_order ->
  let outcome :=
    delete_campaign_data dict timestamp set_order st campaign_id data_id in
  campaign_inv (fst outcome)
  /\ (snd outcome = true
      <-> exists key h, campaign_record st campaign_id data_id key h)
  /\ (snd outcome = false -> fst outcome = st)
  /\ (snd outcome = true ->
      exists key h,
        campaign_record st campaign_id data_id key h
        /\ fst outcome !! key = None
        /\ (key ∉ campaign_members (fst outcome)
                    (campaign_index campaign_id))
        /\ (str_truthy (c_data_type h) = true ->
            key ∉ campaign_members (fst outcome)
                    (campaign_type_index campaign_id (c_data_type h)))
        /\ (forall k, String.prefix CAMPAIGN_PREFIX k = true -> k <> key ->
              fst outcome !! k = st !! k)
        /\ forall r,
             In r (get_campaign_data dict timestamp set_order (fst outcome)
                     campaign_id None) ->
             In r (get_campaign_data dict timestamp set_order st campaign_id
                     None)).
Proof.
  intros Hinv Hset. cbv zeta. unfold delete_campaign_data.
  destruct (find_campaign_record st campaign_id data_id Hinv Hset)
    as (found & -> & Hspec).
  destruct found as [key|]; cbn [fst snd].
  2: { split; [exact Hinv|]. split; [|split; [reflexivity|discriminate]].
       split; [discriminate|]. intros (key & h & H). now apply Hspec in H. }
  destruct Hspec as (Hprefix & h & Hrecord).
  pose proof Hrecord as (Hin & Hkey & Hid).
  destruct (c_srem_inv st (campaign_index campaign_id) key Hinv
              (campaign_index_prefix campaign_id))
    as (st1 & -> & Hinv1 & Hmem1 & Hother1).
  assert (Hne_index : forall name,
            String.prefix CAMPAIGN_PREFIX name = false -> key <> name).
  { intros name Hname E. rewrite E in Hprefix. congruence. }
  assert (Hkey1 : st1 !! key = Some (CHash h)).
  { rewrite Hother1; [exact Hkey|].
    apply Hne_index, campaign_index_prefix. }
  unfold c_hgetall. rewrite Hkey1.
  assert (Hstep : exists st2,
    (if str_truthy (c_data_type h)
     then c_srem st1 (campaign_type_index campaign_id (c_data_type h)) key
     else Ok st1) = Ok st2
    /\ campaign_inv st2
    /\ campaign_members st2 (campaign_index campaign_id)
       = campaign_members st (campaign_index campaign_id) ∖ {[key]}
    /\ (str_truthy (c_data_type h) = true ->
        key ∉ campaign_members st2
                (campaign_type_index campaign_id (c_data_type h)))
    /\ forall k, String.prefix CAMPAIGN_PREFIX k = true ->
                 st2 !! k = st !! k).
  { destruct (str_truthy (c_data_type h)) eqn:Etype.
    - destruct (c_srem_inv st1
                  (campaign_type_index campaign_id (c_data_type h)) key
                  Hinv1 (campaign_type_index_prefix _ _))
        as (st2 & -> & Hinv2 & Hmem2 & Hother2).
      exists st2. split; [reflexivity|]. split; [exact Hinv2|].
      split; [|split].
      + unfold campaign_members at 1.
        rewrite Hother2 by apply campaign_indexes_differ.
        exact Hmem1.
      + intros _. rewrite Hmem2. apply not_elem_of_difference. right.
        now apply elem_of_singleton.
      + intros k Hk. rewrite Hother2, Hother1; [reflexivity| |];
          intros E; rewrite E in Hk; discriminate Hk.
    - exists st1. split; [reflexivity|]. split; [exact Hinv1|].
      split; [exact Hmem1|]. split; [discriminate|].
      intros k Hk. apply Hother1. intros E. rewrite E in Hk.
      discriminate Hk. }
  destruct Hstep as (st2 & -> & Hinv2 & Hmem2 & Htype2 & Hother2).
  cbn [fst snd].
  assert (Hinv' : campaign_inv (delete key st2)) by now apply delete_key_inv.
  assert (Hmembers : forall name,
            campaign_members (delete key st2) name
            = campaign_members st2 name).
  { intros name. unfold campaign_members.
    destruct (decide (key = name)) as [<-|Hne].
    - rewrite lookup_delete_eq, Hother2, Hkey by exact Hprefix. reflexivity.
    - now rewrite lookup_delete_ne. }
  split; [exact Hinv'|]. split; [split; eauto|].
  split; [discriminate|]. intros _. exists key, h.
  split; [exact Hrecord|]. split; [apply lookup_delete_eq|].
  split; [|split; [|split]].
  - rewrite Hmembers, Hmem2. apply not_elem_of_difference. right.
    now apply elem_of_singleton.
  - intros Htype. rewrite Hmembers. now apply Htype2.
  - intros k Hk Hne. rewrite lookup_delete_ne by congruence.
    now apply Hother2.
  - intros r Hr.
    apply (get_campaign_data_index _ campaign_id r Hinv' Hset) in Hr
      as (k & Hk & Hr).
    apply (get_campaign_data_index st campaign_id r Hinv Hset).
    rewrite Hmembers, Hmem2 in Hk. apply elem_of_difference in Hk as [Hk Hne].
    exists k. split; [exact Hk|].
    apply lookup_delete_Some in Hr as [_ Hr].
    rewrite <- Hother2; [exact Hr|].
    unfold campaign_members in Hk.
    destruct (st !! campaign_index campaign_id) as [[h0|s]|] eqn:E;
      try (now apply not_elem_of_empty in Hk).
    exact (cinv_members _ Hinv _ _ _ E Hk).
Qed.

End CampaignFacts.

Lemma example_campaign_store_inv : campaign_inv example_campaign_store.
Proof.
  apply store_campaign_data_inv, campaign_inv_empty.
Qed.

Lemma stored_campaign_data_is_listed_witness :
  let outcome :=
    store_campaign_data assoc_dict assoc_name (fun _ => None) nat ∅
      "c1" "character" [("name", "Bob"); ("class", "bard")] "id-1"
      10%nat 11%nat in
  let record :=
    {| c_id := "id-1";
       c_campaign_id := "c1";
       c_data_type := "character";
       c_name := "Bob";
       c_content := [("name", "Bob"); ("class", "bard")];
       c_created_at := 10%nat;
       c_updated_at := 11%nat;
       c_version := 1;
       c_tags := [] |} in
  snd outcome = Ok "id-1"%string
  /\ campaign_inv (fst outcome)
  /\ In record
       (get_campaign_data assoc_dict nat elements (fst outcome) "c1" None)
  /\ In record
       (get_campaign_data assoc_dict nat elements (fst outcome) "c1"
          (Some "character"%string)).
Proof.
  cbv zeta.
  apply (stored_campaign_data_is_listed assoc_dict assoc_name
           (fun _ => None) nat elements ∅ "c1" "character"
           [("name", "Bob"); ("class", "bard")] "id-1" 10%nat 11%nat).
  - apply campaign_inv_empty.
  - apply enumerates_elements.
  - apply lookup_empty.
Defined.

Lemma update_replaces_one_record_witness :
  let updates :=
    {| up_name := None;
       up_content := Some [("class", "wizard")];
       up_tags := Some ["retired"%string] |} in
  let outcome :=
    update_campaign_data assoc_dict assoc_update nat elements
      example_campaign_store "c1" "id-1" updates 20%nat in
  campaign_inv (fst outcome)
  /\ (snd outcome = true
      <-> exists key h,
            campaign_record example_campaign_store "c1" "id-1" key h)
  /\ (snd outcome = false -> fst outcome = example_campaign_store)
  /\ (snd outcome = true ->
      exists key h,
        campaign_record example_campaign_store "c1" "id-1" key h
        /\ let h' := updated_record assoc_dict assoc_update nat h updates
                       20%nat in
           fst outcome = <[key := CHash h']> example_campaign_store
           /\ c_version h' = c_version h + 1
           /\ c_id h' = "id-1"%string
           /\ c_created_at h' = c_created_at h
           /\ In h' (get_campaign_data assoc_dict nat elements
                       (fst outcome) "c1" None)).
Proof.
  cbv zeta.
  apply (update_replaces_one_record assoc_dict assoc_update nat elements
           example_campaign_store "c1" "id-1").
  - apply example_campaign_store_inv.
  - apply enumerates_elements.
Defined.

Lemma delete_removes_one_record_witness :
  let outcome :=
    delete_campaign_data assoc_dict nat elements example_campaign_store
      "c1" "id-1" in
  campaign_inv (fst outcome)
  /\ (snd outcome = true
      <-> exists key h,
            campaign_record example_campaign_store "c1" "id-1" key h)
  /\ (snd outcome = false -> fst outcome = example_campaign_store).
Proof.
  cbv zeta.
  destruct (delete_removes_one_record assoc_dict nat elements
              example_campaign_store "c1" "id-1"
              example_campaign_store_inv enumerates_elements)
    as (H1 & H2 & H3 & _).
  split; [exact H1|]. split; [exact H2|exact H3].
Defined.

(** The three functions on the example store: the record is listed, an
    update bumps its version and merges the content, and after the
    deletion nothing is listed and no key is left. *)
Example campaign_data_example :
  let updates :=
    {| up_name := None;
       up_content := Some [("class", "wizard")];
       up_tags := Some ["retired"%string] |} in
  let updated :=
    update_campaign_data assoc_dict assoc_update nat elements
      example_campaign_store "c1" "id-1" updates 20%nat in
  let deleted :=
    delete_campaign_data assoc_dict nat elements (fst updated) "c1" "id-1" in
  map (fun h => (c_name h, c_version h, c_content h, c_tags h,
                 c_created_at h, c_updated_at h))
      (get_campaign_data assoc_dict nat elements (fst updated) "c1" None)
  = [("Bob"%string, 2, [("class", "wizard"); ("name", "Bob")],
      ["retired"%string], 10%nat, 20%nat)]
  /\ snd updated = true
  /\ snd deleted = true
  /\ get_campaign_data assoc_dict nat elements (fst deleted) "c1" None = []
  /\ fst deleted = ∅
  /\ snd (update_campaign_data assoc_dict assoc_update nat elements
            example_campaign_store "c2" "id-1" updates 20%nat) = false.
Proof. vm_compute. repeat split; reflexivity. Qed.

(** ** Properties of the cleanup of old campaign data *)

Section CleanupFacts.

Variable dict : Type.
Variable timestamp : Type.
Variable before_cutoff : timestamp -> option bool.
Variable scan_order : gset string -> list string.
Variable set_order : gset string -> list string.

Implicit Types st : gmap string (cvalue dict timestamp).

Local Abbreviation old := (expired dict timestamp before_cutoff).

Lemma bool_decide_tail (k key : string) (keys : list string) :
  k <> key -> bool_decide (k ∈ key :: keys) = bool_decide (k ∈ keys).
Proof.
  intros Hne. apply bool_decide_ext. rewrite elem_of_cons. tauto.
Qed.

Lemma cleanup_loop_spec (keys : list string) :
  forall st (n : nat),
    campaign_inv st ->
    (forall k, In k keys -> String.prefix CAMPAIGN_PREFIX k = true) ->
    exists st' n',
      cleanup_loop dict timestamp before_cutoff st n keys = (st', Ok n')
      /\ campaign_inv st'
      /\ (forall k, st' !! k
                    = if bool_decide (k ∈ keys) && old st k then None
                      else st !! k)
      /\ (n' + size (dom st') = n + size (dom st))%nat.
Proof.
  induction keys as [|key keys IH]; intros st n Hinv Hkeys;
    cbn [cleanup_loop].
  - exists st, n. split; [reflexivity|]. split; [exact Hinv|].
    split; [|reflexivity]. intros k.
    rewrite bool_decide_eq_false_2 by apply not_elem_of_nil. reflexivity.
  - assert (Hprefix := Hkeys key (or_introl eq_refl)).
    assert (Hmore : forall k, In k keys ->
                      String.prefix CAMPAIGN_PREFIX k = true)
      by (intros k Hk; apply Hkeys; now right).
    unfold cleanup_step. cbn [exc_bind]. unfold c_hgetall.
    destruct (st !! key) as [[h|s]|] eqn:Ekey; cbn [exc_bind].
    + destruct (before_cutoff (c_updated_at h)) as [[|]|] eqn:Eold.
      * (* the record is deleted *)
        destruct (IH (delete key st) (S n)) as (st' & n' & -> & Hinv' & Hlook
                                                & Hcount);
          [now apply delete_key_inv|exact Hmore|].
        exists st', n'. split; [reflexivity|]. split; [exact Hinv'|].
        split.
        -- intros k. rewrite Hlook. unfold expired.
           destruct (decide (k = key)) as [->|Hne].
           ++ rewrite lookup_delete_eq, Ekey, Eold.
              rewrite (bool_decide_eq_true_2 (key ∈ key :: keys))
                by (apply elem_of_cons; now left).
              now destruct (bool_decide (key ∈ keys)).
           ++ rewrite lookup_delete_ne by congruence.
              now rewrite (bool_decide_tail k key keys Hne).
        -- rewrite Hcount, dom_delete_L.
           assert (Hin : key ∈ dom st) by (apply elem_of_dom; eauto).
           assert (Hsub : {[key]} ⊆ dom st)
             by now apply singleton_subseteq_l.
           pose proof (size_difference (dom st) {[key]} Hsub) as Hsize.
           pose proof (subseteq_size {[key]} (dom st) Hsub) as Hpos.
           rewrite size_singleton in Hsize, Hpos. lia.
      * destruct (IH st n Hinv Hmore) as (st' & n' & -> & Hinv' & Hlook
                                          & Hcount).
        exists st', n'. split; [reflexivity|]. split; [exact Hinv'|].
        split; [|exact Hcount].
        intros k. rewrite Hlook. unfold expired.
        destruct (decide (k = key)) as [->|Hne].
        -- rewrite Ekey, Eold. now rewrite !andb_false_r.
        -- now rewrite (bool_decide_tail k key keys Hne).
      * destruct (IH st n Hinv Hmore) as (st' & n' & -> & Hinv' & Hlook
                                          & Hcount).
        exists st', n'. split; [reflexivity|]. split; [exact Hinv'|].
        split; [|exact Hcount].
        intros k. rewrite Hlook. unfold expired.
        destruct (decide (k = key)) as [->|Hne].
        -- rewrite Ekey, Eold. now rewrite !andb_false_r.
        -- now rewrite (bool_decide_tail k key keys Hne).
    + apply (cinv_set _ Hinv) in Ekey. congruence.
    + destruct (IH st n Hinv Hmore) as (st' & n' & -> & Hinv' & Hlook
                                        & Hcount).
      exists st', n'. split; [reflexivity|]. split; [exact Hinv'|].
      split; [|exact Hcount].
      intros k. rewrite Hlook. unfold expired.
      destruct (decide (k = key)) as [->|Hne].
      * rewrite Ekey. now rewrite !andb_false_r.
      * now rewrite (bool_decide_tail k key keys Hne).
Qed.

(** X29.  On a well-kept campaign store whose scan lists the keys it
    holds, [cleanup_old_data] deletes exactly the records whose update
    time lies before the cutoff and returns their number; records with an
    unreadable time are kept.  The index sets are left as they are, so
    they go on naming the deleted keys, but [get_campaign_data] lists
    exactly the records it listed before that are not expired. *)
Theorem cleanup_deletes_expired_records st :
  campaign_inv st -> enumerates scan_order -> enumerates set_order ->
  let outcome :=
    cleanup_old_data dict timestamp before_cutoff scan_order st in
  campaign_inv (fst outcome)
  /\ (forall k, fst outcome !! k = if old st k then None else st !! k)
  /\ (snd outcome + size (dom (fst outcome)) = size (dom st))%nat
  /\ (forall name, campaign_members (fst outcome) name
                   = campaign_members st name)
  /\ forall campaign_id r,
       In r (get_campaign_data dict timestamp set_order (fst outcome)
               campaign_id None)
       <-> In r (get_campaign_data dict timestamp set_order st campaign_id
                   None)
           /\ before_cutoff (c_updated_at r) <> Some true.
Proof.
  intros Hinv Hscan Hset. cbv zeta. unfold cleanup_old_data.
  destruct (cleanup_loop_spec
              (scan_order (campaign_keys dict timestamp st)) st 0 Hinv)
    as (st' & n' & -> & Hinv' & Hlook & Hcount).
  { intros k Hk. apply (Hscan _ k) in Hk. unfold campaign_keys in Hk.
    now apply elem_of_filter in Hk as [Hk _]. }
  cbn [fst snd try_except].
  assert (Hlook' : forall k, st' !! k = if old st k then None else st !! k).
  { intros k. rewrite Hlook.
    destruct (old st k) eqn:Eold; [|now rewrite andb_false_r].
    rewrite bool_decide_eq_true_2; [reflexivity|].
    apply list_elem_of_In, (Hscan _ k). unfold campaign_keys.
    unfold expired in Eold.
    destruct (st !! k) as [[h|s]|] eqn:Ek; try discriminate.
    apply elem_of_filter. split; [exact (cinv_hash _ Hinv _ _ Ek)|].
    apply elem_of_dom. eauto. }
  assert (Hmembers : forall name, campaign_members st' name
                                  = campaign_members st name).
  { intros name. unfold campaign_members. rewrite Hlook'.
    unfold expired. destruct (st !! name) as [[h|s]|]; try reflexivity.
    now destruct (before_cutoff (c_updated_at h)) as [[|]|]. }
  split; [exact Hinv'|]. split; [exact Hlook'|].
  split; [exact Hcount|]. split; [exact Hmembers|].
  intros campaign_id r.
  rewrite (get_campaign_data_index dict timestamp set_order st' campaign_id r
             Hinv' Hset).
  rewrite (get_campaign_data_index dict timestamp set_order st campaign_id r
             Hinv Hset).
  rewrite Hmembers. split.
  - intros (key & Hkey & Hr). rewrite Hlook' in Hr. unfold expired in Hr.
    destruct (st !! key) as [[h|s]|] eqn:Ek; try discriminate.
    destruct (before_cutoff (c_updated_at h)) as [[|]|] eqn:Eold;
      try discriminate; injection Hr as <-;
      (split; [exists key; now split|congruence]).
  - intros ((key & Hkey & Hr) & Hfresh). exists key.
    split; [exact Hkey|]. rewrite Hlook'. unfold expired. rewrite Hr.
    destruct (before_cutoff (c_updated_at r)) as [[|]|]; congruence.
Qed.

End CleanupFacts.

Lemma cleanup_deletes_expired_records_witness :
  let outcome :=
    cleanup_old_data assoc_dict nat
      (fun updated_at => Some (updated_at <? 15)%nat) elements
      example_campaign_store in
  campaign_inv (fst outcome)
  /\ (forall k, fst outcome !! k
                = if expired assoc_dict nat
                       (fun updated_at => Some (updated_at <? 15)%nat)
                       example_campaign_store k
                  then None else example_campaign_store !! k)
  /\ (snd outcome + size (dom (fst outcome))
      = size (dom example_campaign_store))%nat.
Proof.
  cbv zeta.
  destruct (cleanup_deletes_expired_records assoc_dict nat
              (fun updated_at => Some (updated_at <? 15)%nat)
              elements elements example_campaign_store
              example_campaign_store_inv enumerates_elements
              enumerates_elements) as (H1 & H2 & H3 & _).
  split; [exact H1|]. split; [exact H2|exact H3].
Defined.

Example cleanup_old_data_example :
  let outcome :=
    cleanup_old_data assoc_dict nat
      (fun updated_at => Some (updated_at <? 15)%nat) elements
      example_campaign_store in
  snd outcome = 1%nat
  /\ fst outcome !! "campaign:c1:character:id-1"%string = None
  /\ campaign_members (fst outcome) "campaign_index:c1"
     = {["campaign:c1:character:id-1"%string]}
  /\ get_campaign_data assoc_dict nat elements (fst outcome) "c1" None = [].
Proof. vm_compute. repeat split; reflexivity. Qed.
